(** * infinity-math: upload pipeline and content access gate

    A shallow embedding of the upload helpers ([src/lib/r2/upload.ts] and the
    R2 configuration module), of the streaming upload route, and of the
    course access, course content and first-content route handlers, followed
    by the properties established about them.

    Conventions of the embedding.
    - A JS string is a [string] that holds its UTF-8 bytes: a character
      of ASCII is one byte, any other character the two, three or four
      bytes of its encoding.  [Js.codeUnits] gives the UTF-16 code units
      that the source sees; [sanitizeFilename] and [trim] act on the
      bytes as the source acts on those code units.
    - A JS number that holds a byte count, a position, a price or a
      percentage is a [Z]; the quotient of two byte counts is computed on
      doubles, as the source computes it.
    - [undefined] and [null] are [None].
    - The clock, the random identifier, the environment and the behaviour of
      the object store are explicit inputs of the functions that use them. *)

From Stdlib Require Import ZArith List String Ascii Bool Lia.
From Stdlib Require Import Numbers.DecimalString.
From Stdlib Require Import Numbers.DecimalN.
From Stdlib Require Import Floats.SpecFloat.
From Stdlib Require Import Sorting.Sorted Sorting.Permutation.
Import ListNotations.

Open Scope string_scope.
Open Scope Z_scope.

(* ================================================================== *)
(** * JavaScript string primitives used by the sources *)
(* ================================================================== *)

Module Js.

(** Truthiness of a string: every string but the empty one. *)
Definition truthy (s : string) : bool :=
  match s with
  | EmptyString => false
  | String _ _ => true
  end.

(** Truthiness of [string | undefined | null]. *)
Definition truthyOpt (o : option string) : bool :=
  match o with
  | Some s => truthy s
  | None => false
  end.

(** [a || b] on strings. *)
Definition orElse (a b : string) : string :=
  if truthy a then a else b.

Definition inRange (lo hi : nat) (c : ascii) : bool :=
  (lo <=? nat_of_ascii c)%nat && (nat_of_ascii c <=? hi)%nat.

Definition isUpper (c : ascii) : bool := inRange 65 90 c.
Definition isLower (c : ascii) : bool := inRange 97 122 c.
Definition isDigit (c : ascii) : bool := inRange 48 57 c.

Fixpoint mapChars (f : ascii -> ascii) (s : string) : string :=
  match s with
  | EmptyString => EmptyString
  | String c rest => String (f c) (mapChars f rest)
  end.

Definition lowerChar (c : ascii) : ascii :=
  if isUpper c then ascii_of_nat (nat_of_ascii c + 32) else c.

(** [s.toLowerCase()] on the letters A-Z.  The cased letters outside
    ASCII are left as they are; the sources lower file names only to
    compare what follows the last dot with names made of ASCII letters
    and digits, none of which holds the [k] that one of those letters, the
    Kelvin sign, is lowered to. *)
Definition toLowerCase (s : string) : string := mapChars lowerChar s.

(** [s.split(sep)] for a one-character separator: never the empty list. *)
Fixpoint split (sep : ascii) (s : string) : list string :=
  match s with
  | EmptyString => [EmptyString]
  | String c rest =>
      if Ascii.eqb c sep then EmptyString :: split sep rest
      else match split sep rest with
           | [] => [String c EmptyString]
           | seg :: segs => String c seg :: segs
           end
  end.

(** [arr.pop()]: the last element, [undefined] on the empty array. *)
Fixpoint pop (l : list string) : option string :=
  match l with
  | [] => None
  | [x] => Some x
  | _ :: rest => pop rest
  end.

(** [s.endsWith(c)] for a one-character argument. *)
Fixpoint endsWithChar (c : ascii) (s : string) : bool :=
  match s with
  | EmptyString => false
  | String d EmptyString => Ascii.eqb d c
  | String _ rest => endsWithChar c rest
  end.

(** [s.startsWith(p)]. *)
Fixpoint startsWith (p s : string) : bool :=
  match p, s with
  | EmptyString, _ => true
  | String a p', String b s' => Ascii.eqb a b && startsWith p' s'
  | String _ _, EmptyString => false
  end.

(** [s.includes(p)]. *)
Fixpoint includes (p s : string) : bool :=
  startsWith p s ||
  match s with
  | EmptyString => false
  | String _ s' => includes p s'
  end.

(** The bytes of [s] from the last to the first, put before [acc]. *)
Fixpoint revString (s acc : string) : string :=
  match s with
  | EmptyString => acc
  | String c rest => revString rest (String c acc)
  end.

(** [s.endsWith(p)]. *)
Definition endsWith (p s : string) : bool :=
  startsWith (revString p EmptyString) (revString s EmptyString).

(** A string given by its bytes. *)
Definition bytes (l : list Z) : string :=
  string_of_list_ascii (map (fun b => ascii_of_N (Z.to_N b)) l).

(** The characters that [trim] removes and that [\s] matches, the
    WhiteSpace and LineTerminator characters of ECMAScript, each as its
    UTF-8 bytes: U+0009 to U+000D, U+0020, U+00A0, U+1680, U+2000 to
    U+200A, U+2028, U+2029, U+202F, U+205F, U+3000 and U+FEFF. *)
Definition whiteSpace : list string :=
  [ bytes [9]; bytes [10]; bytes [11]; bytes [12]; bytes [13]; bytes [32];
    bytes [194; 160];
    bytes [225; 154; 128];
    bytes [226; 128; 128]; bytes [226; 128; 129]; bytes [226; 128; 130];
    bytes [226; 128; 131]; bytes [226; 128; 132]; bytes [226; 128; 133];
    bytes [226; 128; 134]; bytes [226; 128; 135]; bytes [226; 128; 136];
    bytes [226; 128; 137]; bytes [226; 128; 138];
    bytes [226; 128; 168]; bytes [226; 128; 169];
    bytes [226; 128; 175];
    bytes [226; 129; 159];
    bytes [227; 128; 128];
    bytes [239; 187; 191] ].

(** The same characters, the bytes of each read from the last. *)
Definition whiteSpaceReversed : list string :=
  map (fun w => revString w EmptyString) whiteSpace.

(** [s] without its prefix [p]; [None] when [s] does not start with [p]. *)
Fixpoint stripPrefix (p s : string) : option string :=
  match p, s with
  | EmptyString, _ => Some s
  | String a p', String b s' => if Ascii.eqb a b then stripPrefix p' s' else None
  | String _ _, EmptyString => None
  end.

(** [s] without the character of [chars] it starts with; [None] when it
    starts with none. *)
Fixpoint stripOne (chars : list string) (s : string) : option string :=
  match chars with
  | [] => None
  | w :: rest =>
      match stripPrefix w s with
      | Some r => Some r
      | None => stripOne rest s
      end
  end.

(** [s] without the characters of [chars] it starts with, one after the
    other; [n] bounds their number. *)
Fixpoint stripAll (chars : list string) (n : nat) (s : string) : string :=
  match n with
  | O => s
  | S n' =>
      match stripOne chars s with
      | Some r => stripAll chars n' r
      | None => s
      end
  end.

(** [s.trimStart()], and [s.replace(/^\s*/, "")]: a string holds at most
    as many characters as bytes. *)
Definition trimStart (s : string) : string :=
  stripAll whiteSpace (String.length s) s.

(** [s.trimEnd()] *)
Definition trimEnd (s : string) : string :=
  let r := revString s EmptyString in
  revString (stripAll whiteSpaceReversed (String.length r) r) EmptyString.

(** [s.trim()] *)
Definition trim (s : string) : string := trimEnd (trimStart s).

(** Template interpolation of a non-negative integer: its decimal digits. *)
Definition showNat (n : N) : string :=
  NilEmpty.string_of_uint (N.to_uint n).

(** The value of a byte. *)
Definition byte (c : ascii) : Z := Z.of_N (N_of_ascii c).

(** In UTF-8 a byte below 128 is a character of its own, a byte from 128
    to 191 continues the character begun before it, and a greater byte
    begins a character of two, three or, from 240 on, four bytes.  A
    character of four bytes is two UTF-16 code units, a surrogate pair;
    every other character is one. *)
Definition isContinuation (c : ascii) : bool := (128 <=? byte c) && (byte c <? 192).
Definition beginsFour (c : ascii) : bool := 240 <=? byte c.

(** The value of the byte at a place of the string, 0 past its end. *)
Definition byteAt (n : nat) (s : string) : Z :=
  match String.get n s with
  | Some c => byte c
  | None => 0
  end.

(** The six low bits of a continuation byte. *)
Definition low6 (b : Z) : Z := b mod 64.

(** The UTF-16 code units of a string: what the JS string it stands for
    is made of.  A byte that begins a character gives the code units of
    the character, read from that byte and the bytes that continue it. *)
Fixpoint codeUnits (s : string) : list Z :=
  match s with
  | EmptyString => []
  | String c rest =>
      let b := byte c in
      if b <? 128 then b :: codeUnits rest
      else if b <? 192 then codeUnits rest
      else if b <? 224 then
        ((b - 192) * 64 + low6 (byteAt 0 rest)) :: codeUnits rest
      else if b <? 240 then
        ((b - 224) * 4096 + low6 (byteAt 0 rest) * 64 + low6 (byteAt 1 rest))
        :: codeUnits rest
      else
        let point := (b - 240) * 262144 + low6 (byteAt 0 rest) * 4096
                     + low6 (byteAt 1 rest) * 64 + low6 (byteAt 2 rest) in
        (55296 + (point - 65536) / 1024) :: (56320 + (point - 65536) mod 1024)
        :: codeUnits rest
  end.

(** The bytes are well-formed UTF-8, [expect] continuation bytes being
    due: every character has the bytes its first byte announces and is
    written in its shortest form.  A surrogate on its own, which a JS
    string may hold, is let through as a character of three bytes. *)
Fixpoint utf8From (expect : nat) (s : string) : bool :=
  match s with
  | EmptyString => (expect =? 0)%nat
  | String c rest =>
      let b := byte c in
      match expect with
      | S k => isContinuation c && utf8From k rest
      | O =>
          if b <? 128 then utf8From 0 rest
          else if b <? 194 then false
          else if b <? 224 then utf8From 1 rest
          else if b <? 240 then
            ((224 <? b) || (160 <=? byteAt 0 rest)) && utf8From 2 rest
          else if b <? 245 then
            ((240 <? b) || (144 <=? byteAt 0 rest))
            && ((b <? 244) || (byteAt 0 rest <? 144))
            && utf8From 3 rest
          else false
      end
  end.

Definition wellFormed (s : string) : bool := utf8From 0 s.

(** The format of a JS number: IEEE 754 binary64. *)
Definition prec : Z := 53.
Definition emax : Z := 1024.

(** The double that holds an integer: the integer itself up to [2^53],
    the nearest double beyond. *)
Definition toDouble (z : Z) : spec_float := binary_normalize prec emax z 0 false.

(** [a / b] and [a * b] on doubles. *)
Definition divide (a b : spec_float) : spec_float := SFdiv prec emax a b.
Definition times (a b : spec_float) : spec_float := SFmul prec emax a b.

(** [Math.round(x)]: the integer nearest to [x], a tie going up.  The
    double [m * 2^e] is rounded exactly, as [floor(x + 1/2)].  An
    infinity is sent to an integer beyond every double, which
    [Math.min] and [Math.max] treat as they treat the infinity; NaN,
    which no quotient of two doubles holding integers gives unless the
    divisor is zero, is sent to 0. *)
Definition mathRound (x : spec_float) : Z :=
  match x with
  | S754_zero _ => 0
  | S754_finite s m e =>
      let v := if s then Z.neg m else Z.pos m in
      if 0 <=? e then v * 2 ^ e
      else (2 * v + 2 ^ (- e)) / 2 ^ (1 - e)
  | S754_infinity s => if s then - 2 ^ emax else 2 ^ emax
  | S754_nan => 0
  end.

End Js.

(* ================================================================== *)
(** * src/lib/r2/upload.ts *)
(* ================================================================== *)

Module R2Upload.

(** [const EXT_TO_MIME: Record<string, string>], own keys in source order. *)
Definition EXT_TO_MIME : list (string * string) :=
  [ ("mp4", "video/mp4");
    ("webm", "video/webm");
    ("ogg", "video/ogg");
    ("mov", "video/mp4");
    ("mp3", "audio/mpeg");
    ("wav", "audio/wav");
    ("png", "image/png");
    ("jpg", "image/jpeg");
    ("jpeg", "image/jpeg");
    ("gif", "image/gif");
    ("webp", "image/webp");
    ("pdf", "application/pdf") ].

(** What [table[key]] evaluates to when it is not [undefined]: a string
    of the table, or the value that [Object.prototype] holds under an
    inherited name, which is a function or, under [__proto__], the
    prototype itself: an object, truthy, and not a string. *)
Inductive Value :=
| Str (s : string)
| Inherited (name : string).

(** The property names that the table, an object literal, inherits from
    [Object.prototype]. *)
Definition inheritedNames : list string :=
  [ "constructor"; "__defineGetter__"; "__defineSetter__"; "hasOwnProperty";
    "__lookupGetter__"; "__lookupSetter__"; "isPrototypeOf";
    "propertyIsEnumerable"; "toString"; "valueOf"; "__proto__";
    "toLocaleString" ].

(** The own keys of the table. *)
Fixpoint lookupOwn (key : string) (table : list (string * string)) : option string :=
  match table with
  | [] => None
  | (k, v) :: rest => if String.eqb k key then Some v else lookupOwn key rest
  end.

(** [table[key]]: an own key first, then the prototype; [None] is
    [undefined]. *)
Definition lookup (key : string) (table : list (string * string)) : option Value :=
  match lookupOwn key table with
  | Some v => Some (Str v)
  | None => if existsb (String.eqb key) inheritedNames then Some (Inherited key) else None
  end.

(** [filename.toLowerCase().split(".").pop() || ""] *)
Definition extensionOf (filename : string) : string :=
  match Js.pop (Js.split "." (Js.toLowerCase filename)) with
  | Some e => Js.orElse e ""
  | None => ""
  end.

(** [guessContentType(filename, fallback)]:
    [return EXT_TO_MIME[ext] || fallback]. *)
Definition guessContentType (filename fallback : string) : Value :=
  match lookup (extensionOf filename) EXT_TO_MIME with
  | Some (Str mime) => Str (Js.orElse mime fallback)
  | Some (Inherited name) => Inherited name
  | None => Str fallback
  end.

(** The character class [[a-zA-Z0-9.-]] of the regular expression. *)
Definition inKeyClass (c : ascii) : bool :=
  Js.isLower c || Js.isUpper c || Js.isDigit c
  || Ascii.eqb c "."%char || Ascii.eqb c "-"%char.

(** [originalName.replace(/[^a-zA-Z0-9.-]/g, "_")].  The expression
    replaces one UTF-16 code unit at a time.  A character of the class is
    a single byte and is kept; any other character becomes one ["_"] for
    each of its code units, so the bytes that continue it give nothing
    more and a first byte of four gives two. *)
Fixpoint sanitizeFilename (originalName : string) : string :=
  match originalName with
  | EmptyString => EmptyString
  | String c rest =>
      if inKeyClass c then String c (sanitizeFilename rest)
      else if Js.isContinuation c then sanitizeFilename rest
      else if Js.beginsFour c
      then String "_" (String "_" (sanitizeFilename rest))
      else String "_" (sanitizeFilename rest)
  end.

(** [generateR2Key(originalName, folder?)]; [ts] is the value of
    [Date.now()] and [id] the value of [randomUUID()] at the call. *)
Definition generateR2Key (ts : N) (id : string)
    (originalName : string) (folder : option string) : string :=
  let safe := sanitizeFilename originalName in
  match folder with
  | Some f =>
      if Js.truthy f
      then f ++ "/" ++ Js.showNat ts ++ "-" ++ id ++ "-" ++ safe
      else Js.showNat ts ++ "-" ++ id ++ "-" ++ safe
  | None => Js.showNat ts ++ "-" ++ id ++ "-" ++ safe
  end.

(** [joinPublicUrl(publicBaseUrl, key)] *)
Definition joinPublicUrl (publicBaseUrl key : string) : string :=
  if negb (Js.truthy publicBaseUrl) then key
  else if Js.endsWithChar "/" publicBaseUrl
       then publicBaseUrl ++ key
       else publicBaseUrl ++ "/" ++ key.

End R2Upload.

(* ================================================================== *)
(** * The R2 configuration module (second part of src/lib/r2/upload.ts) *)
(* ================================================================== *)

Module R2Config.

(** [process.env]: a name is bound to a string or not at all. *)
Definition Env := string -> option string.

(** [process.env.X ?? ""] *)
Definition orEmpty (o : option string) : string :=
  match o with
  | Some s => s
  | None => ""
  end.

Definition R2_BUCKET_NAME (env : Env) : string := orEmpty (env "R2_BUCKET_NAME").
Definition R2_PUBLIC_URL (env : Env) : string := orEmpty (env "R2_PUBLIC_URL").

(** [warnIfMissing(name)]: one [console.warn] line when the variable is
    unset or empty; the console is the list of lines written so far. *)
Definition warnIfMissing (env : Env) (name : string) (console : list string)
  : list string :=
  if negb (Js.truthyOpt (env name))
  then console ++ ["[R2] " ++ name ++ " is not set in environment variables"]
  else console.

(** The five calls at the end of the module, in source order.  Loading
    the module writes warnings and never throws. *)
Definition loadModule (env : Env) : list string :=
  warnIfMissing env "R2_ACCOUNT_ID"
    (warnIfMissing env "R2_PUBLIC_URL"
      (warnIfMissing env "R2_BUCKET_NAME"
        (warnIfMissing env "R2_SECRET_ACCESS_KEY"
          (warnIfMissing env "R2_ACCESS_KEY_ID" [])))).

End R2Config.

(* ================================================================== *)
(** * The upload route: [POST] of src/unnamed/part_003 *)
(* ================================================================== *)

Module UploadRoute.

Record File := mkFile {
  file_name : string;
  file_type : string;
  file_size : Z
}.

(** A value of [formData.get(...)]: a string or a file ([None] is null). *)
Inductive FormEntry :=
| EntryString (s : string)
| EntryFile (f : File).

(** The argument of an [httpUploadProgress] callback. *)
Record ProgressInfo := mkProgressInfo {
  pi_loaded : option Z;
  pi_total : option Z
}.

(** How [upload.done()] settles. *)
Inductive Outcome :=
| Resolved
| Rejected (message : option string).

(** One run of the uploader: the progress callbacks it fires, in order,
    while [done()] is pending, and then how [done()] settles. *)
Record UploadRun := mkUploadRun {
  run_callbacks : list ProgressInfo;
  run_outcome : Outcome
}.

(** The options given to [new Upload({...})]. *)
Record UploadParams := mkUploadParams {
  up_Bucket : string;
  up_Key : string;
  up_ContentType : R2Upload.Value;
  up_CacheControl : string;
  up_queueSize : Z;
  up_partSize : option Z
}.

(** The object store: what a run with given options does. *)
Definition Store := UploadParams -> UploadRun.

(** The object given to [JSON.stringify] for one [data: ...] line. *)
Inductive Event :=
| Progress (progress loaded total : Z)
| Done (key url name : string) (contentType : R2Upload.Value) (size : Z)
| Error (error : string).

(** The stream controller: what was enqueued, and whether it was closed. *)
Record Controller := mkController {
  queue : list Event;
  closed : bool
}.

Definition freshController : Controller := mkController [] false.

Definition invalidState : string := "Invalid state: Controller is already closed".

(** [controller.enqueue(e)]; [None] when it throws (closed controller). *)
Definition enqueue (e : Event) (c : Controller) : option Controller :=
  if closed c then None else Some (mkController (queue c ++ [e]) false).

(** [controller.close()]; [None] when it throws (closed controller). *)
Definition close (c : Controller) : option Controller :=
  if closed c then None else Some (mkController (queue c) true).

(** [Math.round((loaded / total) * 100)], the quotient and the product
    being those of doubles. *)
Definition roundPercent (loaded total : Z) : Z :=
  Js.mathRound
    (Js.times (Js.divide (Js.toDouble loaded) (Js.toDouble total)) (Js.toDouble 100)).

(** [a ?? b] on numbers. *)
Definition nullish (a : option Z) (b : Z) : Z :=
  match a with
  | Some x => x
  | None => b
  end.

(** State of the upload while [done()] is pending: the closure variable
    [lastPercent], the controller, and the exception a listener threw. *)
Record Pending := mkPending {
  lastPercent : Z;
  ctrl : Controller;
  thrown : option string
}.

(** The body of the [httpUploadProgress] listener. *)
Definition onProgress (fileSize : Z) (p : ProgressInfo) (st : Pending) : Pending :=
  let loaded := nullish (pi_loaded p) 0 in
  let total := nullish (pi_total p) fileSize in
  if total =? 0 then st
  else
    let raw := roundPercent loaded total in
    let percent := Z.max 0 (Z.min 99 raw) in
    if percent <=? lastPercent st then st
    else
      match enqueue (Progress percent loaded total) (ctrl st) with
      | Some c => mkPending percent c None
      | None => mkPending percent (ctrl st) (Some invalidState)
      end.

(** The callbacks fire in order; a listener that throws makes the run
    fail at once with the thrown error. *)
Fixpoint fire (fileSize : Z) (ps : list ProgressInfo) (st : Pending) : Pending :=
  match ps with
  | [] => st
  | p :: rest =>
      let st' := onProgress fileSize p st in
      match thrown st' with
      | Some _ => st'
      | None => fire fileSize rest st'
      end
  end.

(** How a block of statements ends. *)
Inductive Completion :=
| Normal
| Throw (message : option string).

(** What the route computed before it builds the stream. *)
Record Prepared := mkPrepared {
  pr_file : File;
  pr_key : string;
  pr_contentType : R2Upload.Value
}.

Definition uploadParams (bucket : string) (pr : Prepared) : UploadParams :=
  let size := file_size (pr_file pr) in
  mkUploadParams bucket (pr_key pr) (pr_contentType pr)
    "public, max-age=31536000, immutable" 1
    (if 5 * 1024 * 1024 <? size then Some (5 * 1024 * 1024) else None).

(** The [try] block of [start(controller)]. *)
Definition tryBlock (env : R2Config.Env) (store : Store) (pr : Prepared)
    (c : Controller) : Controller * Completion :=
  if negb (Js.truthy (R2Config.R2_BUCKET_NAME env))
  then (c, Throw (Some "R2_BUCKET_NAME is not set"))
  else
    let run := store (uploadParams (R2Config.R2_BUCKET_NAME env) pr) in
    let st := fire (file_size (pr_file pr)) (run_callbacks run) (mkPending 0 c None) in
    match thrown st with
    | Some m => (ctrl st, Throw (Some m))
    | None =>
        match run_outcome run with
        | Rejected m => (ctrl st, Throw m)
        | Resolved =>
            let done :=
              Done (pr_key pr)
                   (R2Upload.joinPublicUrl (R2Config.R2_PUBLIC_URL env) (pr_key pr))
                   (file_name (pr_file pr))
                   (pr_contentType pr)
                   (file_size (pr_file pr)) in
            match enqueue done (ctrl st) with
            | None => (ctrl st, Throw (Some invalidState))
            | Some c1 =>
                match close c1 with
                | None => (c1, Throw (Some invalidState))
                | Some c2 => (c2, Normal)
                end
            end
        end
    end.

(** [err?.message || "Failed to upload file"] *)
Definition errorMessage (message : option string) : string :=
  match message with
  | Some m => Js.orElse m "Failed to upload file"
  | None => "Failed to upload file"
  end.

(** [start(controller)]: the [try] block and its [catch]. *)
Definition start (env : R2Config.Env) (store : Store) (pr : Prepared)
    (c : Controller) : Controller * Completion :=
  match tryBlock env store pr c with
  | (c', Normal) => (c', Normal)
  | (c', Throw m) =>
      match enqueue (Error (errorMessage m)) c' with
      | None => (c', Throw (Some invalidState))
      | Some c1 =>
          match close c1 with
          | None => (c1, Throw (Some invalidState))
          | Some c2 => (c2, Normal)
          end
      end
  end.

(** The content type the route settles on:
    [file.type && file.type !== "application/octet-stream"
       ? file.type : guessContentType(file.name, "application/octet-stream")] *)
Definition contentTypeOf (file : File) : R2Upload.Value :=
  if Js.truthy (file_type file)
     && negb (String.eqb (file_type file) "application/octet-stream")
  then R2Upload.Str (file_type file)
  else R2Upload.guessContentType (file_name file) "application/octet-stream".

(** [typeof folder === "string" && folder.trim() ? folder.trim() : undefined] *)
Definition resolveFolder (folder : option FormEntry) : option string :=
  match folder with
  | Some (EntryString s) => if Js.truthy (Js.trim s) then Some (Js.trim s) else None
  | _ => None
  end.

Inductive Response :=
| Json (status : Z) (error : string)
| EventStream (c : Controller) (completion : Completion).

(** [POST(req)]; [session] is [session?.user?.id], [ts] and [id] are the
    clock and the random identifier read by [generateR2Key]. *)
Definition POST (env : R2Config.Env) (store : Store) (ts : N) (id : string)
    (session : option string) (file folder : option FormEntry) : Response :=
  if negb (Js.truthyOpt session) then Json 401 "Unauthorized"
  else
    match file with
    | Some (EntryFile f) =>
        let key := R2Upload.generateR2Key ts id (file_name f) (resolveFolder folder) in
        let pr := mkPrepared f key (contentTypeOf f) in
        let (c, k) := start env store pr freshController in
        EventStream c k
    | _ => Json 400 "Missing file"
    end.

End UploadRoute.

(* ================================================================== *)
(** * The data the course routes read *)
(* ================================================================== *)

Module Lms.

Record Purchase := mkPurchase {
  pu_userId : string;
  pu_status : string
}.

(** A course row with its [purchases] relation; [price] may be null. *)
Record Course := mkCourse {
  co_id : string;
  co_price : option Z;
  co_isPublished : bool;
  co_purchases : list Purchase
}.

Record QuizResult := mkQuizResult {
  qr_studentId : string;
  qr_quizId : string;
  qr_percentage : Z;
  qr_submittedAt : Z
}.

Record Quiz := mkQuiz {
  qz_id : string;
  qz_courseId : string;
  qz_title : string;
  qz_position : Z;
  qz_isPublished : bool
}.

Record Chapter := mkChapter {
  ch_id : string;
  ch_courseId : string;
  ch_position : Z;
  ch_isFree : bool;
  ch_isPublished : bool;
  ch_studyTypes : list string;
  ch_requirePassingQuiz : bool;
  ch_requiredQuizId : option string
}.

Record User := mkUser {
  us_id : string;
  us_studyType : option string
}.

(** The tables behind [db]. *)
Record Db := mkDb {
  courses : list Course;
  chapters : list Chapter;
  quizzes : list Quiz;
  quizResults : list QuizResult;
  users : list User
}.

(** Stable sort by an integer key, ascending: the order of
    [orderBy: { k: "asc" }] and of [.sort((a, b) => a.k - b.k)]. *)
Fixpoint insertBy {A : Type} (key : A -> Z) (x : A) (l : list A) : list A :=
  match l with
  | [] => [x]
  | y :: rest => if key x <=? key y then x :: l else y :: insertBy key x rest
  end.

Fixpoint sortBy {A : Type} (key : A -> Z) (l : list A) : list A :=
  match l with
  | [] => []
  | x :: rest => insertBy key x (sortBy key rest)
  end.

(** [db.course.findFirst / findUnique({ where: { id, isPublished: true } })] *)
Definition findPublishedCourse (db : Db) (courseId : string) : option Course :=
  find (fun c => String.eqb (co_id c) courseId && co_isPublished c) (courses db).

(** The relation filter [purchases: { where: { userId } }]. *)
Definition purchasesOf (userId : string) (c : Course) : list Purchase :=
  filter (fun p => String.eqb (pu_userId p) userId) (co_purchases c).

(** The relation filter [purchases: { where: { userId, status: "ACTIVE" } }]. *)
Definition activePurchasesOf (userId : string) (c : Course) : list Purchase :=
  filter (fun p => String.eqb (pu_userId p) userId && String.eqb (pu_status p) "ACTIVE")
         (co_purchases c).

(** [course.price === 0 || course.purchases.length > 0], the purchases
    being the ACTIVE purchases of the user. *)
Definition courseAccess (userId : string) (c : Course) : bool :=
  match co_price c with
  | Some p => (p =? 0) || (0 <? Z.of_nat (List.length (activePurchasesOf userId c)))
  | None => (0 <? Z.of_nat (List.length (activePurchasesOf userId c)))
  end.

(** Published chapters of a course, [orderBy: { position: "asc" }]. *)
Definition publishedChapters (db : Db) (courseId : string) : list Chapter :=
  sortBy ch_position
    (filter (fun c => String.eqb (ch_courseId c) courseId && ch_isPublished c)
            (chapters db)).

(** Published quizzes of a course, [orderBy: { position: "asc" }]. *)
Definition publishedQuizzes (db : Db) (courseId : string) : list Quiz :=
  sortBy qz_position
    (filter (fun q => String.eqb (qz_courseId q) courseId && qz_isPublished q)
            (quizzes db)).

(** The results of one student for one quiz, in table order. *)
Definition resultsOf (db : Db) (userId quizId : string) : list QuizResult :=
  filter (fun r => String.eqb (qr_quizId r) quizId && String.eqb (qr_studentId r) userId)
         (quizResults db).

(** [where: { quizId, studentId }, select: { percentage },
     orderBy: { submittedAt: "desc" }, take: 1] *)
Definition latestResult (db : Db) (userId quizId : string) : list Z :=
  map qr_percentage
      (firstn 1 (sortBy (fun r => - qr_submittedAt r) (resultsOf db userId quizId))).

(** [quizResults: { where: { studentId }, select: { percentage, ... } }] *)
Definition allResults (db : Db) (userId quizId : string) : list Z :=
  map qr_percentage (resultsOf db userId quizId).

(** The relation [chapter.requiredQuiz]. *)
Definition requiredQuizOf (db : Db) (c : Chapter) : option Quiz :=
  match ch_requiredQuizId c with
  | Some qid => find (fun q => String.eqb (qz_id q) qid) (quizzes db)
  | None => None
  end.

(** A required quiz as attached to a fetched chapter; [rq_quizResults]
    is [None] when the results were not attached. *)
Record RequiredQuiz := mkRequiredQuiz {
  rq_quiz : Quiz;
  rq_quizResults : option (list Z)
}.

Record ChapterItem := mkChapterItem {
  ci_chapter : Chapter;
  ci_requiredQuiz : option RequiredQuiz
}.

(** A fetched quiz; [qi_quizResults] holds the selected percentages and is
    [None] when the relation was not included. *)
Record QuizItem := mkQuizItem {
  qi_quiz : Quiz;
  qi_quizResults : option (list Z)
}.

(** An element of the merged catalog: [type: 'chapter' | 'quiz']. *)
Inductive Content :=
| CChapter (c : ChapterItem)
| CQuiz (q : QuizItem).

Definition contentId (c : Content) : string :=
  match c with
  | CChapter ci => ch_id (ci_chapter ci)
  | CQuiz qi => qz_id (qi_quiz qi)
  end.

Definition contentPosition (c : Content) : Z :=
  match c with
  | CChapter ci => ch_position (ci_chapter ci)
  | CQuiz qi => qz_position (qi_quiz qi)
  end.

(** [[...chapters.map(...), ...quizzes.map(...)].sort((a, b) => a.position - b.position)] *)
Definition mergeContent (cs : list ChapterItem) (qs : list QuizItem) : list Content :=
  sortBy contentPosition (map CChapter cs ++ map CQuiz qs).

(** [quizResults.reduce((best, current) =>
       current.percentage > best.percentage ? current : best).percentage]
    on a non-empty array whose first element is [first]. *)
Definition bestPercentage (first : Z) (rest : list Z) : Z :=
  fold_left (fun best current => if best <? current then current else best) rest first.

(** The test made on the nearest preceding quiz: [true] when it locks. *)
Definition notPassed (quizResults : list Z) : bool :=
  match quizResults with
  | [] => true
  | first :: rest => bestPercentage first rest <? 50
  end.

(** [prevQuiz.quizResults || []] *)
Definition orEmptyResults (r : option (list Z)) : list Z :=
  match r with
  | Some l => l
  | None => []
  end.

(** The loop [for (let i = index - 1; i >= 0; i--)]: [count] is [i + 1].
    It answers at the first quiz it meets, with the title of that quiz
    when the quiz locks, and passes over everything else. *)
Fixpoint scanBack (all : list Content) (count : nat) : option string :=
  match count with
  | O => None
  | S i =>
      match nth_error all i with
      | Some (CQuiz prevQuiz) =>
          if notPassed (orEmptyResults (qi_quizResults prevQuiz))
          then Some (qz_title (qi_quiz prevQuiz))
          else None
      | _ => scanBack all i
      end
  end.

(** The lock reasons of the content route. *)
Definition dquote : string := String (ascii_of_nat 34) EmptyString.

Definition mustPurchaseCourse : string := "يجب شراء الكورس أولاً".

Definition mustPassRequiredQuiz : string :=
  "يجب اجتياز الاختبار المطلوب بنسبة 50% على الأقل".

Definition mustPassQuiz (title : string) : string :=
  "يجب اجتياز الاختبار " ++ dquote ++ title ++ dquote
  ++ " بنسبة 50% على الأقل أولاً".

(** [arr.map((x, index) => ...)] *)
Fixpoint mapiFrom {A B : Type} (f : A -> nat -> B) (start : nat) (l : list A) : list B :=
  match l with
  | [] => []
  | x :: rest => f x start :: mapiFrom f (S start) rest
  end.

Definition mapi {A B : Type} (f : A -> nat -> B) (l : list A) : list B :=
  mapiFrom f 0%nat l.

(** [arr.findIndex(p)], [None] for -1. *)
Fixpoint findIndexFrom {A : Type} (p : A -> bool) (start : nat) (l : list A) : option nat :=
  match l with
  | [] => None
  | x :: rest => if p x then Some start else findIndexFrom p (S start) rest
  end.

Definition findIndex {A : Type} (p : A -> bool) (l : list A) : option nat :=
  findIndexFrom p 0%nat l.

End Lms.

(* ================================================================== *)
(** * The course access route: second [GET] of
      src/app/api/teacher/users/[userId]/progress/route.ts (lines 120-170) *)
(* ================================================================== *)

Module AccessRoute.
Import Lms.

Inductive Response :=
| Status (code : Z) (body : string)
| AccessJson (hasAccess hasPurchase : bool).

(** [course.purchases.some(purchase => purchase.status === "ACTIVE")],
    the purchases being those of the user. *)
Definition validPurchase (userId : string) (course : Course) : bool :=
  existsb (fun purchase => String.eqb (pu_status purchase) "ACTIVE")
          (purchasesOf userId course).

Definition GET (db : Db) (userId : option string) (courseId : string) : Response :=
  match userId with
  | Some u =>
      if negb (Js.truthy u) then Status 401 "Unauthorized"
      else
        match findPublishedCourse db courseId with
        | None => Status 404 "Not found"
        | Some course =>
            AccessJson (validPurchase u course) (validPurchase u course)
        end
  | None => Status 401 "Unauthorized"
  end.

End AccessRoute.

(* ================================================================== *)
(** * The course content route: fourth [GET] of
      src/app/api/teacher/users/[userId]/progress/route.ts (lines 272-497) *)
(* ================================================================== *)

Module ContentRoute.
Import Lms.

(** [hasAccess], false until a signed-in user and a published course are
    found. *)
Definition hasAccessOf (db : Db) (userId : option string) (courseId : string) : bool :=
  match userId with
  | Some u =>
      if Js.truthy u then
        match findPublishedCourse db courseId with
        | Some course => courseAccess u course
        | None => false
        end
      else false
  | None => false
  end.

(** The user of the queries guarded by [hasAccess && userId]. *)
Definition queryUser (hasAccess : bool) (userId : option string) : option string :=
  match userId with
  | Some u => if hasAccess && Js.truthy u then Some u else None
  | None => None
  end.

(** Chapters with [requiredQuiz] (and its latest result) included only
    under [hasAccess && userId]. *)
Definition fetchChapters (db : Db) (hasAccess : bool) (userId : option string)
    (courseId : string) : list ChapterItem :=
  map (fun c =>
         mkChapterItem c
           match queryUser hasAccess userId with
           | Some u =>
               match requiredQuizOf db c with
               | Some q => Some (mkRequiredQuiz q (Some (latestResult db u (qz_id q))))
               | None => None
               end
           | None => None
           end)
      (publishedChapters db courseId).

(** Quizzes with [quizResults] included only under [hasAccess && userId]. *)
Definition fetchQuizzes (db : Db) (hasAccess : bool) (userId : option string)
    (courseId : string) : list QuizItem :=
  map (fun q =>
         mkQuizItem q
           match queryUser hasAccess userId with
           | Some u => if hasAccess then Some (allResults db u (qz_id q)) else None
           | None => None
           end)
      (publishedQuizzes db courseId).

(** An element of the response: the item with its two annotations. *)
Record Annotated := mkAnnotated {
  an_content : Content;
  an_isLocked : bool;
  an_lockReason : option string
}.

(** [chapter.requiredQuiz?.quizResults?.[0]] *)
Definition firstRequiredResult (chapter : ChapterItem) : option Z :=
  match ci_requiredQuiz chapter with
  | Some rq =>
      match rq_quizResults rq with
      | Some (r :: _) => Some r
      | _ => None
      end
  | None => None
  end.

(** The explicit quiz requirement of a chapter (lines 396-407), from the
    initial state [isLocked = false], [lockReason = null]. *)
Definition requiredQuizStep (hasAccess signedIn : bool) (chapter : ChapterItem)
  : bool * option string :=
  if ch_requirePassingQuiz (ci_chapter chapter)
     && Js.truthyOpt (ch_requiredQuizId (ci_chapter chapter))
  then
    if negb hasAccess || negb signedIn
    then (true, Some mustPurchaseCourse)
    else
      match firstRequiredResult chapter with
      | None => (true, Some mustPassRequiredQuiz)
      | Some percentage =>
          if percentage <? 50 then (true, Some mustPassRequiredQuiz)
          else (false, None)
      end
  else (false, None).

(** The sequential check (lines 410-440 and 452-482), run from the state
    [st] under the guard [guard]. *)
Definition sequentialStep (guard : bool) (all : list Content) (index : nat)
    (st : bool * option string) : bool * option string :=
  if guard then
    match scanBack all index with
    | Some title => (true, Some (mustPassQuiz title))
    | None => st
    end
  else st.

(** The callback of [allContentUnsorted.map((content, index) => ...)]. *)
Definition annotate (hasAccess signedIn : bool) (all : list Content)
    (content : Content) (index : nat) : Annotated :=
  match content with
  | CChapter chapter =>
      let st1 := requiredQuizStep hasAccess signedIn chapter in
      let st2 := sequentialStep (negb (fst st1) && hasAccess && signedIn) all index st1 in
      mkAnnotated content (fst st2) (snd st2)
  | CQuiz quiz =>
      let st := sequentialStep (hasAccess && signedIn) all index (false, None) in
      mkAnnotated content (fst st) (snd st)
  end.

(** The response computed from the merged catalog. *)
Definition annotateAll (hasAccess signedIn : bool) (all : list Content) : list Annotated :=
  mapi (annotate hasAccess signedIn all) all.

Definition GET (db : Db) (userId : option string) (courseId : string) : list Annotated :=
  let hasAccess := hasAccessOf db userId courseId in
  let cs := fetchChapters db hasAccess userId courseId in
  let qs := fetchQuizzes db hasAccess userId courseId in
  annotateAll hasAccess (Js.truthyOpt userId) (mergeContent cs qs).

End ContentRoute.

(* ================================================================== *)
(** * The first-content route: [GET] of src/unnamed/part_001 *)
(* ================================================================== *)

Module FirstContentRoute.
Import Lms.

Inductive Response :=
| Status (code : Z) (body : string)
| FirstJson (id : option string) (type : option string).

(** Chapters with [requiredQuiz]; the latest result is attached under
    [hasAccess && userId] to the chapters that name a required quiz
    (lines 59-81). *)
Definition fetchChapters (db : Db) (hasAccess : bool) (userId : string)
    (courseId : string) : list ChapterItem :=
  map (fun c =>
         let included :=
           match requiredQuizOf db c with
           | Some q => Some (mkRequiredQuiz q None)
           | None => None
           end in
         mkChapterItem c
           (if hasAccess && Js.truthy userId && Js.truthyOpt (ch_requiredQuizId c)
            then
              match ch_requiredQuizId c, included with
              | Some qid, Some rq =>
                  Some (mkRequiredQuiz (rq_quiz rq) (Some (latestResult db userId qid)))
              | _, _ => None
              end
            else included))
      (publishedChapters db courseId).

Definition fetchQuizzes (db : Db) (hasAccess : bool) (userId : string)
    (courseId : string) : list QuizItem :=
  map (fun q =>
         mkQuizItem q
           (if hasAccess && Js.truthy userId
            then Some (allResults db userId (qz_id q))
            else None))
      (publishedQuizzes db courseId).

(** [user?.studyType || null] under [hasAccess && userId]. *)
Definition userStudyTypeOf (db : Db) (hasAccess : bool) (userId : string) : option string :=
  if hasAccess && Js.truthy userId then
    match find (fun u => String.eqb (us_id u) userId) (users db) with
    | Some user => if Js.truthyOpt (us_studyType user) then us_studyType user else None
    | None => None
    end
  else None.

Definition onlineSpaced : string := "أون لاين".
Definition onlineJoined : string := "أونلاين".
Definition center : string := "سنتر".

(** [chapterStudyTypes.some(...)] of lines 181-186. *)
Definition hasMatchingStudyType (studyTypes : list string) (userStudyType : string) : bool :=
  let normalizedUserStudyType := Js.trim userStudyType in
  existsb (fun chapterStudyType =>
             String.eqb chapterStudyType normalizedUserStudyType
             || (Js.includes onlineSpaced chapterStudyType
                 && Js.includes onlineSpaced normalizedUserStudyType)
             || (Js.includes onlineJoined chapterStudyType
                 && Js.includes onlineJoined normalizedUserStudyType)
             || (Js.includes center chapterStudyType
                 && Js.includes center normalizedUserStudyType))
          (map Js.trim studyTypes).

(** [allContentUnsorted.findIndex(c => c.id === id)], then the loop from
    [currentIndex - 1] down to 0; nothing is scanned when the index is -1. *)
Definition sequentialLocked (all : list Content) (id : string) : bool :=
  match findIndex (fun c => String.eqb (contentId c) id) all with
  | Some currentIndex =>
      match scanBack all currentIndex with
      | Some _ => true
      | None => false
      end
  | None => false
  end.

(** The quiz branch of the loop body (lines 131-170): [true] when the
    quiz is returned. *)
Definition quizAccessible (hasAccess signedIn : bool) (all : list Content)
    (quiz : QuizItem) : bool :=
  let isLocked :=
    if hasAccess && signedIn then sequentialLocked all (qz_id (qi_quiz quiz))
    else false in
  hasAccess && negb isLocked.

(** The study type check of a chapter (lines 177-191). *)
Definition studyTypeLocked (hasAccess signedIn : bool) (userStudyType : option string)
    (chapter : ChapterItem) : bool :=
  match userStudyType with
  | Some ust =>
      if hasAccess && signedIn && Js.truthy ust
         && (0 <? Z.of_nat (List.length (ch_studyTypes (ci_chapter chapter))))
      then negb (hasMatchingStudyType (ch_studyTypes (ci_chapter chapter)) ust)
      else false
  | None => false
  end.

(** The explicit quiz requirement of a chapter (lines 194-203), entered
    with [isLocked] as left by the study type check. *)
Definition requiredQuizLocked (hasAccess signedIn : bool) (isLocked : bool)
    (chapter : ChapterItem) : bool :=
  if negb isLocked
     && ch_requirePassingQuiz (ci_chapter chapter)
     && Js.truthyOpt (ch_requiredQuizId (ci_chapter chapter))
  then
    if negb hasAccess || negb signedIn then true
    else
      match ContentRoute.firstRequiredResult chapter with
      | None => true
      | Some percentage => if percentage <? 50 then true else isLocked
      end
  else isLocked.

(** The chapter branch of the loop body (lines 171-240): [true] when the
    chapter is returned. *)
Definition chapterAccessible (hasAccess signedIn : bool) (userStudyType : option string)
    (all : list Content) (chapter : ChapterItem) : bool :=
  let l1 := studyTypeLocked hasAccess signedIn userStudyType chapter in
  let l2 := requiredQuizLocked hasAccess signedIn l1 chapter in
  let l3 :=
    if negb l2 && hasAccess && signedIn
    then sequentialLocked all (ch_id (ci_chapter chapter)) || l2
    else l2 in
  negb l3 && (hasAccess || ch_isFree (ci_chapter chapter)).

(** [for (const content of allContentUnsorted)]: the first item returned. *)
Fixpoint firstAccessible (hasAccess signedIn : bool) (userStudyType : option string)
    (all rest : list Content) : Response :=
  match rest with
  | [] => FirstJson None None
  | CQuiz quiz :: rest' =>
      if quizAccessible hasAccess signedIn all quiz
      then FirstJson (Some (qz_id (qi_quiz quiz))) (Some "quiz")
      else firstAccessible hasAccess signedIn userStudyType all rest'
  | CChapter chapter :: rest' =>
      if chapterAccessible hasAccess signedIn userStudyType all chapter
      then FirstJson (Some (ch_id (ci_chapter chapter))) (Some "chapter")
      else firstAccessible hasAccess signedIn userStudyType all rest'
  end.

Definition GET (db : Db) (userId : option string) (courseId : string) : Response :=
  match userId with
  | Some u =>
      if negb (Js.truthy u) then Status 401 "Unauthorized"
      else
        match findPublishedCourse db courseId with
        | None => Status 404 "Course not found"
        | Some course =>
            let hasAccess := courseAccess u course in
            let cs := fetchChapters db hasAccess u courseId in
            let qs := fetchQuizzes db hasAccess u courseId in
            let userStudyType := userStudyTypeOf db hasAccess u in
            let all := mergeContent cs qs in
            firstAccessible hasAccess (Js.truthy u) userStudyType all all
        end
  | None => Status 401 "Unauthorized"
  end.

End FirstContentRoute.

(* ================================================================== *)
(** * Predicates used to state the properties *)
(* ================================================================== *)

Module Props.
Import UploadRoute.

(** The [progress] fields of the progress events of a stream, in order. *)
Fixpoint progressValues (q : list Event) : list Z :=
  match q with
  | [] => []
  | Progress p _ _ :: rest => p :: progressValues rest
  | _ :: rest => progressValues rest
  end.

Definition isProgress (e : Event) : Prop :=
  match e with
  | Progress _ _ _ => True
  | _ => False
  end.

Definition isTerminal (e : Event) : Prop :=
  match e with
  | Progress _ _ _ => False
  | Done _ _ _ _ _ => True
  | Error _ => True
  end.

(** Consecutive elements strictly increase. *)
Fixpoint strictlyIncreasing (l : list Z) : Prop :=
  match l with
  | a :: (b :: _) as rest => a < b /\ strictlyIncreasing rest
  | _ => True
  end.

(** The percentage a progress callback stands for, after clamping. *)
Definition clampedPercent (loaded total : Z) : Z :=
  Z.max 0 (Z.min 99 (roundPercent loaded total)).

(** What holds of the pending upload between two callbacks. *)
Record PendingInv (st : Pending) : Prop := mkPendingInv {
  inv_not_thrown : thrown st = None;
  inv_open : closed (ctrl st) = false;
  inv_progress_only : Forall isProgress (queue (ctrl st));
  inv_increasing : strictlyIncreasing (progressValues (queue (ctrl st)));
  inv_below_last : Forall (fun p => p <= lastPercent st) (progressValues (queue (ctrl st)));
  inv_bounds : Forall (fun p => 1 <= p <= 99) (progressValues (queue (ctrl st)));
  inv_last_bounds : 0 <= lastPercent st <= 99
}.

(** The terminal event the route sends for a settled run. *)
Definition terminalOf (env : R2Config.Env) (pr : Prepared) (o : Outcome) : Event :=
  match o with
  | Resolved =>
      Done (pr_key pr)
           (R2Upload.joinPublicUrl (R2Config.R2_PUBLIC_URL env) (pr_key pr))
           (file_name (pr_file pr))
           (pr_contentType pr)
           (file_size (pr_file pr))
  | Rejected m => Error (errorMessage m)
  end.

(** The pending upload once the store has fired all its callbacks. *)
Definition afterCallbacks (env : R2Config.Env) (store : Store) (pr : Prepared) : Pending :=
  fire (file_size (pr_file pr))
       (run_callbacks (store (uploadParams (R2Config.R2_BUCKET_NAME env) pr)))
       (mkPending 0 freshController None).

(** A stream that is closed and made of progress events followed by
    exactly one terminal event, which comes last. *)
Definition wellTerminated (c : Controller) : Prop :=
  closed c = true
  /\ exists (progressEvents : list Event) (terminal : Event),
       queue c = (progressEvents ++ [terminal])%list
       /\ Forall isProgress progressEvents
       /\ isTerminal terminal.

(** The characters [A-Za-z0-9.-], one by one. *)
Definition keyChars : list ascii :=
  list_ascii_of_string
    "ABCDEFGHIJKLMNOPQRSTUVWXYZabcdefghijklmnopqrstuvwxyz0123456789.-".

Definition KeyChar (c : ascii) : Prop := In c keyChars.

(** The same characters as UTF-16 code units. *)
Definition keyUnits : list Z := map Js.byte keyChars.

(** What the replacement makes of one code unit: a code unit of
    [A-Za-z0-9.-] is kept, any other becomes the code unit of [_]. *)
Definition sanitizeUnit (u : Z) : Z :=
  if existsb (Z.eqb u) keyUnits then u else 95.

(** The [{folder/}] part of a key. *)
Definition folderPrefix (folder : option string) : string :=
  match folder with
  | Some (String c f) => String c f ++ "/"
  | _ => ""
  end.

(** The environment variables the configuration module warns about. *)
Definition warnedNames : list string :=
  ["R2_ACCESS_KEY_ID"; "R2_SECRET_ACCESS_KEY"; "R2_BUCKET_NAME";
   "R2_PUBLIC_URL"; "R2_ACCOUNT_ID"].

Definition warningFor (name : string) : string :=
  "[R2] " ++ name ++ " is not set in environment variables".

(** The best result of a learner: the greatest percentage among all
    their results for a quiz. *)
Definition isBest (b : Z) (results : list Z) : Prop :=
  In b results /\ Forall (fun r => r <= b) results.

(** A quiz is not passed: no result, or a best percentage below 50. *)
Definition NotPassed (results : list Z) : Prop :=
  results = [] \/ exists b : Z, isBest b results /\ b < 50.

(** [j] is the position of the nearest quiz before [index]. *)
Definition nearestPrecedingQuiz (all : list Lms.Content) (index j : nat)
    (q : Lms.QuizItem) : Prop :=
  (j < index)%nat
  /\ nth_error all j = Some (Lms.CQuiz q)
  /\ forall (k : nat) (q' : Lms.QuizItem),
       (j < k < index)%nat -> nth_error all k <> Some (Lms.CQuiz q').

(** The sequential rule, read on the results that the items carry. *)
Definition LockedByNearestQuiz (all : list Lms.Content) (index : nat) : Prop :=
  exists (j : nat) (q : Lms.QuizItem),
    nearestPrecedingQuiz all index j q
    /\ NotPassed (Lms.orEmptyResults (Lms.qi_quizResults q)).

(** A row of the results table that is a result of the learner for the
    quiz. *)
Definition resultOf (db : Lms.Db) (userId quizId : string) (r : Lms.QuizResult) : Prop :=
  In r (Lms.quizResults db)
  /\ Lms.qr_studentId r = userId
  /\ Lms.qr_quizId r = quizId.

(** The learner has not passed the quiz: the table holds no result of
    theirs for it, or the best of their results is below 50. *)
Definition NotPassedBy (db : Lms.Db) (userId quizId : string) : Prop :=
  (forall r : Lms.QuizResult, ~ resultOf db userId quizId r)
  \/ exists best : Lms.QuizResult,
       resultOf db userId quizId best
       /\ (forall r : Lms.QuizResult,
             resultOf db userId quizId r ->
             Lms.qr_percentage r <= Lms.qr_percentage best)
       /\ Lms.qr_percentage best < 50.

(** The sequential rule as the specification words it, for the item at
    [index] of a list of items: there is a nearest quiz before it, and
    the learner has not passed that quiz. *)
Definition SequentiallyLocked (db : Lms.Db) (userId : string)
    (items : list Lms.Content) (index : nat) : Prop :=
  exists (j : nat) (q : Lms.QuizItem),
    nearestPrecedingQuiz items index j q
    /\ NotPassedBy db userId (Lms.qz_id (Lms.qi_quiz q)).

(** The learner has access to the course: the course is published, and
    it is free or the learner holds an ACTIVE purchase of it. *)
Definition HasCourseAccess (db : Lms.Db) (userId courseId : string) : Prop :=
  exists course : Lms.Course,
    Lms.findPublishedCourse db courseId = Some course
    /\ (Lms.co_price course = Some 0
        \/ exists p : Lms.Purchase,
             In p (Lms.co_purchases course)
             /\ Lms.pu_userId p = userId
             /\ Lms.pu_status p = "ACTIVE").

(** A chapter that names a quiz to pass. *)
Definition requiresQuiz (content : Lms.Content) : bool :=
  match content with
  | Lms.CChapter ch =>
      Lms.ch_requirePassingQuiz (Lms.ci_chapter ch)
      && Js.truthyOpt (Lms.ch_requiredQuizId (Lms.ci_chapter ch))
  | Lms.CQuiz _ => false
  end.

(** The annotation the content route gives to an item when the caller
    has no access to the course. *)
Definition withoutAccess (content : Lms.Content) : ContentRoute.Annotated :=
  ContentRoute.mkAnnotated content (requiresQuiz content)
    (if requiresQuiz content then Some Lms.mustPurchaseCourse else None).

(** The merged catalog the content route annotates. *)
Definition catalogOf (db : Lms.Db) (userId : option string) (courseId : string)
  : list Lms.Content :=
  let hasAccess := ContentRoute.hasAccessOf db userId courseId in
  Lms.mergeContent (ContentRoute.fetchChapters db hasAccess userId courseId)
                   (ContentRoute.fetchQuizzes db hasAccess userId courseId).

End Props.

(* ================================================================== *)
(** * Concrete inputs *)
(* ================================================================== *)

Module Scenario.
Import UploadRoute.

(** An environment with every variable set. *)
Definition envFull : R2Config.Env :=
  fun name =>
    if String.eqb name "R2_BUCKET_NAME" then Some "media"
    else if String.eqb name "R2_PUBLIC_URL" then Some "https://cdn.example.org"
    else Some "set".

(** An environment where only [R2_PUBLIC_URL] is unset. *)
Definition envNoPublicUrl : R2Config.Env :=
  fun name =>
    if String.eqb name "R2_PUBLIC_URL" then None
    else if String.eqb name "R2_BUCKET_NAME" then Some "media"
    else Some "set".

(** An environment where nothing is set. *)
Definition envEmpty : R2Config.Env := fun _ => None.

Definition pdf : File := mkFile "notes 1.pdf" "application/pdf" 1000.
Definition untyped : File := mkFile "clip.MP4" "" 1000.

(** A store that reports 10%, 50%, 30%, 50% and 100%, then succeeds. *)
Definition storeOk : Store :=
  fun _ =>
    mkUploadRun
      [ mkProgressInfo (Some 100) (Some 1000);
        mkProgressInfo (Some 500) None;
        mkProgressInfo (Some 300) (Some 1000);
        mkProgressInfo (Some 500) (Some 1000);
        mkProgressInfo (Some 1000) (Some 1000) ]
      Resolved.

(** A store that reports 10% and then fails. *)
Definition storeFails : Store :=
  fun _ =>
    mkUploadRun [ mkProgressInfo (Some 100) (Some 1000) ]
                (Rejected (Some "Access Denied")).

Definition preparedPdf : Prepared :=
  mkPrepared pdf (R2Upload.generateR2Key 1700000000123 "u-1" (file_name pdf) None)
             (contentTypeOf pdf).


(** A free course without any purchase. *)
Definition freeCourse : Lms.Course := Lms.mkCourse "c1" (Some 0) true [].

(** A paid course that "bob" bought and "carol" bought and then lost. *)
Definition paidCourse : Lms.Course :=
  Lms.mkCourse "c2" (Some 100) true
    [ Lms.mkPurchase "bob" "ACTIVE"; Lms.mkPurchase "carol" "CANCELLED" ].

Definition lesson1 : Lms.Chapter :=
  Lms.mkChapter "ch1" "c1" 1 false true [] false None.

(** A chapter that requires quiz "q2". *)
Definition lesson2 : Lms.Chapter :=
  Lms.mkChapter "ch2" "c1" 2 false true [] true (Some "q2").

Definition quiz2 : Lms.Quiz := Lms.mkQuiz "q2" "c1" "Quiz 2" 3 true.

Definition paidLesson : Lms.Chapter :=
  Lms.mkChapter "ch9" "c2" 1 false true [] false None.

Definition paidQuiz : Lms.Quiz := Lms.mkQuiz "q9" "c2" "Quiz 9" 2 true.

(** "alice" scored 80 on quiz "q2" and later 40 on a second attempt. *)
Definition db1 : Lms.Db :=
  Lms.mkDb [freeCourse; paidCourse]
           [lesson1; lesson2; paidLesson]
           [quiz2; paidQuiz]
           [ Lms.mkQuizResult "alice" "q2" 80 100;
             Lms.mkQuizResult "alice" "q2" 40 200 ]
           [ Lms.mkUser "alice" None; Lms.mkUser "bob" None; Lms.mkUser "carol" None ].

(** The same course with the chapter that requires quiz "q2" alone. *)
Definition db2 : Lms.Db :=
  Lms.mkDb [freeCourse] [lesson2] [quiz2]
           [ Lms.mkQuizResult "alice" "q2" 80 100;
             Lms.mkQuizResult "alice" "q2" 40 200 ]
           [ Lms.mkUser "alice" None ].

Definition quiz1 : Lms.Quiz := Lms.mkQuiz "q1" "c1" "Quiz 1" 0 true.

Definition lesson3 : Lms.Chapter :=
  Lms.mkChapter "ch3" "c1" 4 false true [] false None.

(** Course "c1" as quiz 1, lesson 1, lesson 2, quiz 2, lesson 3; "alice"
    scored 30 and 45 on quiz 1, and 80 and then 40 on quiz 2. *)
Definition db3 : Lms.Db :=
  Lms.mkDb [freeCourse]
           [lesson1; lesson2; lesson3]
           [quiz1; quiz2]
           [ Lms.mkQuizResult "alice" "q1" 30 10;
             Lms.mkQuizResult "alice" "q1" 45 20;
             Lms.mkQuizResult "alice" "q2" 80 100;
             Lms.mkQuizResult "alice" "q2" 40 200 ]
           [ Lms.mkUser "alice" None ].

End Scenario.

(* ================================================================== *)
(** * Further predicates on strings and keys *)
(* ================================================================== *)

Module Facts.

(** The character occurs in the string. *)
Fixpoint hasChar (c : ascii) (s : string) : bool :=
  match s with
  | EmptyString => false
  | String d rest => Ascii.eqb d c || hasChar c rest
  end.

(** The string without its last character. *)
Fixpoint dropLast (s : string) : string :=
  match s with
  | EmptyString => EmptyString
  | String _ EmptyString => EmptyString
  | String c rest => String c (dropLast rest)
  end.

(** A base URL without the one [/] it may end with. *)
Definition dropTrailingSlash (base : string) : string :=
  if Js.endsWithChar "/" base then dropLast base else base.

(** The values of the extension table. *)
Definition mimeTypes : list string := map snd R2Upload.EXT_TO_MIME.

(** The string holds one of the letters A-Z. *)
Fixpoint hasUpper (s : string) : bool :=
  match s with
  | EmptyString => false
  | String c rest => Js.isUpper c || hasUpper rest
  end.

(** The two names the extension table inherits that are written in lower
    case, and so can be the extension the resolver computes. *)
Definition inheritedExtensions : list string := ["constructor"; "__proto__"].

End Facts.

(* ================================================================== *)
(** * Further predicates on upload streams *)
(* ================================================================== *)

Module StreamFacts.
Import UploadRoute.

(** What a progress callback reports once the defaults are filled in:
    [progress.loaded ?? 0] and [progress.total ?? file.size]. *)
Definition reportOf (fileSize : Z) (p : ProgressInfo) : Z * Z :=
  (nullish (pi_loaded p) 0, nullish (pi_total p) fileSize).

(** The stream holds a success event. *)
Definition succeeded (c : Controller) : Prop :=
  exists (key url name : string) (contentType : R2Upload.Value) (size : Z),
    In (Done key url name contentType size) (queue c).

End StreamFacts.

(* ================================================================== *)
(** * The upload component: src/components/file-upload.tsx *)
(* ================================================================== *)

Module FileUploadClient.

(** The [endpoint] property of the component. *)
Inductive Endpoint :=
| courseImage
| courseAttachment
| chapterVideo.

(** [config.folder] *)
Definition configFolder (endpoint : Endpoint) : string :=
  match endpoint with
  | courseImage => "images/courses"
  | chapterVideo => "videos/chapters"
  | courseAttachment => "uploads/attachments"
  end.

(** The folder sent with a file (lines 41-46): for attachments it is
    chosen by the declared type of the file. *)
Definition folderFor (endpoint : Endpoint) (fileType : string) : string :=
  match endpoint with
  | courseAttachment =>
      if Js.startsWith "image/" fileType then "images/attachments"
      else if Js.startsWith "video/" fileType then "videos/attachments"
      else "documents/attachments"
  | _ => configFolder endpoint
  end.

(** The form the component posts: the file and the folder. *)
Definition formOf (endpoint : Endpoint) (file : UploadRoute.File)
  : option UploadRoute.FormEntry * option UploadRoute.FormEntry :=
  (Some (UploadRoute.EntryFile file),
   Some (UploadRoute.EntryString (folderFor endpoint (UploadRoute.file_type file)))).

End FileUploadClient.

Module TrimFacts.

(** The string neither starts nor ends with a white space character. *)
Definition trimmed (s : string) : Prop :=
  (forall w : string, In w Js.whiteSpace -> Js.startsWith w s = false)
  /\ (forall w : string, In w Js.whiteSpace -> Js.endsWith w s = false).

(** What follows the first byte of a string. *)
Definition afterFirst (s : string) : string :=
  match s with
  | EmptyString => EmptyString
  | String _ rest => rest
  end.

End TrimFacts.

(* ================================================================== *)
(** * Further predicates on catalogs *)
(* ================================================================== *)

Module CatalogFacts.
Import Lms.

(** Items in ascending order of position. *)
Definition ascending (all : list Content) : Prop :=
  Sorted Z.le (map contentPosition all).

(** The items of a list that sit at one position, in the order of the list. *)
Definition atPosition {A : Type} (key : A -> Z) (k : Z) (l : list A) : list A :=
  filter (fun x => key x =? k) l.

(** The chapter rows and quiz rows a catalog is made of. *)
Definition publishedChapterRows (db : Db) (courseId : string) : list Chapter :=
  filter (fun c => String.eqb (ch_courseId c) courseId && ch_isPublished c) (chapters db).

Definition publishedQuizRows (db : Db) (courseId : string) : list Quiz :=
  filter (fun q => String.eqb (qz_courseId q) courseId && qz_isPublished q) (quizzes db).

(** The row an item was fetched from. *)
Definition rowOf (c : Content) : Chapter + Quiz :=
  match c with
  | CChapter ci => inl (ci_chapter ci)
  | CQuiz qi => inr (qi_quiz qi)
  end.

(** An item that carries nothing about the learner. *)
Definition carriesNoResults (c : Content) : Prop :=
  match c with
  | CChapter ci => ci_requiredQuiz ci = None
  | CQuiz qi => qi_quizResults qi = None
  end.

(** A free chapter without a quiz requirement. *)
Definition openPreview (c : Content) : bool :=
  match c with
  | CChapter ci =>
      ch_isFree (ci_chapter ci)
      && negb (ch_requirePassingQuiz (ci_chapter ci)
               && Js.truthyOpt (ch_requiredQuizId (ci_chapter ci)))
  | CQuiz _ => false
  end.

(** The answer of the first-content route for an item, or for none. *)
Definition answerFor (found : option Content) : FirstContentRoute.Response :=
  match found with
  | Some (CChapter ci) =>
      FirstContentRoute.FirstJson (Some (ch_id (ci_chapter ci))) (Some "chapter")
  | Some (CQuiz qi) =>
      FirstContentRoute.FirstJson (Some (qz_id (qi_quiz qi))) (Some "quiz")
  | None => FirstContentRoute.FirstJson None None
  end.

End CatalogFacts.

(* ================================================================== *)
(** * The chapter route: fifth part of
      src/app/api/teacher/users/[userId]/progress/route.ts (lines 497-798) *)
(* ================================================================== *)

Module ChapterRoute.
Import Lms.

(** [const isStaff = (role) => role === "ADMIN" || role === "TEACHER"] *)
Definition isStaff (role : option string) : bool :=
  match role with
  | Some r => String.eqb r "ADMIN" || String.eqb r "TEACHER"
  | None => false
  end.

(** [type: 'chapter' | 'quiz'] *)
Inductive Kind :=
| KChapter
| KQuiz.

Definition kindEqb (a b : Kind) : bool :=
  match a, b with
  | KChapter, KChapter => true
  | KQuiz, KQuiz => true
  | _, _ => false
  end.

(** An element of [sortedContent]: [{ id, position, type }]. *)
Record Entry := mkEntry {
  en_id : string;
  en_position : Z;
  en_type : Kind
}.

(** [[...chaptersWithType, ...quizzesWithType].sort((a, b) => a.position - b.position)] *)
Definition sortedContent (db : Db) (courseId : string) : list Entry :=
  sortBy en_position
    (map (fun c => mkEntry (ch_id c) (ch_position c) KChapter) (publishedChapters db courseId)
     ++ map (fun q => mkEntry (qz_id q) (qz_position q) KQuiz) (publishedQuizzes db courseId)).

(** [db.chapter.findUnique({ where: { id: chapterId, courseId } })] *)
Definition findChapter (db : Db) (courseId chapterId : string) : option Chapter :=
  find (fun c => String.eqb (ch_id c) chapterId && String.eqb (ch_courseId c) courseId)
       (chapters db).

(** [db.course.findUnique({ where: { id: courseId } })] *)
Definition findCourse (db : Db) (courseId : string) : option Course :=
  find (fun c => String.eqb (co_id c) courseId) (courses db).

(** [db.purchase.findFirst({ where: { userId, courseId, status: "ACTIVE" } })] *)
Definition findActivePurchase (db : Db) (userId courseId : string) : option Purchase :=
  match findCourse db courseId with
  | Some c => hd_error (activePurchasesOf userId c)
  | None => None
  end.

(** [course && (course.price === 0 || purchase !== null)] *)
Definition hasAccessOf (db : Db) (userId courseId : string) : bool :=
  match findCourse db courseId with
  | Some course =>
      match co_price course with
      | Some p => (p =? 0) || match findActivePurchase db userId courseId with
                              | Some _ => true
                              | None => false
                              end
      | None => match findActivePurchase db userId courseId with
                | Some _ => true
                | None => false
                end
      end
  | None => false
  end.

(** [where: { studentId, quizId }, select: { percentage },
     orderBy: { submittedAt: 'desc' }] *)
Definition resultsNewestFirst (db : Db) (userId quizId : string) : list Z :=
  map qr_percentage (sortBy (fun r => - qr_submittedAt r) (resultsOf db userId quizId)).

(** [sortedContent.findIndex(content => content.id === chapterId
                                         && content.type === 'chapter')] *)
Definition currentIndexOf (sorted : list Entry) (chapterId : string) : option nat :=
  findIndex (fun e => String.eqb (en_id e) chapterId && kindEqb (en_type e) KChapter) sorted.

(** The loop of lines 603-647, [count] being [i + 1]: [true] when it
    answers 403. *)
Fixpoint refusedFrom (db : Db) (userId : string) (sorted : list Entry) (count : nat) : bool :=
  match count with
  | O => false
  | S i =>
      match nth_error sorted i with
      | Some prevContent =>
          match en_type prevContent with
          | KQuiz => notPassed (resultsNewestFirst db userId (en_id prevContent))
          | KChapter => refusedFrom db userId sorted i
          end
      | None => refusedFrom db userId sorted i
      end
  end.

(** The sequential check of lines 562-649: [true] when the route answers 403. *)
Definition refused (db : Db) (userId courseId chapterId : string) : bool :=
  if hasAccessOf db userId courseId && Js.truthy userId then
    match currentIndexOf (sortedContent db courseId) chapterId with
    | Some currentIndex => refusedFrom db userId (sortedContent db courseId) currentIndex
    | None => false
    end
  else false.

Definition mustPassPrevious : string :=
  "يجب اجتياز الاختبار السابق بنسبة 50% على الأقل أولاً".

Inductive Response :=
| Status (code : Z) (body : string)
| Locked (code : Z) (error : string) (isLocked : bool)
| ChapterJson (chapter : Chapter)
              (nextChapterId previousChapterId : option string)
              (nextContentType previousContentType : option Kind).

(** [x?.id || null] *)
Definition idOrNull (e : option Entry) : option string :=
  match e with
  | Some x => if Js.truthy (en_id x) then Some (en_id x) else None
  | None => None
  end.

(** [currentIndex !== -1 && currentIndex < sortedContent.length - 1
       ? sortedContent[currentIndex + 1] : null] *)
Definition nextContentOf (sorted : list Entry) (currentIndex : option nat) : option Entry :=
  match currentIndex with
  | Some i =>
      if Z.of_nat i <? Z.of_nat (List.length sorted) - 1 then nth_error sorted (S i) else None
  | None => None
  end.

(** [currentIndex > 0 ? sortedContent[currentIndex - 1] : null] *)
Definition previousContentOf (sorted : list Entry) (currentIndex : option nat) : option Entry :=
  match currentIndex with
  | Some (S i) => nth_error sorted i
  | _ => None
  end.

(** [GET]; the relations [userProgress] and [attachments] that the
    response spreads with the chapter are not tables of the embedding. *)
Definition GET (db : Db) (userId : option string) (courseId chapterId : string) : Response :=
  match userId with
  | Some u =>
      if negb (Js.truthy u) then Status 401 "Unauthorized"
      else
        match findChapter db courseId chapterId with
        | None => Status 404 "Chapter not found"
        | Some chapter =>
            if refused db u courseId chapterId
            then Locked 403 mustPassPrevious true
            else
              let sorted := sortedContent db courseId in
              let currentIndex := currentIndexOf sorted chapterId in
              let nextContent := nextContentOf sorted currentIndex in
              let previousContent := previousContentOf sorted currentIndex in
              ChapterJson chapter
                (idOrNull nextContent) (idOrNull previousContent)
                (option_map en_type nextContent) (option_map en_type previousContent)
        end
  | None => Status 401 "Unauthorized"
  end.

(** [db.chapter.delete({ where: { id: chapterId, courseId } })] *)
Definition deleteChapter (db : Db) (courseId chapterId : string) : Db :=
  mkDb (courses db)
       (filter (fun c => negb (String.eqb (ch_id c) chapterId
                               && String.eqb (ch_courseId c) courseId))
               (chapters db))
       (quizzes db) (quizResults db) (users db).

(** [DELETE]: the response and the tables after the request; [role] is
    [user?.role] of the session. *)
Definition DELETE (db : Db) (userId role : option string) (courseId chapterId : string)
  : Response * Db :=
  if negb (Js.truthyOpt userId) then (Status 401 "Unauthorized", db)
  else if negb (isStaff role) then (Status 403 "Forbidden", db)
  else
    match findChapter db courseId chapterId with
    | None => (Status 404 "Chapter not found", db)
    | Some _ => (Status 200 "Chapter deleted successfully", deleteChapter db courseId chapterId)
    end.

End ChapterRoute.

Module ChapterFacts.
Import Lms ChapterRoute.

(** [j] is the place of the nearest quiz before [index] in the sorted
    content of the chapter route. *)
Definition nearestQuizBefore (sorted : list Entry) (index j : nat) (e : Entry) : Prop :=
  (j < index)%nat
  /\ nth_error sorted j = Some e
  /\ en_type e = KQuiz
  /\ forall (k : nat) (e' : Entry),
       (j < k < index)%nat -> nth_error sorted k = Some e' -> en_type e' = KChapter.

(** No result of the learner for the quiz reaches 50. *)
Definition neverReached50 (db : Db) (userId quizId : string) : Prop :=
  forall r : QuizResult, In r (resultsOf db userId quizId) -> qr_percentage r < 50.

(** What identifies an entry of the sorted content. *)
Definition entryKey (e : Entry) : string * Kind := (en_id e, en_type e).

(** The chapter named by the request is no longer in the tables. *)
Definition chapterGone (db : Db) (courseId chapterId : string) : Prop :=
  forall c : Chapter,
    In c (chapters db) -> ~ (ch_id c = chapterId /\ ch_courseId c = courseId).

End ChapterFacts.

(* ================================================================== *)
(** * The migration script: src/scripts/upload-to-r2.ts *)
(* ================================================================== *)

Module UploadScript.

(** A row of the UploadThing export. *)
Record UploadThingRow := mkRow {
  row_name : string;
  row_key : string;
  row_customId : option string;
  row_url : string;
  row_size : Z;
  row_uploadedAt : string
}.

(** [inferFolderFromName(fileName)]; [None] when [ct] is not a string:
    [ct.startsWith] is then not a function and the call throws. *)
Definition inferFolderFromName (fileName : string) : option string :=
  match R2Upload.guessContentType fileName "" with
  | R2Upload.Str ct =>
      Some (if Js.startsWith "image/" ct then "images"
            else if Js.startsWith "video/" ct then "videos"
            else "documents")
  | R2Upload.Inherited _ => None
  end.

(** The message of the [TypeError] thrown by [ct.startsWith(...)]. *)
Definition notAFunction : string := "ct.startsWith is not a function".

(** The command sent to the store by [uploadFileToR2]; [put_Body] is the
    path the body is read from. *)
Record PutObject := mkPutObject {
  put_Bucket : string;
  put_Key : string;
  put_Body : string;
  put_ContentType : R2Upload.Value;
  put_CacheControl : string
}.

(** How [r2Client.send] ends: it returns, or throws an error with its
    [message] and its [String(err)]. *)
Inductive SendResult :=
| Sent
| SendFailed (message : option string) (asString : string).

(** What the script reads from its surroundings: the environment, the
    working directory, [path.join], [path.basename], [fs.existsSync], the
    rows of a JSON file, the store, the clock and random identifier read
    while the [n]-th row is handled, and the time the report is written. *)
Record World := mkWorld {
  w_env : R2Config.Env;
  w_cwd : string;
  w_join : string -> string -> string;
  w_basename : string -> string;
  w_exists : string -> bool;
  w_readJson : string -> list UploadThingRow;
  w_send : PutObject -> SendResult;
  w_fresh : nat -> N * string;
  w_now : string
}.

(** [uploadFileToR2(localPath, key)]: the new URL, or the error thrown. *)
Definition uploadFileToR2 (w : World) (localPath key : string) : string + SendResult :=
  let contentType :=
    R2Upload.guessContentType (w_basename w localPath) "application/octet-stream" in
  match w_send w (mkPutObject (R2Config.R2_BUCKET_NAME (w_env w)) key localPath contentType
                              "public, max-age=31536000, immutable") with
  | Sent => inl (R2Upload.joinPublicUrl (R2Config.R2_PUBLIC_URL (w_env w)) key)
  | failure => inr failure
  end.

(** An element of [results]. *)
Record Result := mkResult {
  res_oldUrl : string;
  res_newUrl : option string;
  res_success : bool;
  res_error : option string
}.

(** The state of the loop of [main]: [mapping] as the assignments made,
    latest first. *)
Record Progress := mkProgress {
  pg_mapping : list (string * string);
  pg_results : list Result;
  pg_ok : nat;
  pg_fail : nat
}.

(** [err?.message || String(err)] *)
Definition describe (r : SendResult) : string :=
  match r with
  | SendFailed (Some m) s => Js.orElse m s
  | SendFailed None s => s
  | Sent => ""
  end.

(** The body of the loop for the row of index [i]. *)
Definition handleRow (w : World) (localDir : string) (i : nat) (row : UploadThingRow)
    (st : Progress) : Progress :=
  let localPath := w_join w localDir (row_name row) in
  if negb (w_exists w localPath) then
    mkProgress (pg_mapping st)
      (pg_results st
       ++ [mkResult (row_url row) None false (Some ("Local file not found: " ++ localPath))])
      (pg_ok st) (S (pg_fail st))
  else
    match inferFolderFromName (row_name row) with
    | None =>
        mkProgress (pg_mapping st)
          (pg_results st ++ [mkResult (row_url row) None false (Some notAFunction)])
          (pg_ok st) (S (pg_fail st))
    | Some folder =>
        let key := R2Upload.generateR2Key (fst (w_fresh w i)) (snd (w_fresh w i))
                     (row_name row) (Some folder) in
        match uploadFileToR2 w localPath key with
        | inl newUrl =>
            mkProgress ((row_url row, newUrl) :: pg_mapping st)
              (pg_results st ++ [mkResult (row_url row) (Some newUrl) true None])
              (S (pg_ok st)) (pg_fail st)
        | inr err =>
            mkProgress (pg_mapping st)
              (pg_results st ++ [mkResult (row_url row) None false (Some (describe err))])
              (pg_ok st) (S (pg_fail st))
        end
    end.

Fixpoint handleRows (w : World) (localDir : string) (i : nat) (rows : list UploadThingRow)
    (st : Progress) : Progress :=
  match rows with
  | [] => st
  | row :: rest => handleRows w localDir (S i) rest (handleRow w localDir i row st)
  end.

(** [arr.join(", ")] *)
Fixpoint joinComma (l : list string) : string :=
  match l with
  | [] => ""
  | [x] => x
  | x :: rest => x ++ ", " ++ joinComma rest
  end.

(** [(process.env.UPLOADTHING_JSON_FILES || "selected-rows-1.json,selected-rows-2.json")
       .split(",").map((s) => s.trim()).filter(Boolean)] *)
Definition jsonFilesOf (env : R2Config.Env) : list string :=
  filter Js.truthy
    (map Js.trim
       (Js.split ","
          (Js.orElse (R2Config.orEmpty (env "UPLOADTHING_JSON_FILES"))
                     "selected-rows-1.json,selected-rows-2.json"))).

(** The rows of the JSON files that exist, in order. *)
Fixpoint readRows (w : World) (jsonFiles : list string) : list UploadThingRow :=
  match jsonFiles with
  | [] => []
  | jf :: rest =>
      let p := w_join w (w_cwd w) jf in
      if negb (w_exists w p) then readRows w rest
      else w_readJson w p ++ readRows w rest
  end.

(** The report written to [uploadthing-to-r2-mapping.json], and the exit
    code of the process. *)
Record Report := mkReport {
  rp_createdAt : string;
  rp_total : nat;
  rp_ok : nat;
  rp_fail : nat;
  rp_mapping : list (string * string);
  rp_results : list Result;
  rp_exitCode : Z
}.

(** How [main] ends: it throws, or it writes its report. *)
Inductive Run :=
| Thrown (message : string)
| Written (report : Report).

Definition main (w : World) : Run :=
  if negb (Js.truthy (R2Config.R2_BUCKET_NAME (w_env w)))
  then Thrown "R2_BUCKET_NAME is not set"
  else if negb (Js.truthy (R2Config.R2_PUBLIC_URL (w_env w)))
  then Thrown "R2_PUBLIC_URL is not set"
  else
    match w_env w "LOCAL_FILES_DIR" with
    | Some localDir =>
        if negb (Js.truthy localDir)
        then Thrown "LOCAL_FILES_DIR is not set (path to downloaded UploadThing files)"
        else
          let jsonFiles := jsonFilesOf (w_env w) in
          let rows := readRows w jsonFiles in
          match rows with
          | [] => Thrown ("No rows found. Checked: " ++ joinComma jsonFiles)
          | _ =>
              let st := handleRows w localDir 0 rows (mkProgress [] [] 0 0) in
              Written (mkReport (w_now w) (List.length rows) (pg_ok st) (pg_fail st)
                                (pg_mapping st) (pg_results st)
                                (if (0 <? pg_fail st)%nat then 1 else 0))
          end
    | None => Thrown "LOCAL_FILES_DIR is not set (path to downloaded UploadThing files)"
    end.

End UploadScript.

Module ScriptFacts.
Import UploadScript.

(** The rows the script handles. *)
Definition rowsOf (w : World) : list UploadThingRow :=
  readRows w (jsonFilesOf (w_env w)).

(** The key made for the row of index [i], once its folder is inferred. *)
Definition keyOf (w : World) (i : nat) (row : UploadThingRow) (folder : string) : string :=
  R2Upload.generateR2Key (fst (w_fresh w i)) (snd (w_fresh w i)) (row_name row)
    (Some folder).

(** The number of successful results. *)
Definition successes (results : list Result) : nat :=
  List.length (filter res_success results).

(** The extensions of the table whose type is an image, and a video. *)
Definition imageExtensions : list string := ["png"; "jpg"; "jpeg"; "gif"; "webp"].
Definition videoExtensions : list string := ["mp4"; "webm"; "ogg"; "mov"].

(** A world in which every variable is set, the files exist, one JSON
    file lists two rows, and the store accepts the first upload only. *)
Definition sampleWorld : World :=
  mkWorld
    (fun name =>
       if String.eqb name "R2_BUCKET_NAME" then Some "media"
       else if String.eqb name "R2_PUBLIC_URL" then Some "https://cdn.example.org/"
       else if String.eqb name "LOCAL_FILES_DIR" then Some "files"
       else if String.eqb name "UPLOADTHING_JSON_FILES" then Some " rows.json ,"
       else None)
    "work"
    (fun a b => a ++ "/" ++ b)
    (fun p => p)
    (fun _ => true)
    (fun _ => [ mkRow "a.png" "k1" None "https://old/a" 10 "2024";
                mkRow "b.txt" "k2" None "https://old/b" 20 "2024" ])
    (fun put => if String.eqb (put_Body put) "files/a.png" then Sent
                else SendFailed (Some "") "Error: denied")
    (fun i => (1700000000000 + N.of_nat i, "id")%N)
    "2024-01-01T00:00:00.000Z".

End ScriptFacts.

(* ================================================================== *)
(** * The upload component reading the event stream:
      src/components/file-upload.tsx, lines 62-99 *)
(* ================================================================== *)

Module UploadStreamClient.

Definition lf : ascii := ascii_of_nat 10.

(** The blank line between two events. *)
Definition blankLine : string := String lf (String lf EmptyString).

(** A segment with one more character in front. *)
Definition consHead (c : ascii) (segments : list string) : list string :=
  match segments with
  | seg :: segs => String c seg :: segs
  | [] => [String c EmptyString]
  end.

(** [s.split("\n\n")] *)
Fixpoint splitBlank (s : string) : list string :=
  match s with
  | EmptyString => [EmptyString]
  | String c rest =>
      match rest with
      | String d rest' =>
          if Ascii.eqb c lf && Ascii.eqb d lf
          then EmptyString :: splitBlank rest'
          else consHead c (splitBlank rest)
      | EmptyString => [String c EmptyString]
      end
  end.

(** [s.slice(n)] *)
Fixpoint dropChars (n : nat) (s : string) : string :=
  match n, s with
  | O, _ => s
  | S n', String _ rest => dropChars n' rest
  | S _, EmptyString => EmptyString
  end.

(** [line.replace(/^data:\s*/, "")] *)
Definition stripData (line : string) : string :=
  if Js.startsWith "data:" line then Js.trimStart (dropChars 5 line) else line.

(** What the component reads of a parsed payload: [data.progress] when it
    is a number, the truth of [data.done], and [data.url], [data.name] and
    [data.error], empty when missing. *)
Record Data := mkData {
  d_progress : option Z;
  d_done : bool;
  d_url : string;
  d_name : string;
  d_error : string
}.

(** [JSON.parse]: the data, or the error thrown with its message. *)
Definition Parser := string -> Data + option string.

(** How [uploadFile] ends. *)
Inductive Ending :=
| Uploaded (url name : string)
| Failed (message : string).

(** What one chunk of the stream makes the component do. *)
Inductive Reaction :=
| Skip
| Show (progress : Z)
| End_ (ending : Ending).

(** [err?.message || "Failed to upload file"] of the [catch]. *)
Definition toastMessage (message : option string) : string :=
  match message with
  | Some m => Js.orElse m "Failed to upload file"
  | None => "Failed to upload file"
  end.

(** The branches taken on a parsed payload (lines 81-93). *)
Definition reactToData (fileName : string) (data : Data) : Reaction :=
  match d_progress data with
  | Some p => Show p
  | None =>
      if d_done data && Js.truthy (d_url data)
      then End_ (Uploaded (d_url data) (Js.orElse (d_name data) fileName))
      else if Js.truthy (d_error data)
      then End_ (Failed (toastMessage (Some (d_error data))))
      else Skip
  end.

(** The body of [for (const chunk of chunks)] (lines 75-93). *)
Definition reactToChunk (parse : Parser) (fileName chunk : string) : Reaction :=
  let line := Js.trim chunk in
  if negb (Js.startsWith "data:" line) then Skip
  else
    let json := stripData line in
    if negb (Js.truthy json) then Skip
    else
      match parse json with
      | inl data => reactToData fileName data
      | inr message => End_ (Failed (toastMessage message))
      end.

(** What the user has seen: the calls of [setProgress] after the first,
    in order, and the ending once there is one. *)
Record Seen := mkSeen {
  shown : list Z;
  ending : option Ending
}.

Definition react (r : Reaction) (seen : Seen) : Seen :=
  match r with
  | Skip => seen
  | Show p => mkSeen (shown seen ++ [p]) None
  | End_ (Uploaded url name) => mkSeen (shown seen ++ [100]) (Some (Uploaded url name))
  | End_ (Failed message) => mkSeen (shown seen) (Some (Failed message))
  end.

(** The [for] loop over the chunks of one read; it stops at an ending. *)
Fixpoint processChunks (parse : Parser) (fileName : string) (chunks : list string)
    (seen : Seen) : Seen :=
  match chunks with
  | [] => seen
  | chunk :: rest =>
      let seen' := react (reactToChunk parse fileName chunk) seen in
      match ending seen' with
      | Some _ => seen'
      | None => processChunks parse fileName rest seen'
      end
  end.

Definition endedUnexpectedly : Ending := Failed "Upload stream ended unexpectedly".

(** The [while (true)] loop over the reads of the body, each read being
    the text decoded from it; [buffer] is the text kept between reads. *)
Fixpoint readLoop (parse : Parser) (fileName : string) (buffer : string)
    (reads : list string) (seen : Seen) : Seen :=
  match reads with
  | [] => mkSeen (shown seen) (Some endedUnexpectedly)
  | value :: rest =>
      let chunks := splitBlank (buffer ++ value) in
      let buffer' :=
        match Js.pop chunks with
        | Some last => Js.orElse last ""
        | None => ""
        end in
      let seen' := processChunks parse fileName (removelast chunks) seen in
      match ending seen' with
      | Some _ => seen'
      | None => readLoop parse fileName buffer' rest seen'
      end
  end.

(** The loop from the empty buffer, nothing seen yet. *)
Definition readStream (parse : Parser) (fileName : string) (reads : list string) : Seen :=
  readLoop parse fileName "" reads (mkSeen [] None).

End UploadStreamClient.

Module StreamClientFacts.
Import UploadStreamClient.

(** The text of a stream cut into reads. *)
Fixpoint concatReads (reads : list string) : string :=
  match reads with
  | [] => ""
  | r :: rest => r ++ concatReads rest
  end.

(** The line the upload route writes for a JSON text:
    [`data: ${json}\n\n`]. *)
Definition frame (json : string) : string := "data: " ++ json ++ blankLine.

(** The text of the stream for a list of JSON texts. *)
Fixpoint concatFrames (payloads : list string) : string :=
  match payloads with
  | [] => ""
  | json :: rest => frame json ++ concatFrames rest
  end.

(** A JSON text as [JSON.stringify] writes an object: not empty, without
    a line feed, and with no white space at either end. *)
Definition compact (json : string) : Prop :=
  json <> "" /\ Facts.hasChar lf json = false /\ TrimFacts.trimmed json.

(** The component handed the JSON texts one by one. *)
Fixpoint processPayloads (parse : Parser) (fileName : string) (payloads : list string)
    (seen : Seen) : Seen :=
  match payloads with
  | [] => seen
  | json :: rest =>
      let seen' :=
        react (match parse json with
               | inl data => reactToData fileName data
               | inr message => End_ (Failed (toastMessage message))
               end) seen in
      match ending seen' with
      | Some _ => seen'
      | None => processPayloads parse fileName rest seen'
      end
  end.

(** An ending is reached, or else the stream ended unexpectedly. *)
Definition finish (seen : Seen) : Seen :=
  match ending seen with
  | Some _ => seen
  | None => mkSeen (shown seen) (Some endedUnexpectedly)
  end.

End StreamClientFacts.

Example guess_mp4 :
  R2Upload.guessContentType "Lesson.1.MP4" "x" = R2Upload.Str "video/mp4".
Proof. reflexivity. Qed.
Example guess_unknown :
  R2Upload.guessContentType "file.unknownext" "application/octet-stream"
  = R2Upload.Str "application/octet-stream".
Proof. reflexivity. Qed.
Example guess_inherited :
  R2Upload.guessContentType "a.constructor" "application/octet-stream"
  = R2Upload.Inherited "constructor".
Proof. reflexivity. Qed.
Example round_23_of_40 : UploadRoute.roundPercent 23 40 = 57.
Proof. vm_compute. reflexivity. Qed.
Example round_half : UploadRoute.roundPercent 1 200 = 1.
Proof. vm_compute. reflexivity. Qed.
Example key_ex :
  R2Upload.generateR2Key 1700000000123 "u-1" "my file(1).pdf" (Some "docs")
  = "docs/1700000000123-u-1-my_file_1_.pdf".
Proof. reflexivity. Qed.
Example join_ex1 : R2Upload.joinPublicUrl "https://cdn.x/" "k" = "https://cdn.x/k".
Proof. reflexivity. Qed.
Example join_ex2 : R2Upload.joinPublicUrl "https://cdn.x" "k" = "https://cdn.x/k".
Proof. reflexivity. Qed.
Example trim_accent : Js.trim "voilà" = "voilà".
Proof. reflexivity. Qed.
Example trim_wide :
  Js.trim (Js.bytes [227; 128; 128] ++ "a b" ++ Js.bytes [194; 160] ++ " ") = "a b".
Proof. reflexivity. Qed.
Example trim_only_wide : Js.trim (Js.bytes [227; 128; 128; 32; 226; 128; 168]) = "".
Proof. reflexivity. Qed.
Example sanitize_arabic : R2Upload.sanitizeFilename "درس.pdf" = "___.pdf".
Proof. reflexivity. Qed.
Example trim_ex : Js.trim "  a b  " = "a b".
Proof. reflexivity. Qed.

(* ================================================================== *)
(** * Progress events of the upload stream *)
(* ================================================================== *)

Section UploadProgress.
Import UploadRoute Props.
Local Open Scope list_scope.

Lemma progressValues_app (q1 q2 : list Event) :
  progressValues (q1 ++ q2) = progressValues q1 ++ progressValues q2.
Proof.
  induction q1 as [|e q1 IH]; simpl; [reflexivity|].
  destruct e; simpl; rewrite IH; reflexivity.
Qed.

Lemma strictlyIncreasing_snoc (l : list Z) (p : Z) :
  strictlyIncreasing l ->
  Forall (fun x => x < p) l ->
  strictlyIncreasing (l ++ [p]).
Proof.
  induction l as [|a l IH]; intros Hs Hf; simpl; [exact I|].
  inversion Hf as [|? ? Ha Hl]; subst.
  destruct l as [|b l'].
  - simpl. split; [exact Ha | exact I].
  - simpl in Hs. destruct Hs as [Hab Hrest].
    change ((b :: l') ++ [p]) with (b :: (l' ++ [p])) in IH |- *.
    split; [exact Hab|].
    apply IH; assumption.
Qed.

Lemma clampedPercent_bounds (loaded total : Z) :
  0 <= clampedPercent loaded total <= 99.
Proof. unfold clampedPercent. lia. Qed.

(** A callback either leaves the stream as it is, or appends one progress
    event that carries the clamped percentage, which then exceeds the
    value of [lastPercent] before the call. *)
Lemma onProgress_cases (fileSize : Z) (p : ProgressInfo) (st : Pending) :
  closed (ctrl st) = false ->
  onProgress fileSize p st = st
  \/ exists loaded total,
       loaded = nullish (pi_loaded p) 0
       /\ total = nullish (pi_total p) fileSize
       /\ total <> 0
       /\ lastPercent st < clampedPercent loaded total
       /\ onProgress fileSize p st
          = mkPending (clampedPercent loaded total)
              (mkController
                 (queue (ctrl st) ++ [Progress (clampedPercent loaded total) loaded total])
                 false)
              None.
Proof.
  intros Hopen. unfold onProgress.
  destruct (nullish (pi_total p) fileSize =? 0) eqn:Ht; [left; reflexivity|].
  apply Z.eqb_neq in Ht.
  fold (clampedPercent (nullish (pi_loaded p) 0) (nullish (pi_total p) fileSize)).
  destruct (clampedPercent (nullish (pi_loaded p) 0) (nullish (pi_total p) fileSize)
            <=? lastPercent st) eqn:Hle; [left; reflexivity|].
  apply Z.leb_gt in Hle.
  right. exists (nullish (pi_loaded p) 0), (nullish (pi_total p) fileSize).
  unfold enqueue. rewrite Hopen. repeat split; assumption.
Qed.

Lemma onProgress_inv (fileSize : Z) (p : ProgressInfo) (st : Pending) :
  PendingInv st -> PendingInv (onProgress fileSize p st).
Proof.
  intros Hinv.
  destruct (onProgress_cases fileSize p st (inv_open st Hinv))
    as [Heq | (loaded & total & _ & _ & _ & Hlt & Heq)]; rewrite Heq; [exact Hinv|].
  pose proof (clampedPercent_bounds loaded total) as Hb.
  destruct Hinv as [Hth Hop Hpo Hinc Hbel Hbd Hlb].
  constructor; simpl.
  - reflexivity.
  - reflexivity.
  - apply Forall_app; split; [exact Hpo | constructor; [exact I | constructor]].
  - rewrite progressValues_app. simpl.
    apply strictlyIncreasing_snoc; [exact Hinc|].
    eapply Forall_impl; [|exact Hbel]. simpl. intros a Ha. lia.
  - rewrite progressValues_app. simpl.
    apply Forall_app; split.
    + eapply Forall_impl; [|exact Hbel]. simpl. intros a Ha. lia.
    + constructor; [lia | constructor].
  - rewrite progressValues_app. simpl.
    apply Forall_app; split; [exact Hbd|].
    constructor; [lia | constructor].
  - lia.
Qed.

Lemma fire_inv (fileSize : Z) (ps : list ProgressInfo) (st : Pending) :
  PendingInv st -> PendingInv (fire fileSize ps st).
Proof.
  revert st. induction ps as [|p ps IH]; intros st Hinv; simpl; [exact Hinv|].
  pose proof (onProgress_inv fileSize p st Hinv) as Hinv'.
  rewrite (inv_not_thrown _ Hinv'). apply IH. exact Hinv'.
Qed.

Lemma initial_inv : PendingInv (mkPending 0 freshController None).
Proof.
  constructor; simpl; try reflexivity; try constructor; try exact I; lia.
Qed.

End UploadProgress.

(* ================================================================== *)
(** * The shape of the upload stream *)
(* ================================================================== *)

Section UploadStream.
Import UploadRoute Props.
Local Open Scope list_scope.

Lemma start_without_bucket (env : R2Config.Env) (store : Store) (pr : Prepared) :
  Js.truthy (R2Config.R2_BUCKET_NAME env) = false ->
  start env store pr freshController
  = (mkController [Error "R2_BUCKET_NAME is not set"] true, Normal).
Proof.
  intros Hb. unfold start, tryBlock. rewrite Hb. reflexivity.
Qed.

Lemma start_with_bucket (env : R2Config.Env) (store : Store) (pr : Prepared) :
  Js.truthy (R2Config.R2_BUCKET_NAME env) = true ->
  start env store pr freshController
  = (mkController
       (queue (ctrl (afterCallbacks env store pr))
        ++ [terminalOf env pr
              (run_outcome (store (uploadParams (R2Config.R2_BUCKET_NAME env) pr)))])
       true,
     Normal).
Proof.
  intros Hb. unfold start, tryBlock. rewrite Hb. simpl negb. cbv iota.
  fold (afterCallbacks env store pr).
  pose proof (fire_inv (file_size (pr_file pr))
                (run_callbacks (store (uploadParams (R2Config.R2_BUCKET_NAME env) pr)))
                _ initial_inv) as Hinv.
  fold (afterCallbacks env store pr) in Hinv.
  rewrite (inv_not_thrown _ Hinv).
  destruct (run_outcome (store (uploadParams (R2Config.R2_BUCKET_NAME env) pr)))
    as [|m]; unfold enqueue, close; rewrite (inv_open _ Hinv); reflexivity.
Qed.

(** Every stream is a run of progress events followed by one terminal
    event, and is closed by a [start] that completes normally. *)
Lemma start_shape (env : R2Config.Env) (store : Store) (pr : Prepared) :
  exists (progressEvents : list Event) (terminal : Event),
    start env store pr freshController
    = (mkController (progressEvents ++ [terminal]) true, Normal)
    /\ Forall isProgress progressEvents
    /\ isTerminal terminal
    /\ strictlyIncreasing (progressValues progressEvents)
    /\ Forall (fun p => 1 <= p <= 99) (progressValues progressEvents).
Proof.
  destruct (Js.truthy (R2Config.R2_BUCKET_NAME env)) eqn:Hb.
  - pose proof (fire_inv (file_size (pr_file pr))
                  (run_callbacks (store (uploadParams (R2Config.R2_BUCKET_NAME env) pr)))
                  _ initial_inv) as Hinv.
    fold (afterCallbacks env store pr) in Hinv.
    exists (queue (ctrl (afterCallbacks env store pr))).
    eexists. split; [apply start_with_bucket; exact Hb|].
    destruct Hinv as [_ _ Hpo Hinc _ Hbd _].
    repeat split; try assumption.
    destruct (run_outcome _); exact I.
  - exists [], (Error "R2_BUCKET_NAME is not set").
    split; [apply start_without_bucket; exact Hb|].
    repeat split; simpl; constructor.
Qed.

Lemma progressValues_terminal (q : list Event) (t : Event) :
  isTerminal t -> progressValues (q ++ [t]) = progressValues q.
Proof.
  intros Ht. rewrite progressValues_app.
  destruct t; simpl in *; [contradiction| |]; apply app_nil_r.
Qed.

Lemma fire_app (fileSize : Z) (ps qs : list ProgressInfo) (st : Pending) :
  PendingInv st ->
  fire fileSize (ps ++ qs) st = fire fileSize qs (fire fileSize ps st).
Proof.
  revert st. induction ps as [|p ps IH]; intros st Hinv; simpl; [reflexivity|].
  pose proof (onProgress_inv fileSize p st Hinv) as Hinv'.
  rewrite (inv_not_thrown _ Hinv'). apply IH. exact Hinv'.
Qed.

(** Between two callbacks [lastPercent] is the last percentage sent, or
    0 when none was sent. *)
Lemma fire_lastPercent (fileSize : Z) (ps : list ProgressInfo) :
  lastPercent (fire fileSize ps (mkPending 0 freshController None))
  = last (progressValues
            (queue (ctrl (fire fileSize ps (mkPending 0 freshController None))))) 0.
Proof.
  induction ps as [|p ps IH] using rev_ind; [reflexivity|].
  rewrite fire_app by exact initial_inv. simpl.
  set (st := fire fileSize ps (mkPending 0 freshController None)) in *.
  assert (Hinv : PendingInv st) by (apply fire_inv; exact initial_inv).
  rewrite (inv_not_thrown _ (onProgress_inv fileSize p st Hinv)).
  destruct (onProgress_cases fileSize p st (inv_open _ Hinv))
    as [Heq | (loaded & total & _ & _ & _ & _ & Heq)]; rewrite Heq; [exact IH|].
  simpl. rewrite progressValues_app. simpl. rewrite last_last. reflexivity.
Qed.

End UploadStream.

(* ================================================================== *)
(** * Properties of the upload stream *)
(* ================================================================== *)

Section UploadClaims.
Import UploadRoute Props.
Local Open Scope list_scope.

Lemma enqueue_closed (e : Event) (c : Controller) :
  closed c = true -> enqueue e c = None.
Proof. intros H. unfold enqueue. rewrite H. reflexivity. Qed.

Lemma bounds_1_99_to_0_99 (l : list Z) :
  Forall (fun p => 1 <= p <= 99) l -> Forall (fun p => 0 <= p <= 99) l.
Proof. apply Forall_impl. intros a Ha. lia. Qed.

(** C5. The progress values of one upload stream strictly increase from
    one progress event to the next and all lie in [0, 99]; 100 is never
    sent as a progress value; and a callback whose clamped percentage is
    at most the last percentage sent adds nothing to the stream. *)
Theorem progress_strictly_increasing_within_0_99 :
  forall (env : R2Config.Env) (store : Store) (pr : Prepared)
         (fileSize : Z) (ps : list ProgressInfo) (p : ProgressInfo),
    let c := fst (start env store pr freshController) in
    let st := fire fileSize ps (mkPending 0 freshController None) in
    strictlyIncreasing (progressValues (queue c))
    /\ Forall (fun v => 0 <= v <= 99) (progressValues (queue c))
    /\ ~ In 100 (progressValues (queue c))
    /\ (clampedPercent (nullish (pi_loaded p) 0) (nullish (pi_total p) fileSize)
          <= last (progressValues (queue (ctrl st))) 0 ->
        queue (ctrl (fire fileSize (ps ++ [p]) (mkPending 0 freshController None)))
        = queue (ctrl st)).
Proof.
  intros env store pr fileSize ps p c st.
  destruct (start_shape env store pr) as (pre & t & Heq & _ & Ht & Hinc & Hbd).
  assert (Hq : progressValues (queue c) = progressValues pre).
  { subst c. rewrite Heq. simpl. apply progressValues_terminal. exact Ht. }
  rewrite Hq.
  split; [exact Hinc|].
  split; [apply bounds_1_99_to_0_99; exact Hbd|].
  split.
  - intros Hin. rewrite Forall_forall in Hbd. specialize (Hbd 100 Hin). lia.
  - intros Hle.
    assert (Hinv : PendingInv st) by (apply fire_inv; exact initial_inv).
    rewrite fire_app by exact initial_inv. fold st. simpl.
    rewrite (inv_not_thrown _ (onProgress_inv fileSize p st Hinv)).
    destruct (onProgress_cases fileSize p st (inv_open _ Hinv))
      as [Hsame | (loaded & total & Hl & Ht' & _ & Hlt & _)].
    + rewrite Hsame. reflexivity.
    + subst loaded total. unfold st in Hlt. rewrite fire_lastPercent in Hlt.
      fold st in Hlt. lia.
Qed.

(** C6. The stream of every upload response is a run of progress events
    followed by exactly one terminal event, a success or an error, which
    is the last event; the stream is then closed, so that nothing can be
    enqueued after it. *)
Theorem upload_stream_ends_with_one_terminal_event :
  forall (env : R2Config.Env) (store : Store) (ts : N) (id : string)
         (session : option string) (file folder : option FormEntry),
    match POST env store ts id session file folder with
    | EventStream c completion =>
        completion = Normal
        /\ wellTerminated c
        /\ forall e : Event, enqueue e c = None
    | Json _ _ => True
    end.
Proof.
  intros env store ts id session file folder. unfold POST.
  destruct (negb (Js.truthyOpt session)); [exact I|].
  destruct file as [[s|f]|]; try exact I.
  destruct (start_shape env store
              (mkPrepared f (R2Upload.generateR2Key ts id (file_name f) (resolveFolder folder))
                          (contentTypeOf f)))
    as (pre & t & Heq & Hpre & Ht & _ & _).
  rewrite Heq.
  split; [reflexivity|].
  split.
  - split; [reflexivity|]. exists pre, t. repeat split; assumption.
  - intros e. apply enqueue_closed. reflexivity.
Qed.

End UploadClaims.

Section UploadWitnesses.
Import UploadRoute Props Scenario.
Local Open Scope list_scope.

Lemma progress_strictly_increasing_within_0_99_witness :
  clampedPercent 300 1000
    <= last (progressValues
               (queue (ctrl (fire 1000
                               [mkProgressInfo (Some 100) (Some 1000);
                                mkProgressInfo (Some 500) None]
                               (mkPending 0 freshController None))))) 0
  /\ queue (ctrl (fire 1000
                    ([mkProgressInfo (Some 100) (Some 1000);
                      mkProgressInfo (Some 500) None]
                     ++ [mkProgressInfo (Some 300) (Some 1000)])
                    (mkPending 0 freshController None)))
     = queue (ctrl (fire 1000
                      [mkProgressInfo (Some 100) (Some 1000);
                       mkProgressInfo (Some 500) None]
                      (mkPending 0 freshController None))).
Proof.
  split.
  - vm_compute. discriminate.
  - apply (proj2 (proj2 (proj2
             (progress_strictly_increasing_within_0_99
                envFull storeOk preparedPdf 1000
                [mkProgressInfo (Some 100) (Some 1000);
                 mkProgressInfo (Some 500) None]
                (mkProgressInfo (Some 300) (Some 1000)))))).
    vm_compute. discriminate.
Defined.

End UploadWitnesses.

(* ================================================================== *)
(** * Configuration of the upload pipeline *)
(* ================================================================== *)

Section Configuration.
Import UploadRoute Props Scenario.
Local Open Scope list_scope.

Lemma warnIfMissing_keeps (env : R2Config.Env) (name line : string) (console : list string) :
  In line console -> In line (R2Config.warnIfMissing env name console).
Proof.
  intros H. unfold R2Config.warnIfMissing.
  destruct (negb (Js.truthyOpt (env name))); [apply in_or_app; left|]; exact H.
Qed.

Lemma warnIfMissing_warns (env : R2Config.Env) (name : string) (console : list string) :
  Js.truthyOpt (env name) = false ->
  In (warningFor name) (R2Config.warnIfMissing env name console).
Proof.
  intros H. unfold R2Config.warnIfMissing. rewrite H. simpl.
  apply in_or_app. right. left. reflexivity.
Qed.

Lemma loadModule_warns (env : R2Config.Env) (name : string) :
  In name warnedNames ->
  Js.truthyOpt (env name) = false ->
  In (warningFor name) (R2Config.loadModule env).
Proof.
  intros Hin Hmiss. unfold R2Config.loadModule. simpl in Hin.
  destruct Hin as [<-|[<-|[<-|[<-|[<-|[]]]]]];
    repeat first [ apply warnIfMissing_warns; exact Hmiss
                 | apply warnIfMissing_keeps ].
Qed.

Lemma truthy_orEmpty (o : option string) :
  Js.truthy (R2Config.orEmpty o) = Js.truthyOpt o.
Proof. destruct o; reflexivity. Qed.

Lemma joinPublicUrl_empty (base key : string) :
  Js.truthy base = false -> R2Upload.joinPublicUrl base key = key.
Proof. intros H. unfold R2Upload.joinPublicUrl. rewrite H. reflexivity. Qed.

(** C7, as the sources have it.  Without a bucket name every stream is
    the single error event "R2_BUCKET_NAME is not set", whatever the
    store would do.  Without a public base URL nothing fails: loading
    the configuration module writes a warning, and a run that succeeds
    ends with a success event whose [url] is the bare key. *)
Theorem missing_bucket_fails_missing_public_url_degrades :
  forall (env : R2Config.Env) (store : Store) (pr : Prepared),
    (Js.truthyOpt (env "R2_BUCKET_NAME") = false ->
       start env store pr freshController
       = (mkController [Error "R2_BUCKET_NAME is not set"] true, Normal))
    /\ (Js.truthyOpt (env "R2_BUCKET_NAME") = true ->
        Js.truthyOpt (env "R2_PUBLIC_URL") = false ->
        run_outcome (store (uploadParams (R2Config.R2_BUCKET_NAME env) pr)) = Resolved ->
        In (warningFor "R2_PUBLIC_URL") (R2Config.loadModule env)
        /\ exists progressEvents : list Event,
             Forall isProgress progressEvents
             /\ start env store pr freshController
                = (mkController
                     (progressEvents
                      ++ [Done (pr_key pr) (pr_key pr) (file_name (pr_file pr))
                               (pr_contentType pr) (file_size (pr_file pr))])
                     true,
                   Normal)).
Proof.
  intros env store pr. split.
  - intros Hb. apply start_without_bucket.
    unfold R2Config.R2_BUCKET_NAME. rewrite truthy_orEmpty. exact Hb.
  - intros Hb Hu Hres. split.
    + apply loadModule_warns; [simpl; tauto | exact Hu].
    + exists (queue (ctrl (afterCallbacks env store pr))). split.
      * apply (inv_progress_only _ (fire_inv _ _ _ initial_inv)).
      * rewrite start_with_bucket
          by (unfold R2Config.R2_BUCKET_NAME; rewrite truthy_orEmpty; exact Hb).
        rewrite Hres. simpl.
        rewrite joinPublicUrl_empty
          by (unfold R2Config.R2_PUBLIC_URL; rewrite truthy_orEmpty; exact Hu).
        reflexivity.
Qed.

Lemma missing_bucket_fails_missing_public_url_degrades_witness :
  (Js.truthyOpt (envEmpty "R2_BUCKET_NAME") = false
   /\ start envEmpty storeOk preparedPdf freshController
      = (mkController [Error "R2_BUCKET_NAME is not set"] true, Normal))
  /\ (Js.truthyOpt (envNoPublicUrl "R2_BUCKET_NAME") = true
      /\ Js.truthyOpt (envNoPublicUrl "R2_PUBLIC_URL") = false
      /\ run_outcome (storeOk (uploadParams (R2Config.R2_BUCKET_NAME envNoPublicUrl) preparedPdf))
         = Resolved
      /\ In (warningFor "R2_PUBLIC_URL") (R2Config.loadModule envNoPublicUrl)).
Proof.
  split.
  - split; [reflexivity|].
    apply (proj1 (missing_bucket_fails_missing_public_url_degrades
                    envEmpty storeOk preparedPdf)).
    reflexivity.
  - split; [reflexivity|]. split; [reflexivity|]. split; [reflexivity|].
    apply (proj2 (missing_bucket_fails_missing_public_url_degrades
                    envNoPublicUrl storeOk preparedPdf));
      reflexivity.
Defined.

(** C7 as stated fails: with the bucket set and the public base URL
    unset, an authenticated upload that the store accepts ends with a
    success event whose [url] is the bare key, and no error event is sent. *)
Lemma missing_public_url_reports_bare_key :
  envNoPublicUrl "R2_PUBLIC_URL" = None
  /\ POST envNoPublicUrl storeOk 1700000000123 "u-1" (Some "alice")
          (Some (EntryFile pdf)) None
     = EventStream
         (mkController
            [ Progress 10 100 1000;
              Progress 50 500 1000;
              Progress 99 1000 1000;
              Done "1700000000123-u-1-notes_1.pdf" "1700000000123-u-1-notes_1.pdf"
                   "notes 1.pdf" (R2Upload.Str "application/pdf") 1000 ]
            true)
         Normal
  /\ ~ (exists message : string,
          In (Error message)
             (match POST envNoPublicUrl storeOk 1700000000123 "u-1" (Some "alice")
                         (Some (EntryFile pdf)) None with
              | EventStream c _ => queue c
              | Json _ _ => []
              end)).
Proof.
  split; [reflexivity|]. split; [vm_compute; reflexivity|].
  intros [message Hin]. vm_compute in Hin.
  repeat (destruct Hin as [Hin|Hin]; [discriminate|]). exact Hin.
Qed.

End Configuration.

(* ================================================================== *)
(** * Object keys *)
(* ================================================================== *)

Section ObjectKeys.
Import R2Upload Props.

Lemma inKeyClass_existsb (c : ascii) :
  inKeyClass c = existsb (Ascii.eqb c) keyChars.
Proof.
  destruct c as [[] [] [] [] [] [] [] []]; vm_compute; reflexivity.
Qed.

Lemma inKeyClass_KeyChar (c : ascii) : inKeyClass c = true <-> KeyChar c.
Proof.
  rewrite inKeyClass_existsb. unfold KeyChar. rewrite existsb_exists. split.
  - intros (x & Hin & Heq). apply Ascii.eqb_eq in Heq. subst x. exact Hin.
  - intros Hin. exists c. split; [exact Hin | apply Ascii.eqb_refl].
Qed.

Lemma byte_range (c : ascii) : 0 <= Js.byte c < 256.
Proof.
  unfold Js.byte. pose proof (N_ascii_bounded c) as H. lia.
Qed.

Lemma inKeyClass_unit (c : ascii) :
  inKeyClass c = existsb (Z.eqb (Js.byte c)) keyUnits.
Proof.
  destruct c as [[] [] [] [] [] [] [] []]; vm_compute; reflexivity.
Qed.

Lemma inKeyClass_ascii (c : ascii) : inKeyClass c = true -> Js.byte c < 128.
Proof.
  destruct c as [[] [] [] [] [] [] [] []]; vm_compute; congruence.
Qed.

(** No code unit from 128 on is in the class. *)
Lemma sanitizeUnit_high (u : Z) : 128 <= u -> sanitizeUnit u = 95.
Proof.
  intros Hu. unfold sanitizeUnit.
  destruct (existsb (Z.eqb u) keyUnits) eqn:E; [|reflexivity].
  apply existsb_exists in E. destruct E as (k & Hin & Heq).
  apply Z.eqb_eq in Heq. subst k. exfalso.
  unfold keyUnits in Hin. apply in_map_iff in Hin. destruct Hin as (c & Hc & Hin).
  apply inKeyClass_KeyChar in Hin. apply inKeyClass_ascii in Hin. lia.
Qed.

Lemma sanitizeUnit_ascii (c : ascii) :
  sanitizeUnit (Js.byte c) = if inKeyClass c then Js.byte c else 95.
Proof. unfold sanitizeUnit. rewrite inKeyClass_unit. reflexivity. Qed.

Ltac decide_tests :=
  repeat match goal with
         | |- context [?a <? ?b] =>
             first [ replace (a <? b) with true by (symmetry; apply Z.ltb_lt; lia)
                   | replace (a <? b) with false by (symmetry; apply Z.ltb_ge; lia) ]
         | |- context [?a <=? ?b] =>
             first [ replace (a <=? b) with true by (symmetry; apply Z.leb_le; lia)
                   | replace (a <=? b) with false by (symmetry; apply Z.leb_gt; lia) ]
         end.

(** What well-formedness says of the first byte of a string. *)
Lemma utf8From_first (expect : nat) (c : ascii) (name : string) :
  Js.utf8From expect (String c name) = true ->
  (Js.byte c < 128 /\ Js.utf8From 0 name = true)
  \/ (128 <= Js.byte c < 192 /\ exists k : nat, Js.utf8From k name = true)
  \/ (194 <= Js.byte c < 224 /\ Js.utf8From 1 name = true)
  \/ (224 <= Js.byte c < 240
      /\ (224 < Js.byte c \/ 160 <= Js.byteAt 0 name)
      /\ Js.utf8From 2 name = true)
  \/ (240 <= Js.byte c /\ Js.utf8From 3 name = true).
Proof.
  cbn [Js.utf8From]. cbv zeta. unfold Js.isContinuation.
  destruct expect as [|k].
  - destruct (Z.ltb_spec (Js.byte c) 128) as [L1 | L1];
      [intros Hw; left; split; [lia | exact Hw]|].
    destruct (Z.ltb_spec (Js.byte c) 194) as [L2 | L2]; [discriminate|].
    destruct (Z.ltb_spec (Js.byte c) 224) as [L3 | L3];
      [intros Hw; right; right; left; split; [lia | exact Hw]|].
    destruct (Z.ltb_spec (Js.byte c) 240) as [L4 | L4].
    + intros Hw. apply andb_true_iff in Hw. destruct Hw as [Hs Hw].
      right; right; right; left. split; [lia|]. split; [|exact Hw].
      apply orb_true_iff in Hs. destruct Hs as [Hs | Hs]; [left | right]; lia.
    + destruct (Z.ltb_spec (Js.byte c) 245) as [L5 | L5]; [|discriminate].
      intros Hw. apply andb_true_iff in Hw. destruct Hw as [_ Hw].
      right; right; right; right. split; [lia | exact Hw].
  - intros Hw. apply andb_true_iff in Hw. destruct Hw as [Hc Hw].
    right; left. split; [lia | exists k; exact Hw].
Qed.

Lemma utf8From_continues (k : nat) (name : string) :
  Js.utf8From (S k) name = true -> 128 <= Js.byteAt 0 name < 192.
Proof.
  destruct name as [|d name]; [discriminate|].
  cbn [Js.utf8From]. cbv zeta. unfold Js.isContinuation, Js.byteAt. simpl String.get.
  intros Hw. apply andb_true_iff in Hw. destruct Hw as [Hc _].
  apply andb_true_iff in Hc. lia.
Qed.

(** Sanitizing acts code unit by code unit. *)
Lemma sanitizeFilename_units (expect : nat) (name : string) :
  Js.utf8From expect name = true ->
  Js.codeUnits (sanitizeFilename name) = map sanitizeUnit (Js.codeUnits name).
Proof.
  revert expect. induction name as [|c name IH]; intros expect Hwf; [reflexivity|].
  pose proof (byte_range c) as Hr.
  pose proof (Z.mod_pos_bound (Js.byteAt 0 name) 64 ltac:(lia)) as H0.
  pose proof (Z.mod_pos_bound (Js.byteAt 1 name) 64 ltac:(lia)) as H1.
  pose proof (Z.mod_pos_bound (Js.byteAt 2 name) 64 ltac:(lia)) as H2.
  cbn [sanitizeFilename Js.codeUnits]. cbv zeta.
  unfold Js.isContinuation, Js.beginsFour, Js.low6.
  destruct (utf8From_first expect c name Hwf)
    as [(Hb & Hn) | [(Hb & k & Hn) | [(Hb & Hn) | [(Hb & Hs & Hn) | (Hb & Hn)]]]];
    specialize (IH _ Hn).
  - decide_tests. cbn [map andb]. rewrite sanitizeUnit_ascii, <- IH.
    destruct (inKeyClass c) eqn:Hk; cbn [Js.codeUnits]; cbv zeta.
    + decide_tests. reflexivity.
    + change (Js.byte "_" <? 128) with true. reflexivity.
  - destruct (inKeyClass c) eqn:Hk; [apply inKeyClass_ascii in Hk; lia|].
    decide_tests. exact IH.
  - destruct (inKeyClass c) eqn:Hk; [apply inKeyClass_ascii in Hk; lia|].
    decide_tests. cbn [andb map Js.codeUnits]. cbv zeta.
    change (Js.byte "_" <? 128) with true. cbv iota.
    rewrite sanitizeUnit_high by lia. rewrite IH. reflexivity.
  - destruct (inKeyClass c) eqn:Hk; [apply inKeyClass_ascii in Hk; lia|].
    decide_tests. cbn [andb map Js.codeUnits]. cbv zeta.
    change (Js.byte "_" <? 128) with true. cbv iota.
    rewrite IH. rewrite sanitizeUnit_high; [reflexivity|].
    destruct Hs as [Hs | Hs]; [lia|].
    pose proof (utf8From_continues _ _ Hn) as Hc.
    assert (Hm : 32 <= Js.byteAt 0 name mod 64).
    { replace (Js.byteAt 0 name) with ((Js.byteAt 0 name - 128) + 2 * 64) by lia.
      rewrite Z.mod_add by lia. rewrite Z.mod_small by lia. lia. }
    lia.
  - destruct (inKeyClass c) eqn:Hk; [apply inKeyClass_ascii in Hk; lia|].
    decide_tests. cbn [andb map Js.codeUnits]. cbv zeta.
    change (Js.byte "_" <? 128) with true. cbv iota.
    rewrite IH.
    set (point := (Js.byte c - 240) * 262144 + Js.byteAt 0 name mod 64 * 4096
                  + Js.byteAt 1 name mod 64 * 64 + Js.byteAt 2 name mod 64) in *.
    assert (Hp : 0 <= point) by (unfold point; lia).
    pose proof (Z.mod_pos_bound (point - 65536) 1024 ltac:(lia)) as Hm.
    assert (Hd : - 64 <= (point - 65536) / 1024)
      by (apply Z.div_le_lower_bound; lia).
    rewrite !sanitizeUnit_high by lia. reflexivity.
Qed.

Lemma sanitizeFilename_chars (name : string) (i : nat) (c : ascii) :
  String.get i (sanitizeFilename name) = Some c -> KeyChar c \/ c = "_"%char.
Proof.
  revert i. induction name as [|d name IH]; intros i; cbn [sanitizeFilename];
    [destruct i; discriminate|].
  destruct (inKeyClass d) eqn:Hk.
  - destruct i as [|i]; simpl; [|apply IH].
    intros [= <-]. left. apply inKeyClass_KeyChar. exact Hk.
  - destruct (Js.isContinuation d); [apply IH|].
    destruct (Js.beginsFour d).
    + destruct i as [|[|i]]; simpl; [intros [= <-]; right; reflexivity
                                      | intros [= <-]; right; reflexivity | apply IH].
    + destruct i as [|i]; simpl; [intros [= <-]; right; reflexivity | apply IH].
Qed.

(** C9, as the sources have it.  A key is the optional [folder/], the
    decimal timestamp, the random identifier and the sanitized name,
    joined by [-].  The folder part is there for a folder that is not
    empty; a folder that is supplied but empty gives no prefix, as when no
    folder is supplied.  The sanitized name is the original name with
    every UTF-16 code unit outside [A-Za-z0-9.-] replaced by that of [_],
    and so holds none but the characters [A-Za-z0-9._-]. *)
Theorem generateR2Key_format :
  forall (ts : N) (id originalName : string) (folder : option string),
    let rest := Js.showNat ts ++ "-" ++ id ++ "-" ++ sanitizeFilename originalName in
    (forall f : string, folder = Some f -> f <> "" ->
       generateR2Key ts id originalName folder = f ++ "/" ++ rest)
    /\ (folder = None \/ folder = Some "" ->
        generateR2Key ts id originalName folder = rest)
    /\ (Js.wellFormed originalName = true ->
        Js.codeUnits (sanitizeFilename originalName)
        = map sanitizeUnit (Js.codeUnits originalName))
    /\ (forall (i : nat) (c : ascii),
          String.get i (sanitizeFilename originalName) = Some c ->
          KeyChar c \/ c = "_"%char).
Proof.
  intros ts id originalName folder rest. unfold generateR2Key. fold rest.
  split; [|split; [|split]].
  - intros f -> Hne. destruct f; [congruence | reflexivity].
  - intros [-> | ->]; reflexivity.
  - apply sanitizeFilename_units.
  - apply sanitizeFilename_chars.
Qed.

Lemma generateR2Key_format_witness :
  generateR2Key 1700000000123 "u-1" "درس 1.pdf" (Some "docs")
  = "docs/1700000000123-u-1-____1.pdf"
  /\ Js.wellFormed "درس 1.pdf" = true
  /\ Js.codeUnits "درس 1.pdf" = [1583; 1585; 1587; 32; 49; 46; 112; 100; 102]
  /\ Js.codeUnits (sanitizeFilename "درس 1.pdf") = [95; 95; 95; 95; 49; 46; 112; 100; 102].
Proof.
  pose proof (generateR2Key_format 1700000000123 "u-1" "درس 1.pdf" (Some "docs")) as H.
  cbv zeta in H. destruct H as (Hfolder & _ & Hunits & _).
  split; [|split; [|split]].
  - rewrite (Hfolder "docs" eq_refl); [reflexivity | discriminate].
  - reflexivity.
  - reflexivity.
  - rewrite (Hunits eq_refl). reflexivity.
Defined.

(** C9 as stated fails: a folder that is supplied but empty adds no
    [folder/] to the key, which then does not start with a slash. *)
Lemma generateR2Key_without_prefix_for_empty_folder :
  generateR2Key 1700000000123 "u-1" "notes.pdf" (Some "")
  = "1700000000123-u-1-notes.pdf"
  /\ generateR2Key 1700000000123 "u-1" "notes.pdf" (Some "")
     <> "" ++ "/" ++ "1700000000123-u-1-notes.pdf".
Proof.
  split; [reflexivity | discriminate].
Qed.

End ObjectKeys.

(* ================================================================== *)
(** * Content type of an upload *)
(* ================================================================== *)

Section ContentType.
Import UploadRoute Props Scenario.
Local Open Scope list_scope.

Lemma truthy_nonempty (s : string) : Js.truthy s = true <-> s <> "".
Proof. destruct s; simpl; split; congruence. Qed.

(** Every value of the extension table is a non-empty string, so that
    [EXT_TO_MIME[ext] || fallback] is the value read from the table
    whenever there is one. *)
Lemma guessContentType_table (filename fallback : string) :
  R2Upload.guessContentType filename fallback
  = match R2Upload.lookup (R2Upload.extensionOf filename) R2Upload.EXT_TO_MIME with
    | Some value => value
    | None => R2Upload.Str fallback
    end.
Proof.
  unfold R2Upload.guessContentType, R2Upload.lookup.
  generalize (R2Upload.extensionOf filename). intros ext.
  unfold R2Upload.EXT_TO_MIME, R2Upload.lookupOwn.
  repeat match goal with
         | |- context [String.eqb ?k ext] => destruct (String.eqb k ext); [reflexivity|]
         end.
  destruct (existsb (String.eqb ext) R2Upload.inheritedNames); reflexivity.
Qed.

Lemma contentTypeOf_declared (f : File) :
  file_type f <> "" ->
  file_type f <> "application/octet-stream" ->
  contentTypeOf f = R2Upload.Str (file_type f).
Proof.
  intros Hne Hoct. unfold contentTypeOf.
  apply truthy_nonempty in Hne. rewrite Hne.
  apply String.eqb_neq in Hoct. rewrite Hoct. reflexivity.
Qed.

Lemma contentTypeOf_guessed (f : File) :
  file_type f = "" \/ file_type f = "application/octet-stream" ->
  contentTypeOf f
  = R2Upload.guessContentType (file_name f) "application/octet-stream".
Proof.
  intros [H|H]; unfold contentTypeOf; rewrite H; reflexivity.
Qed.

(** What [POST] answers to a signed-in caller who sends a file, when the
    bucket is set: the store is run once, with the options built from the
    key and the content type of the file, and the stream is the progress
    events of that run followed by its terminal event. *)
Lemma post_runs_store_once (env : R2Config.Env) (store : Store) (ts : N) (id : string)
    (session : option string) (folder : option FormEntry) (f : File) :
  Js.truthyOpt session = true ->
  Js.truthy (R2Config.R2_BUCKET_NAME env) = true ->
  let pr := mkPrepared f (R2Upload.generateR2Key ts id (file_name f) (resolveFolder folder))
                       (contentTypeOf f) in
  POST env store ts id session (Some (EntryFile f)) folder
  = EventStream
      (mkController
         (queue (ctrl (afterCallbacks env store pr))
          ++ [terminalOf env pr
                (run_outcome (store (uploadParams (R2Config.R2_BUCKET_NAME env) pr)))])
         true)
      Normal.
Proof.
  intros Hs Hb pr. unfold POST. rewrite Hs. simpl negb. cbv iota.
  fold pr. rewrite (start_with_bucket env store pr Hb). reflexivity.
Qed.

(** C10 fails on the code: the route does not give every unknown
    extension the fallback.  For a file named "a.constructor" that
    declares no type, the content type is read from the extension table
    under the name [constructor], which the table inherits: it is the
    function found there, not the string "application/octet-stream".
    That value is the [ContentType] of the options the store is run
    with, and the [contentType] of the success event that ends the
    stream. *)
Theorem inherited_extension_is_not_given_the_fallback :
  forall (env : R2Config.Env) (store : Store) (ts : N) (id : string)
         (session : option string) (folder : option FormEntry) (size : Z),
    let f := mkFile "a.constructor" "" size in
    let key := R2Upload.generateR2Key ts id "a.constructor" (resolveFolder folder) in
    let params :=
      uploadParams (R2Config.R2_BUCKET_NAME env)
                   (mkPrepared f key (R2Upload.Inherited "constructor")) in
    Js.truthyOpt session = true ->
    Js.truthy (R2Config.R2_BUCKET_NAME env) = true ->
    run_outcome (store params) = Resolved ->
    up_ContentType params = R2Upload.Inherited "constructor"
    /\ R2Upload.guessContentType "a.constructor" "application/octet-stream"
       <> R2Upload.Str "application/octet-stream"
    /\ exists progressEvents : list Event,
         Forall isProgress progressEvents
         /\ POST env store ts id session (Some (EntryFile f)) folder
            = EventStream
                (mkController
                   (progressEvents
                    ++ [Done key
                             (R2Upload.joinPublicUrl (R2Config.R2_PUBLIC_URL env) key)
                             "a.constructor" (R2Upload.Inherited "constructor") size])
                   true)
                Normal.
Proof.
  intros env store ts id session folder size f key params Hs Hb Hres.
  split; [reflexivity|]. split; [discriminate|].
  exists (queue (ctrl (afterCallbacks env store
                         (mkPrepared f key (R2Upload.Inherited "constructor"))))).
  split; [apply (inv_progress_only _ (fire_inv _ _ _ initial_inv))|].
  rewrite (post_runs_store_once env store ts id session folder f Hs Hb).
  change (contentTypeOf f) with (R2Upload.Inherited "constructor").
  change (file_name f) with "a.constructor". fold key.
  unfold params in Hres. rewrite Hres. reflexivity.
Qed.

Lemma inherited_extension_is_not_given_the_fallback_witness :
  Js.truthyOpt (Some "alice") = true
  /\ Js.truthy (R2Config.R2_BUCKET_NAME envFull) = true
  /\ exists progressEvents : list Event,
       POST envFull storeOk 1700000000123 "u-1" (Some "alice")
            (Some (EntryFile (mkFile "a.constructor" "" 1000))) None
       = EventStream
           (mkController
              (progressEvents
               ++ [Done "1700000000123-u-1-a.constructor"
                        "https://cdn.example.org/1700000000123-u-1-a.constructor"
                        "a.constructor" (R2Upload.Inherited "constructor") 1000])
              true)
           Normal.
Proof.
  split; [reflexivity|]. split; [reflexivity|].
  destruct (inherited_extension_is_not_given_the_fallback
              envFull storeOk 1700000000123 "u-1" (Some "alice") None 1000
              eq_refl eq_refl eq_refl) as (_ & _ & progressEvents & _ & Hpost).
  exists progressEvents. exact Hpost.
Defined.

(** X31. A content type that the client declares, other than the empty
    one and "application/octet-stream", takes precedence over the
    extension of the file name: for a signed-in caller and a bucket that
    is set, the route runs the store once, with that type as
    [ContentType], and when the run succeeds the success event that ends
    the stream reports it. *)
Theorem declared_content_type_reaches_store_and_success_event :
  forall (env : R2Config.Env) (store : Store) (ts : N) (id : string)
         (session : option string) (folder : option FormEntry) (f : File),
    let key := R2Upload.generateR2Key ts id (file_name f) (resolveFolder folder) in
    let params :=
      uploadParams (R2Config.R2_BUCKET_NAME env)
                   (mkPrepared f key (R2Upload.Str (file_type f))) in
    Js.truthyOpt session = true ->
    Js.truthy (R2Config.R2_BUCKET_NAME env) = true ->
    file_type f <> "" ->
    file_type f <> "application/octet-stream" ->
    up_ContentType params = R2Upload.Str (file_type f)
    /\ exists progressEvents : list Event,
         Forall isProgress progressEvents
         /\ POST env store ts id session (Some (EntryFile f)) folder
            = EventStream
                (mkController
                   (progressEvents
                    ++ [match run_outcome (store params) with
                        | Resolved =>
                            Done key
                                 (R2Upload.joinPublicUrl (R2Config.R2_PUBLIC_URL env) key)
                                 (file_name f) (R2Upload.Str (file_type f)) (file_size f)
                        | Rejected message => Error (errorMessage message)
                        end])
                   true)
                Normal.
Proof.
  intros env store ts id session folder f key params Hs Hb Hne Hoct.
  split; [reflexivity|].
  exists (queue (ctrl (afterCallbacks env store
                         (mkPrepared f key (R2Upload.Str (file_type f)))))).
  split; [apply (inv_progress_only _ (fire_inv _ _ _ initial_inv))|].
  rewrite (post_runs_store_once env store ts id session folder f Hs Hb).
  rewrite (contentTypeOf_declared f Hne Hoct). fold key. fold params.
  unfold terminalOf. destruct (run_outcome (store params)); reflexivity.
Qed.

Lemma declared_content_type_reaches_store_and_success_event_witness :
  Js.truthyOpt (Some "alice") = true
  /\ Js.truthy (R2Config.R2_BUCKET_NAME envFull) = true
  /\ exists progressEvents : list Event,
       POST envFull storeOk 1700000000123 "u-1" (Some "alice")
            (Some (EntryFile (mkFile "clip.mp4" "video/quicktime" 1000))) None
       = EventStream
           (mkController
              (progressEvents
               ++ [Done "1700000000123-u-1-clip.mp4"
                        "https://cdn.example.org/1700000000123-u-1-clip.mp4"
                        "clip.mp4" (R2Upload.Str "video/quicktime") 1000])
              true)
           Normal.
Proof.
  split; [reflexivity|]. split; [reflexivity|].
  destruct (declared_content_type_reaches_store_and_success_event
              envFull storeOk 1700000000123 "u-1" (Some "alice") None
              (mkFile "clip.mp4" "video/quicktime" 1000)
              eq_refl eq_refl ltac:(discriminate) ltac:(discriminate))
    as (_ & progressEvents & _ & Hpost).
  exists progressEvents. exact Hpost.
Defined.

End ContentType.

(* ================================================================== *)
(** * Access to a course *)
(* ================================================================== *)

Section CourseAccess.
Import Lms Props Scenario.
Local Open Scope list_scope.

Lemma nonempty_length {A : Type} (l : list A) :
  (0 <? Z.of_nat (List.length l)) = true <-> l <> [].
Proof.
  destruct l as [|x l]; simpl.
  - split; [discriminate | congruence].
  - split; [discriminate | intros _; apply Z.ltb_lt; lia].
Qed.

Lemma filter_nonempty {A : Type} (p : A -> bool) (l : list A) :
  filter p l <> [] <-> exists x, In x l /\ p x = true.
Proof.
  split.
  - intros H. destruct (filter p l) as [|x r] eqn:E; [congruence|].
    exists x. apply filter_In. rewrite E. left. reflexivity.
  - intros (x & Hin & Hp) E.
    assert (Hx : In x (filter p l)) by (apply filter_In; split; assumption).
    rewrite E in Hx. exact Hx.
Qed.

Lemma has_active_purchase (userId : string) (c : Course) :
  (0 <? Z.of_nat (List.length (activePurchasesOf userId c))) = true
  <-> exists p : Purchase,
        In p (co_purchases c) /\ pu_userId p = userId /\ pu_status p = "ACTIVE".
Proof.
  rewrite nonempty_length. unfold activePurchasesOf. rewrite filter_nonempty.
  split; intros (p & Hin & H); exists p; (split; [exact Hin|]).
  - apply andb_true_iff in H. destruct H as [Hu Hs].
    split; apply String.eqb_eq; assumption.
  - destruct H as [Hu Hs]. apply andb_true_iff.
    split; apply String.eqb_eq; assumption.
Qed.

(** C8. The access predicate of the catalog and lock evaluation holds
    exactly when the price of the course is 0 or the user has an ACTIVE
    purchase of the course. *)
Theorem course_access_iff_free_or_active_purchase :
  forall (userId : string) (c : Course),
    courseAccess userId c = true
    <-> (co_price c = Some 0
         \/ exists p : Purchase,
              In p (co_purchases c) /\ pu_userId p = userId /\ pu_status p = "ACTIVE").
Proof.
  intros userId c. unfold courseAccess.
  destruct (co_price c) as [price|].
  - rewrite orb_true_iff, has_active_purchase, Z.eqb_eq.
    split; intros [H|H]; auto; left; congruence.
  - rewrite has_active_purchase.
    split; [intros H; right; exact H | intros [H|H]; [discriminate | exact H]].
Qed.

(** The two routes that evaluate locks compute [hasAccess] with
    [courseAccess] once the user and the published course are known. *)
Lemma content_route_access (db : Db) (userId courseId : string) (course : Course) :
  Js.truthy userId = true ->
  findPublishedCourse db courseId = Some course ->
  ContentRoute.hasAccessOf db (Some userId) courseId = courseAccess userId course.
Proof.
  intros Hu Hc. unfold ContentRoute.hasAccessOf. rewrite Hu, Hc. reflexivity.
Qed.

Lemma free_course_without_purchase_accessible :
  courseAccess "alice" freeCourse = true.
Proof. reflexivity. Qed.

Lemma paid_course_without_active_purchase_inaccessible :
  courseAccess "alice" paidCourse = false /\ courseAccess "carol" paidCourse = false
  /\ courseAccess "bob" paidCourse = true.
Proof. repeat split. Qed.

Lemma validPurchase_iff (userId : string) (course : Course) :
  AccessRoute.validPurchase userId course = true
  <-> exists p : Purchase,
        In p (co_purchases course) /\ pu_userId p = userId /\ pu_status p = "ACTIVE".
Proof.
  unfold AccessRoute.validPurchase, purchasesOf. rewrite existsb_exists.
  split.
  - intros (p & Hin & Hs). apply filter_In in Hin. destruct Hin as [Hin Hu].
    exists p. repeat split; [exact Hin | |]; apply String.eqb_eq; assumption.
  - intros (p & Hin & Hu & Hs). exists p. split.
    + apply filter_In. split; [exact Hin | apply String.eqb_eq; exact Hu].
    + apply String.eqb_eq. exact Hs.
Qed.

(** C2, as the sources have it.  For a signed-in user and a published
    course the access route answers with one value in both fields: that
    value is true exactly when the user has an ACTIVE purchase of the
    course, and the price of the course plays no part. *)
Theorem access_route_reports_active_purchase_twice :
  forall (db : Db) (userId courseId : string) (course : Course),
    Js.truthy userId = true ->
    findPublishedCourse db courseId = Some course ->
    exists v : bool,
      AccessRoute.GET db (Some userId) courseId = AccessRoute.AccessJson v v
      /\ (v = true
          <-> exists p : Purchase,
                In p (co_purchases course)
                /\ pu_userId p = userId /\ pu_status p = "ACTIVE").
Proof.
  intros db userId courseId course Hu Hc.
  exists (AccessRoute.validPurchase userId course). split.
  - unfold AccessRoute.GET. rewrite Hu, Hc. reflexivity.
  - apply validPurchase_iff.
Qed.

Lemma access_route_reports_active_purchase_twice_witness :
  Js.truthy "bob" = true
  /\ findPublishedCourse db1 "c2" = Some paidCourse
  /\ exists v : bool,
       AccessRoute.GET db1 (Some "bob") "c2" = AccessRoute.AccessJson v v
       /\ (v = true
           <-> exists p : Purchase,
                 In p (co_purchases paidCourse)
                 /\ pu_userId p = "bob" /\ pu_status p = "ACTIVE").
Proof.
  split; [reflexivity|]. split; [reflexivity|].
  apply (access_route_reports_active_purchase_twice db1 "bob" "c2" paidCourse);
    reflexivity.
Defined.

(** C2 as stated fails: for a free published course that the signed-in
    user has not purchased, the access route answers [hasAccess = false]. *)
Lemma access_route_free_course_without_purchase :
  findPublishedCourse db1 "c1" = Some freeCourse
  /\ co_price freeCourse = Some 0
  /\ co_purchases freeCourse = []
  /\ AccessRoute.GET db1 (Some "alice") "c1" = AccessRoute.AccessJson false false
  /\ AccessRoute.GET db1 (Some "alice") "c1" <> AccessRoute.AccessJson true false.
Proof. repeat split. discriminate. Qed.

End CourseAccess.

(* ================================================================== *)
(** * Annotations of the content route *)
(* ================================================================== *)

Section ContentAnnotations.
Import Lms Props Scenario ContentRoute.
Local Open Scope list_scope.

Lemma mapiFrom_ext {A B : Type} (f : A -> nat -> B) (g : A -> B) (start : nat) (l : list A) :
  (forall x i, f x i = g x) -> mapiFrom f start l = map g l.
Proof.
  intros H. revert start. induction l as [|x l IH]; intros start; simpl; [reflexivity|].
  rewrite H, IH. reflexivity.
Qed.

Lemma mapiFrom_nth {A B : Type} (f : A -> nat -> B) (start : nat) (l : list A) (i : nat) :
  nth_error (mapiFrom f start l) i
  = option_map (fun x => f x (start + i)%nat) (nth_error l i).
Proof.
  revert start i. induction l as [|x l IH]; intros start i; simpl.
  - destruct i; reflexivity.
  - destruct i as [|i]; simpl.
    + rewrite Nat.add_0_r. reflexivity.
    + rewrite IH. rewrite Nat.add_succ_r. reflexivity.
Qed.

Lemma an_content_annotate (hasAccess signedIn : bool) (all : list Content)
    (content : Content) (index : nat) :
  an_content (annotate hasAccess signedIn all content index) = content.
Proof. destruct content; reflexivity. Qed.

Lemma annotateAll_contents (hasAccess signedIn : bool) (all : list Content) :
  map an_content (annotateAll hasAccess signedIn all) = all.
Proof.
  unfold annotateAll, mapi. generalize all at 1. generalize 0%nat.
  induction all as [|x l IH]; intros start ctx; simpl; [reflexivity|].
  rewrite an_content_annotate, IH. reflexivity.
Qed.

Lemma annotate_without_access (signedIn : bool) (all : list Content)
    (content : Content) (index : nat) :
  annotate false signedIn all content index = withoutAccess content.
Proof.
  destruct content as [ch|q]; unfold annotate, withoutAccess, requiresQuiz.
  - unfold requiredQuizStep.
    destruct (ch_requirePassingQuiz (ci_chapter ch)
              && Js.truthyOpt (ch_requiredQuizId (ci_chapter ch))); reflexivity.
  - reflexivity.
Qed.

(** C4, as the sources have it.  The response of the content route has
    one element per item of the merged catalog, in order, each with its
    [isLocked] and [lockReason].  When the caller has no access to the
    course, an item is locked exactly when it is a chapter that requires
    a quiz to be passed, with the reason that the course must be
    purchased first, whether the chapter is free or not; every other
    chapter and every quiz is left unlocked, without a reason. *)
Theorem content_without_access_locks_only_quiz_gated_chapters :
  forall (db : Db) (userId : option string) (courseId : string),
    map an_content (GET db userId courseId) = catalogOf db userId courseId
    /\ (hasAccessOf db userId courseId = false ->
        GET db userId courseId = map withoutAccess (catalogOf db userId courseId)).
Proof.
  intros db userId courseId. split.
  - unfold GET, catalogOf. apply annotateAll_contents.
  - intros Hno. unfold GET, catalogOf. rewrite Hno.
    unfold annotateAll, mapi. apply mapiFrom_ext.
    intros x i. apply annotate_without_access.
Qed.

Lemma content_without_access_locks_only_quiz_gated_chapters_witness :
  hasAccessOf db1 (Some "alice") "c2" = false
  /\ GET db1 (Some "alice") "c2"
     = map withoutAccess (catalogOf db1 (Some "alice") "c2").
Proof.
  split; [reflexivity|].
  apply (proj2 (content_without_access_locks_only_quiz_gated_chapters
                  db1 (Some "alice") "c2")).
  reflexivity.
Defined.

(** C4 as stated fails: "alice" has no access to the paid course "c2",
    its chapter is not free, and the content route leaves that chapter
    and the quiz unlocked, without a reason. *)
Lemma content_route_leaves_paid_chapter_unlocked :
  hasAccessOf db1 (Some "alice") "c2" = false
  /\ ch_isFree paidLesson = false
  /\ GET db1 (Some "alice") "c2"
     = [ mkAnnotated (CChapter (mkChapterItem paidLesson None)) false None;
         mkAnnotated (CQuiz (mkQuizItem paidQuiz None)) false None ]
  /\ ~ (forall a : Annotated,
          In a (GET db1 (Some "alice") "c2") -> an_isLocked a = true).
Proof.
  split; [reflexivity|]. split; [reflexivity|]. split; [vm_compute; reflexivity|].
  intros H.
  specialize (H (mkAnnotated (CChapter (mkChapterItem paidLesson None)) false None)).
  assert (Hin : In (mkAnnotated (CChapter (mkChapterItem paidLesson None)) false None)
                   (GET db1 (Some "alice") "c2")) by (vm_compute; left; reflexivity).
  specialize (H Hin). discriminate.
Qed.

End ContentAnnotations.

(* ================================================================== *)
(** * The sequential rule *)
(* ================================================================== *)

Section SequentialRule.
Import Lms Props Scenario ContentRoute.
Local Open Scope list_scope.

Lemma bestPercentage_ge_first (first : Z) (rest : list Z) :
  first <= bestPercentage first rest.
Proof.
  unfold bestPercentage. revert first.
  induction rest as [|r rest IH]; intros first; simpl; [lia|].
  destruct (first <? r) eqn:E.
  - apply Z.ltb_lt in E. specialize (IH r). lia.
  - apply IH.
Qed.

Lemma bestPercentage_isBest (first : Z) (rest : list Z) :
  isBest (bestPercentage first rest) (first :: rest).
Proof.
  unfold bestPercentage. revert first.
  induction rest as [|r rest IH]; intros first; simpl.
  - split; [left; reflexivity | constructor; [lia | constructor]].
  - destruct (first <? r) eqn:E.
    + apply Z.ltb_lt in E. destruct (IH r) as [Hin Hall]. split.
      * right. exact Hin.
      * inversion Hall as [|? ? Hr Hrest]; subst.
        constructor; [lia | constructor; assumption].
    + apply Z.ltb_ge in E. destruct (IH first) as [Hin Hall]. split.
      * destruct Hin as [Hin|Hin]; [left; exact Hin | right; right; exact Hin].
      * inversion Hall as [|? ? Hf Hrest]; subst.
        constructor; [exact Hf | constructor; [lia | exact Hrest]].
Qed.

Lemma isBest_unique (b b' : Z) (results : list Z) :
  isBest b results -> isBest b' results -> b = b'.
Proof.
  intros [Hin Hall] [Hin' Hall']. rewrite Forall_forall in Hall, Hall'.
  specialize (Hall _ Hin'). specialize (Hall' _ Hin). lia.
Qed.

(** The test of the loop is the rule of the specification: no result, or
    a greatest percentage below 50. *)
Lemma notPassed_iff (results : list Z) :
  notPassed results = true <-> NotPassed results.
Proof.
  unfold notPassed, NotPassed. destruct results as [|first rest].
  - split; [intros _; left; reflexivity | reflexivity].
  - rewrite Z.ltb_lt. split.
    + intros H. right. exists (bestPercentage first rest).
      split; [apply bestPercentage_isBest | exact H].
    + intros [H | (b & Hb & Hlt)]; [discriminate|].
      rewrite (isBest_unique _ _ _ (bestPercentage_isBest first rest) Hb). exact Hlt.
Qed.

Lemma nearest_step_quiz (all : list Content) (i j : nat) (q q' : QuizItem) :
  nth_error all i = Some (CQuiz q) ->
  nearestPrecedingQuiz all (S i) j q' -> j = i /\ q' = q.
Proof.
  intros Hi (Hlt & Hj & Hbetween).
  destruct (Nat.eq_dec j i) as [->|Hne].
  - split; [reflexivity | congruence].
  - exfalso. apply (Hbetween i q); [lia | exact Hi].
Qed.

Lemma nearest_step_other (all : list Content) (i j : nat) (q : QuizItem) :
  (forall q', nth_error all i <> Some (CQuiz q')) ->
  nearestPrecedingQuiz all (S i) j q <-> nearestPrecedingQuiz all i j q.
Proof.
  intros Hi. split; intros (Hlt & Hj & Hbetween).
  - assert (j <> i) by (intros ->; exact (Hi q Hj)).
    split; [lia|]. split; [exact Hj|].
    intros k q' Hk. apply Hbetween. lia.
  - split; [lia|]. split; [exact Hj|].
    intros k q' Hk. destruct (Nat.eq_dec k i) as [->|Hne]; [apply Hi|].
    apply Hbetween. lia.
Qed.

(** The loop answers with the title of the nearest preceding quiz when
    that quiz is not passed, and with nothing in every other case. *)
Lemma scanBack_spec (all : list Content) (index : nat) (title : string) :
  scanBack all index = Some title
  <-> exists (j : nat) (q : QuizItem),
        nearestPrecedingQuiz all index j q
        /\ NotPassed (orEmptyResults (qi_quizResults q))
        /\ title = qz_title (qi_quiz q).
Proof.
  induction index as [|i IH]; simpl.
  - split; [discriminate|]. intros (j & q & (Hlt & _) & _). lia.
  - destruct (nth_error all i) as [[ch|q]|] eqn:Hi.
    + rewrite IH. split; intros (j & q & Hn & Hrest); exists j, q;
        (split; [|exact Hrest]);
        apply (nearest_step_other all i j q); try exact Hn;
        intros q'; rewrite Hi; discriminate.
    + split.
      * destruct (notPassed (orEmptyResults (qi_quizResults q))) eqn:E; [|discriminate].
        intros [= <-]. exists i, q. split; [|split].
        -- split; [lia|]. split; [exact Hi|]. intros k q' Hk. lia.
        -- apply notPassed_iff. exact E.
        -- reflexivity.
      * intros (j & q' & Hn & Hnp & ->).
        destruct (nearest_step_quiz all i j q q' Hi Hn) as [-> ->].
        apply notPassed_iff in Hnp. rewrite Hnp. reflexivity.
    + rewrite IH. split; intros (j & q & Hn & Hrest); exists j, q;
        (split; [|exact Hrest]);
        apply (nearest_step_other all i j q); try exact Hn;
        intros q'; rewrite Hi; discriminate.
Qed.

Lemma scanBack_locked_iff (all : list Content) (index : nat) :
  (exists title, scanBack all index = Some title) <-> LockedByNearestQuiz all index.
Proof.
  unfold LockedByNearestQuiz. split.
  - intros (title & H). apply scanBack_spec in H.
    destruct H as (j & q & Hn & Hnp & _). exists j, q. split; assumption.
  - intros (j & q & Hn & Hnp). exists (qz_title (qi_quiz q)).
    apply scanBack_spec. exists j, q.
    split; [exact Hn | split; [exact Hnp | reflexivity]].
Qed.

(** Items before the nearest preceding quiz play no part in the answer. *)
Lemma scanBack_ignores_earlier (all all' : list Content) (index j : nat) (q : QuizItem) :
  nearestPrecedingQuiz all index j q ->
  (forall k, (j <= k < index)%nat -> nth_error all' k = nth_error all k) ->
  scanBack all' index = scanBack all index.
Proof.
  intros (Hlt & Hj & Hbetween) Hsame.
  induction index as [|i IH]; [lia|]. simpl.
  rewrite (Hsame i) by lia.
  destruct (Nat.eq_dec j i) as [->|Hne].
  - rewrite Hj. reflexivity.
  - destruct (nth_error all i) as [[ch|q']|] eqn:Hi.
    + apply IH; [lia | | ]; intros; [apply Hbetween | apply Hsame]; lia.
    + exfalso. apply (Hbetween i q'); [lia | exact Hi].
    + apply IH; [lia | | ]; intros; [apply Hbetween | apply Hsame]; lia.
Qed.

Lemma sequentialStep_locked (all : list Content) (index : nat) (st : bool * option string) :
  fst (sequentialStep true all index st) = true
  <-> fst st = true \/ LockedByNearestQuiz all index.
Proof.
  unfold sequentialStep. rewrite <- scanBack_locked_iff.
  destruct (scanBack all index) as [title|]; simpl.
  - split; [intros _; right; exists title; reflexivity | reflexivity].
  - split; [intros H; left; exact H | intros [H | [t H]]; [exact H | discriminate]].
Qed.

(** The callback, taken with access and a signed-in user, on the results
    that the items carry: a quiz is locked if and only if the nearest
    quiz before it is not passed; a chapter is locked if and only if its
    own quiz requirement locks it or that same condition holds; and the
    items before that quiz play no part. *)
Lemma annotate_locks_by_nearest_quiz :
  forall (all : list Content) (index : nat),
    (forall q : QuizItem,
       an_isLocked (annotate true true all (CQuiz q) index) = true
       <-> LockedByNearestQuiz all index)
    /\ (forall ch : ChapterItem,
          an_isLocked (annotate true true all (CChapter ch) index) = true
          <-> fst (requiredQuizStep true true ch) = true \/ LockedByNearestQuiz all index)
    /\ (forall content : Content,
          an_isLocked (annotate true true all content index) = true ->
          an_lockReason (annotate true true all content index) = Some mustPassRequiredQuiz
          \/ exists (j : nat) (q : QuizItem),
               nearestPrecedingQuiz all index j q
               /\ an_lockReason (annotate true true all content index)
                  = Some (mustPassQuiz (qz_title (qi_quiz q))))
    /\ (forall (all' : list Content) (j : nat) (q : QuizItem),
          nearestPrecedingQuiz all index j q ->
          (forall k, (j <= k < index)%nat -> nth_error all' k = nth_error all k) ->
          forall content : Content,
            an_isLocked (annotate true true all' content index)
            = an_isLocked (annotate true true all content index)).
Proof.
  intros all index. split; [|split; [|split]].
  - intros q. unfold annotate. cbn [an_isLocked andb].
    rewrite sequentialStep_locked. simpl. split; [intros [H|H]; [discriminate|exact H] | auto].
  - intros ch. unfold annotate. cbn [an_isLocked].
    destruct (requiredQuizStep true true ch) as [locked reason] eqn:E. cbn [fst].
    destruct locked; cbn [negb andb].
    + unfold sequentialStep. simpl. split; auto.
    + rewrite sequentialStep_locked. simpl. reflexivity.
  - intros content. destruct content as [ch|q]; unfold annotate; cbn [an_isLocked an_lockReason].
    + assert (Hreq : requiredQuizStep true true ch = (true, Some mustPassRequiredQuiz)
                     \/ requiredQuizStep true true ch = (false, None)).
      { unfold requiredQuizStep.
        destruct (ch_requirePassingQuiz (ci_chapter ch)
                  && Js.truthyOpt (ch_requiredQuizId (ci_chapter ch))); [|right; reflexivity].
        simpl. destruct (firstRequiredResult ch) as [pct|]; [|left; reflexivity].
        destruct (pct <? 50); [left | right]; reflexivity. }
      destruct Hreq as [-> | ->]; cbn [fst negb andb].
      * intros _. left. reflexivity.
      * unfold sequentialStep.
        destruct (scanBack all index) as [title|] eqn:E; simpl; [|discriminate].
        intros _. right. apply scanBack_spec in E.
        destruct E as (j & q & Hn & _ & ->). exists j, q. split; [exact Hn | reflexivity].
    + unfold sequentialStep. cbn [andb].
      destruct (scanBack all index) as [title|] eqn:E; simpl; [|discriminate].
      intros _. right. apply scanBack_spec in E.
      destruct E as (j & q' & Hn & _ & ->). exists j, q'. split; [exact Hn | reflexivity].
  - intros all' j q Hn Hsame content.
    pose proof (scanBack_ignores_earlier all all' index j q Hn Hsame) as Hscan.
    destruct content as [ch|q']; unfold annotate, sequentialStep; cbn [an_isLocked];
      rewrite Hscan; reflexivity.
Qed.

End SequentialRule.

(* ================================================================== *)
(** * The sequential rule in the routes *)
(* ================================================================== *)

Section SequentialRuleInRoutes.
Import Lms Props Scenario.
Local Open Scope list_scope.

(** With access, the content route annotates every item of the catalog
    by the callback taken at [hasAccess = true] and a signed-in user. *)
Lemma content_route_with_access (db : Db) (userId courseId : string) (index : nat) :
  Js.truthy userId = true ->
  ContentRoute.hasAccessOf db (Some userId) courseId = true ->
  nth_error (ContentRoute.GET db (Some userId) courseId) index
  = option_map
      (fun content =>
         ContentRoute.annotate true true (catalogOf db (Some userId) courseId) content index)
      (nth_error (catalogOf db (Some userId) courseId) index).
Proof.
  intros Hu Ha. unfold ContentRoute.GET, catalogOf. rewrite Ha. simpl Js.truthyOpt.
  rewrite Hu. unfold ContentRoute.annotateAll, mapi.
  rewrite mapiFrom_nth. reflexivity.
Qed.

Lemma findIndexFrom_none {A : Type} (p : A -> bool) (start : nat) (l : list A) :
  findIndexFrom p start l = None -> forall x, In x l -> p x = false.
Proof.
  revert start. induction l as [|y l IH]; intros start H x Hin; [contradiction|].
  simpl in H. destruct (p y) eqn:E; [discriminate|].
  destruct Hin as [<-|Hin]; [exact E | exact (IH _ H x Hin)].
Qed.

Lemma findIndexFrom_some {A : Type} (p : A -> bool) (start : nat) (l : list A) (i : nat) :
  findIndexFrom p start l = Some i ->
  exists (k : nat) (x : A), i = (start + k)%nat /\ nth_error l k = Some x /\ p x = true.
Proof.
  revert start. induction l as [|y l IH]; intros start H; [discriminate|].
  simpl in H. destruct (p y) eqn:E.
  - injection H as <-. exists 0%nat, y. rewrite Nat.add_0_r. repeat split. exact E.
  - destruct (IH _ H) as (k & x & -> & Hk & Hp).
    exists (S k), x. repeat split; [lia | exact Hk | exact Hp].
Qed.

(** In the first-content route the loop starts from the index found by
    identifier; when identifiers are distinct this is the index of the
    item, and the rule is the same as in the content route. *)
Lemma first_content_sequentialLocked (all : list Content) (index : nat) (item : Content) :
  NoDup (map contentId all) ->
  nth_error all index = Some item ->
  FirstContentRoute.sequentialLocked all (contentId item) = true
  <-> LockedByNearestQuiz all index.
Proof.
  intros Hnd Hitem. unfold FirstContentRoute.sequentialLocked, findIndex.
  destruct (findIndexFrom (fun c => String.eqb (contentId c) (contentId item)) 0 all)
    as [i|] eqn:E.
  - destruct (findIndexFrom_some _ _ _ _ E) as (k & x & -> & Hk & Hp). simpl.
    apply String.eqb_eq in Hp.
    assert (k = index) as ->.
    { rewrite NoDup_nth_error in Hnd. apply Hnd.
      - rewrite length_map. apply nth_error_Some. rewrite Hk. discriminate.
      - rewrite !nth_error_map, Hk, Hitem. simpl. rewrite Hp. reflexivity. }
    rewrite <- scanBack_locked_iff.
    destruct (scanBack all index) as [title|].
    + split; [intros _; exists title; reflexivity | reflexivity].
    + split; [discriminate | intros [t Ht]; discriminate].
  - apply findIndexFrom_none with (x := item) in E.
    + rewrite String.eqb_refl in E. discriminate.
    + eapply nth_error_In. exact Hitem.
Qed.

(** The explicit quiz requirement reads the one result the query
    returned: the chapter is locked when that result is missing or
    below 50. *)
Lemma requiredQuizStep_locked (ch : ChapterItem) :
  fst (ContentRoute.requiredQuizStep true true ch) = true
  <-> requiresQuiz (CChapter ch) = true
      /\ (ContentRoute.firstRequiredResult ch = None
          \/ exists percentage : Z,
               ContentRoute.firstRequiredResult ch = Some percentage /\ percentage < 50).
Proof.
  unfold ContentRoute.requiredQuizStep, requiresQuiz.
  destruct (ch_requirePassingQuiz (ci_chapter ch)
            && Js.truthyOpt (ch_requiredQuizId (ci_chapter ch))); simpl.
  - destruct (ContentRoute.firstRequiredResult ch) as [pct|]; simpl.
    + destruct (pct <? 50) eqn:E; simpl.
      * apply Z.ltb_lt in E. split; [|reflexivity].
        intros _. split; [reflexivity|]. right. exists pct. split; [reflexivity | exact E].
      * apply Z.ltb_ge in E. split; [discriminate|].
        intros [_ [H | (p & [= <-] & Hlt)]]; [discriminate | lia].
    + split; [|reflexivity]. intros _. split; [reflexivity | left; reflexivity].
  - split; [discriminate | intros [H _]; discriminate].
Qed.

(** C1 fails on the code.  "alice" has two results for quiz "q2", 80 and
    later 40, so that her best percentage is 80; the query of the
    required quiz keeps the latest result only, 40, and both routes lock
    the chapter that requires "q2": the content route marks it locked,
    and the first-content route passes over it. *)
Theorem required_quiz_lock_reads_latest_result :
  allResults db2 "alice" "q2" = [80; 40]
  /\ isBest 80 (allResults db2 "alice" "q2")
  /\ latestResult db2 "alice" "q2" = [40]
  /\ ContentRoute.GET db2 (Some "alice") "c1"
     = [ ContentRoute.mkAnnotated
           (CChapter (mkChapterItem lesson2 (Some (mkRequiredQuiz quiz2 (Some [40])))))
           true (Some mustPassRequiredQuiz);
         ContentRoute.mkAnnotated
           (CQuiz (mkQuizItem quiz2 (Some [80; 40])))
           false None ]
  /\ FirstContentRoute.GET db2 (Some "alice") "c1"
     = FirstContentRoute.FirstJson (Some "q2") (Some "quiz").
Proof.
  split; [reflexivity|].
  split.
  { split; [left; reflexivity|].
    change (Forall (fun r => r <= 80) [80; 40]).
    constructor; [lia | constructor; [lia | constructor]]. }
  split; [reflexivity|].
  split; vm_compute; reflexivity.
Qed.

End SequentialRuleInRoutes.

(* ================================================================== *)
(** * What the catalog of the content route holds *)
(* ================================================================== *)

Section CatalogContents.
Import Lms Props.
Local Open Scope list_scope.

Lemma insertBy_In {A : Type} (key : A -> Z) (x y : A) (l : list A) :
  In y (insertBy key x l) <-> y = x \/ In y l.
Proof.
  induction l as [|z l IH]; simpl.
  - split; [intros [H|[]]; left; congruence | intros [H|[]]; left; congruence].
  - destruct (key x <=? key z); simpl.
    + split; [intros [H|H]; [left; congruence | right; exact H]
             | intros [H|H]; [left; congruence | right; exact H]].
    + rewrite IH. split.
      * intros [H|[H|H]]; [right; left; exact H | left; exact H | right; right; exact H].
      * intros [H|[H|H]]; [right; left; exact H | left; exact H | right; right; exact H].
Qed.

Lemma sortBy_In {A : Type} (key : A -> Z) (y : A) (l : list A) :
  In y (sortBy key l) <-> In y l.
Proof.
  induction l as [|x l IH]; simpl; [reflexivity|].
  rewrite insertBy_In, IH. split; intros [H|H]; auto.
Qed.

Lemma queryUser_access (userId : string) :
  Js.truthy userId = true ->
  ContentRoute.queryUser true (Some userId) = Some userId.
Proof. intros H. unfold ContentRoute.queryUser. rewrite H. reflexivity. Qed.

(** With access, a quiz of the catalog carries all the results of the
    learner for that quiz. *)
Lemma catalog_quiz_results (db : Db) (userId courseId : string) (j : nat) (q : QuizItem) :
  Js.truthy userId = true ->
  ContentRoute.hasAccessOf db (Some userId) courseId = true ->
  nth_error (catalogOf db (Some userId) courseId) j = Some (CQuiz q) ->
  qi_quizResults q = Some (allResults db userId (qz_id (qi_quiz q))).
Proof.
  intros Hu Ha Hj. apply nth_error_In in Hj.
  unfold catalogOf, mergeContent in Hj. rewrite Ha in Hj.
  apply sortBy_In in Hj. apply in_app_or in Hj. destruct Hj as [Hj|Hj].
  - apply in_map_iff in Hj. destruct Hj as (c & Hc & _). discriminate.
  - apply in_map_iff in Hj. destruct Hj as (q0 & [= ->] & Hq).
    unfold ContentRoute.fetchQuizzes in Hq. apply in_map_iff in Hq.
    destruct Hq as (row & <- & _). rewrite queryUser_access by exact Hu. reflexivity.
Qed.

(** With access, a chapter of the catalog whose required quiz exists
    carries the latest result of the learner for it, and nothing more. *)
Lemma catalog_required_result (db : Db) (userId courseId : string) (j : nat) (ch : ChapterItem) :
  Js.truthy userId = true ->
  ContentRoute.hasAccessOf db (Some userId) courseId = true ->
  nth_error (catalogOf db (Some userId) courseId) j = Some (CChapter ch) ->
  ContentRoute.firstRequiredResult ch
  = match requiredQuizOf db (ci_chapter ch) with
    | Some quiz => hd_error (latestResult db userId (qz_id quiz))
    | None => None
    end.
Proof.
  intros Hu Ha Hj. apply nth_error_In in Hj.
  unfold catalogOf, mergeContent in Hj. rewrite Ha in Hj.
  apply sortBy_In in Hj. apply in_app_or in Hj. destruct Hj as [Hj|Hj].
  - apply in_map_iff in Hj. destruct Hj as (c & [= ->] & Hc).
    unfold ContentRoute.fetchChapters in Hc. apply in_map_iff in Hc.
    destruct Hc as (row & <- & _). rewrite queryUser_access by exact Hu.
    unfold ContentRoute.firstRequiredResult. simpl.
    destruct (requiredQuizOf db row) as [quiz|]; [|reflexivity]. simpl.
    destruct (latestResult db userId (qz_id quiz)); reflexivity.
  - apply in_map_iff in Hj. destruct Hj as (q0 & Hq & _). discriminate.
Qed.

End CatalogContents.

(* ================================================================== *)
(** * The sequential rule of the content route *)
(* ================================================================== *)

Section SequentialRuleOfTheContentRoute.
Import Lms Props Scenario ContentRoute.
Local Open Scope list_scope.

Lemma resultsOf_In (db : Db) (userId quizId : string) (r : QuizResult) :
  In r (resultsOf db userId quizId) <-> resultOf db userId quizId r.
Proof.
  unfold resultsOf, resultOf. rewrite filter_In, andb_true_iff, !String.eqb_eq. tauto.
Qed.

(** The test of the loop, made on the percentages fetched for a quiz,
    says that the learner has not passed the quiz. *)
Lemma notPassed_by (db : Db) (userId quizId : string) :
  NotPassed (allResults db userId quizId) <-> NotPassedBy db userId quizId.
Proof.
  unfold NotPassed, NotPassedBy, allResults, isBest. split.
  - intros [Hnil | (b & (Hin & Hall) & Hlt)].
    + left. intros r Hr. apply resultsOf_In in Hr.
      apply map_eq_nil in Hnil. rewrite Hnil in Hr. exact Hr.
    + right. apply in_map_iff in Hin. destruct Hin as (best & <- & Hbest).
      exists best. split; [apply resultsOf_In; exact Hbest|]. split; [|exact Hlt].
      intros r Hr. rewrite Forall_forall in Hall. apply Hall.
      apply in_map. apply resultsOf_In. exact Hr.
  - intros [Hnone | (best & Hbest & Hmax & Hlt)].
    + left. destruct (resultsOf db userId quizId) as [|r l] eqn:E; [reflexivity|].
      exfalso. apply (Hnone r). apply resultsOf_In. rewrite E. left. reflexivity.
    + right. exists (qr_percentage best). split; [|exact Hlt]. split.
      * apply in_map. apply resultsOf_In. exact Hbest.
      * rewrite Forall_forall. intros x Hx. apply in_map_iff in Hx.
        destruct Hx as (r & <- & Hr). apply Hmax. apply resultsOf_In. exact Hr.
Qed.

Lemma has_course_access (db : Db) (userId courseId : string) :
  Js.truthy userId = true ->
  HasCourseAccess db userId courseId ->
  hasAccessOf db (Some userId) courseId = true.
Proof.
  intros Hu (course & Hc & Hfree).
  rewrite (content_route_access db userId courseId course Hu Hc).
  destruct Hfree as [Hprice | Hbought].
  - unfold courseAccess. rewrite Hprice. reflexivity.
  - apply has_active_purchase in Hbought. unfold courseAccess.
    destruct (co_price course); rewrite Hbought; [apply orb_true_r | reflexivity].
Qed.

(** With access, the rule read on the results the catalog carries is the
    rule read on the results table. *)
Lemma catalog_sequentially_locked (db : Db) (userId courseId : string) (index : nat) :
  Js.truthy userId = true ->
  hasAccessOf db (Some userId) courseId = true ->
  LockedByNearestQuiz (catalogOf db (Some userId) courseId) index
  <-> SequentiallyLocked db userId (catalogOf db (Some userId) courseId) index.
Proof.
  intros Hu Ha. unfold LockedByNearestQuiz, SequentiallyLocked.
  split; intros (j & q & Hn & Hnp); exists j, q; (split; [exact Hn|]);
    pose proof (catalog_quiz_results db userId courseId j q Hu Ha (proj1 (proj2 Hn))) as Hq;
    rewrite Hq in *; simpl in *; apply notPassed_by; exact Hnp.
Qed.

(** The two ways the callback ends, taken with access and a signed-in
    user: the quiz requirement of the chapter locks it, or the loop over
    the items before it decides. *)
Lemma annotate_cases (all : list Content) (content : Content) (index : nat) :
  (requiresQuiz content = true
   /\ an_isLocked (annotate true true all content index) = true
   /\ an_lockReason (annotate true true all content index) = Some mustPassRequiredQuiz)
  \/ match scanBack all index with
     | Some title =>
         an_isLocked (annotate true true all content index) = true
         /\ an_lockReason (annotate true true all content index)
            = Some (mustPassQuiz title)
     | None =>
         an_isLocked (annotate true true all content index) = false
         /\ an_lockReason (annotate true true all content index) = None
     end.
Proof.
  destruct content as [ch|q]; unfold annotate, requiresQuiz;
    cbn [an_isLocked an_lockReason].
  - unfold requiredQuizStep.
    destruct (ch_requirePassingQuiz (ci_chapter ch)
              && Js.truthyOpt (ch_requiredQuizId (ci_chapter ch))) eqn:E.
    + cbn [negb orb]. cbv iota.
      destruct (firstRequiredResult ch) as [pct|];
        [destruct (pct <? 50)|]; cbn [fst snd negb andb];
        try (left; repeat split; reflexivity);
        right; unfold sequentialStep; destruct (scanBack all index); split; reflexivity.
    + right. cbn [fst snd negb andb]. unfold sequentialStep.
      destruct (scanBack all index); split; reflexivity.
  - right. cbn [andb]. unfold sequentialStep.
    destruct (scanBack all index); split; reflexivity.
Qed.

Lemma requiresQuiz_annotate (all : list Content) (content : Content) (index : nat) :
  requiresQuiz content = false ->
  match scanBack all index with
  | Some title =>
      an_isLocked (annotate true true all content index) = true
      /\ an_lockReason (annotate true true all content index) = Some (mustPassQuiz title)
  | None =>
      an_isLocked (annotate true true all content index) = false
      /\ an_lockReason (annotate true true all content index) = None
  end.
Proof.
  intros Hr. destruct (annotate_cases all content index) as [(Hq & _) | H];
    [congruence | exact H].
Qed.

(** C3. In the response of the content route for a signed-in learner who
    has access to the course, an item is locked if and only if its own
    quiz requirement locks it or the sequential rule does: there is a
    nearest quiz before the item, and the results table holds no result
    of the learner for that quiz, or the best of them is below 50.  For a
    quiz, and for a chapter that names no quiz to pass, the sequential
    rule alone decides.  The lock reason of the sequential rule names
    that nearest quiz, and no quiz before it is looked at. *)
Theorem content_route_locks_iff_nearest_quiz_not_passed :
  forall (db : Db) (userId courseId : string) (index : nat) (item : Annotated),
    Js.truthy userId = true ->
    HasCourseAccess db userId courseId ->
    nth_error (GET db (Some userId) courseId) index = Some item ->
    let items := map an_content (GET db (Some userId) courseId) in
    (an_isLocked item = true
     <-> an_lockReason item = Some mustPassRequiredQuiz
         \/ SequentiallyLocked db userId items index)
    /\ (requiresQuiz (an_content item) = false ->
        (an_isLocked item = true <-> SequentiallyLocked db userId items index))
    /\ (an_isLocked item = true ->
        an_lockReason item = Some mustPassRequiredQuiz
        \/ exists (j : nat) (q : QuizItem),
             nearestPrecedingQuiz items index j q
             /\ NotPassedBy db userId (qz_id (qi_quiz q))
             /\ an_lockReason item = Some (mustPassQuiz (qz_title (qi_quiz q)))).
Proof.
  intros db userId courseId index item Hu Hacc Hitem items.
  pose proof (has_course_access db userId courseId Hu Hacc) as Ha.
  assert (Hitems : items = catalogOf db (Some userId) courseId).
  { unfold items, GET, catalogOf. apply annotateAll_contents. }
  rewrite Hitems. clear items Hitems.
  rewrite (content_route_with_access db userId courseId index Hu Ha) in Hitem.
  set (all := catalogOf db (Some userId) courseId) in *.
  destruct (nth_error all index) as [content|]; [|discriminate Hitem].
  simpl in Hitem. injection Hitem as <-.
  rewrite an_content_annotate.
  pose proof (catalog_sequentially_locked db userId courseId index Hu Ha) as Hseq.
  fold all in Hseq. rewrite <- Hseq, <- scanBack_locked_iff.
  assert (Hreason : forall title : string,
             scanBack all index = Some title ->
             exists (j : nat) (q : QuizItem),
               nearestPrecedingQuiz all index j q
               /\ NotPassedBy db userId (qz_id (qi_quiz q))
               /\ title = qz_title (qi_quiz q)).
  { intros title Ht. apply scanBack_spec in Ht. destruct Ht as (j & q & Hn & Hnp & Heq).
    exists j, q. split; [exact Hn|]. split; [|exact Heq].
    pose proof (catalog_quiz_results db userId courseId j q Hu Ha (proj1 (proj2 Hn))) as Hq.
    fold all in Hq. rewrite Hq in Hnp. simpl in Hnp. apply notPassed_by. exact Hnp. }
  split; [|split].
  - destruct (annotate_cases all content index) as [(_ & Hl & Hr) | H].
    + rewrite Hl, Hr. split; [intros _; left; reflexivity | reflexivity].
    + destruct (scanBack all index) as [title|]; destruct H as [Hl Hr]; rewrite Hl, Hr.
      * split; [intros _; right; exists title; reflexivity | reflexivity].
      * split; [discriminate | intros [H | [t H]]; discriminate].
  - intros Hnr. pose proof (requiresQuiz_annotate all content index Hnr) as H.
    destruct (scanBack all index) as [title|]; destruct H as [Hl _]; rewrite Hl.
    + split; [intros _; exists title; reflexivity | reflexivity].
    + split; [discriminate | intros [t H]; discriminate].
  - destruct (annotate_cases all content index) as [(_ & Hl & Hr) | H].
    + intros _. left. exact Hr.
    + destruct (scanBack all index) as [title|] eqn:Ht; destruct H as [Hl Hr]; rewrite Hl, Hr.
      * intros _. right. destruct (Hreason title eq_refl) as (j & q & Hn & Hnp & ->).
        exists j, q. split; [exact Hn|]. split; [exact Hnp | reflexivity].
      * discriminate.
Qed.

Lemma content_route_locks_iff_nearest_quiz_not_passed_witness :
  Js.truthy "alice" = true
  /\ HasCourseAccess db3 "alice" "c1"
  /\ nth_error (GET db3 (Some "alice") "c1") 1
     = Some (mkAnnotated (CChapter (mkChapterItem lesson1 None)) true
                         (Some (mustPassQuiz "Quiz 1")))
  /\ SequentiallyLocked db3 "alice" (map an_content (GET db3 (Some "alice") "c1")) 1
  /\ nth_error (GET db3 (Some "alice") "c1") 4
     = Some (mkAnnotated (CChapter (mkChapterItem lesson3 None)) false None)
  /\ ~ SequentiallyLocked db3 "alice" (map an_content (GET db3 (Some "alice") "c1")) 4.
Proof.
  assert (Hacc : HasCourseAccess db3 "alice" "c1").
  { exists freeCourse. split; [reflexivity | left; reflexivity]. }
  assert (H1 : nth_error (GET db3 (Some "alice") "c1") 1
               = Some (mkAnnotated (CChapter (mkChapterItem lesson1 None)) true
                                   (Some (mustPassQuiz "Quiz 1")))) by reflexivity.
  assert (H4 : nth_error (GET db3 (Some "alice") "c1") 4
               = Some (mkAnnotated (CChapter (mkChapterItem lesson3 None)) false None))
    by reflexivity.
  split; [reflexivity|]. split; [exact Hacc|]. split; [exact H1|]. split; [|split].
  - exact (proj1 (proj1 (proj2 (content_route_locks_iff_nearest_quiz_not_passed
                                  db3 "alice" "c1" 1 _ eq_refl Hacc H1)) eq_refl) eq_refl).
  - exact H4.
  - intros Hs.
    pose proof (proj2 (proj1 (proj2 (content_route_locks_iff_nearest_quiz_not_passed
                                       db3 "alice" "c1" 4 _ eq_refl Hacc H4)) eq_refl) Hs)
      as Hlocked.
    discriminate Hlocked.
Defined.

End SequentialRuleOfTheContentRoute.

(* ================================================================== *)
(** * Strings *)
(* ================================================================== *)

Section StringFacts.
Import Facts.
Local Open Scope string_scope.

Lemma append_assoc (a b c : string) : (a ++ b) ++ c = a ++ b ++ c.
Proof. induction a as [|x a IH]; simpl; [reflexivity | rewrite IH; reflexivity]. Qed.

Lemma append_nil_r (a : string) : a ++ "" = a.
Proof. induction a as [|x a IH]; simpl; [reflexivity | rewrite IH; reflexivity]. Qed.

Lemma append_length (a b : string) :
  String.length (a ++ b) = (String.length a + String.length b)%nat.
Proof. induction a as [|x a IH]; simpl; [reflexivity | rewrite IH; reflexivity]. Qed.

Lemma append_cancel_l (a x y : string) : a ++ x = a ++ y -> x = y.
Proof.
  induction a as [|c a IH]; simpl; intros H; [exact H|].
  injection H as H. apply IH. exact H.
Qed.

Lemma append_cancel_r (a b s : string) : a ++ s = b ++ s -> a = b.
Proof.
  revert b. induction a as [|c a IH]; intros b H.
  - destruct b as [|d b]; [reflexivity|]. exfalso.
    apply (f_equal String.length) in H. simpl in H. rewrite append_length in H. lia.
  - destruct b as [|d b].
    + exfalso. apply (f_equal String.length) in H. simpl in H.
      rewrite append_length in H. lia.
    + simpl in H. injection H as Hc H. subst d. f_equal. apply IH. exact H.
Qed.

Lemma hasChar_append (c : ascii) (a b : string) :
  hasChar c (a ++ b) = hasChar c a || hasChar c b.
Proof.
  induction a as [|x a IH]; simpl; [reflexivity|].
  rewrite IH. apply orb_assoc.
Qed.

(** Two strings that agree up to the first occurrence of a character
    that neither prefix holds have the same prefix and the same rest. *)
Lemma split_at_first (c : ascii) (a b x y : string) :
  hasChar c a = false -> hasChar c b = false ->
  a ++ String c x = b ++ String c y -> a = b /\ x = y.
Proof.
  revert b. induction a as [|d a IH]; intros b Ha Hb H.
  - destruct b as [|e b]; simpl in H.
    + injection H as H. split; [reflexivity | exact H].
    + injection H as He _. subst e. simpl in Hb.
      rewrite Ascii.eqb_refl in Hb. discriminate.
  - simpl in Ha. apply orb_false_iff in Ha. destruct Ha as [Hd Ha].
    destruct b as [|e b]; simpl in H.
    + injection H as He _. subst d. rewrite Ascii.eqb_refl in Hd. discriminate.
    + injection H as He H. subst e. simpl in Hb.
      apply orb_false_iff in Hb. destruct Hb as [_ Hb].
      destruct (IH b Ha Hb H) as [-> ->]. split; reflexivity.
Qed.

Lemma truthy_append_l (a b : string) : Js.truthy a = true -> Js.truthy (a ++ b) = true.
Proof. destruct a; [discriminate | reflexivity]. Qed.

Lemma endsWithChar_snoc (c : ascii) (a : string) :
  Js.endsWithChar c (a ++ String c "") = true.
Proof.
  induction a as [|x a IH]; simpl; [apply Ascii.eqb_refl|].
  destruct (a ++ String c "") eqn:E; [destruct a; discriminate | exact IH].
Qed.

Lemma dropLast_snoc (c : ascii) (a : string) : dropLast (a ++ String c "") = a.
Proof.
  induction a as [|x a IH]; simpl; [reflexivity|].
  destruct (a ++ String c "") eqn:E; [destruct a; discriminate|].
  rewrite IH. reflexivity.
Qed.

Lemma endsWithChar_dropLast (c : ascii) (s : string) :
  Js.endsWithChar c s = true -> s = dropLast s ++ String c "".
Proof.
  induction s as [|x s IH]; simpl; [discriminate|].
  destruct s as [|y s'].
  - intros H. apply Ascii.eqb_eq in H. subst x. reflexivity.
  - intros H. simpl. f_equal. apply IH. exact H.
Qed.

End StringFacts.

(* ================================================================== *)
(** * Public URLs *)
(* ================================================================== *)

Section PublicUrls.
Import Facts R2Upload.
Local Open Scope string_scope.

(** X1. For a non-empty base URL the public URL is the base without the one
    slash it may end with, one slash, and the key; so a base and the same
    base followed by a slash give the same URL. *)
Theorem joinPublicUrl_one_separator :
  forall base key : string,
    base <> "" ->
    joinPublicUrl base key = dropTrailingSlash base ++ "/" ++ key
    /\ (Js.endsWithChar "/" base = false ->
        joinPublicUrl (base ++ "/") key = joinPublicUrl base key).
Proof.
  intros base key Hne.
  assert (Ht : Js.truthy base = true) by (destruct base; [congruence | reflexivity]).
  assert (H1 : joinPublicUrl base key = dropTrailingSlash base ++ "/" ++ key).
  { unfold joinPublicUrl, dropTrailingSlash. rewrite Ht. simpl negb. cbv iota.
    destruct (Js.endsWithChar "/" base) eqn:E; [|reflexivity].
    rewrite (endsWithChar_dropLast _ _ E) at 1. apply append_assoc. }
  split; [exact H1|].
  intros Hno. rewrite H1. unfold dropTrailingSlash at 1. rewrite Hno.
  unfold joinPublicUrl. rewrite (truthy_append_l base "/" Ht). simpl negb. cbv iota.
  rewrite endsWithChar_snoc. apply append_assoc.
Qed.

Lemma joinPublicUrl_one_separator_witness :
  "https://cdn.example.org" <> ""
  /\ Js.endsWithChar "/" "https://cdn.example.org" = false
  /\ joinPublicUrl ("https://cdn.example.org" ++ "/") "a/b.pdf"
     = joinPublicUrl "https://cdn.example.org" "a/b.pdf".
Proof.
  split; [discriminate|]. split; [reflexivity|].
  apply (proj2 (joinPublicUrl_one_separator "https://cdn.example.org" "a/b.pdf"
                  ltac:(discriminate))).
  reflexivity.
Defined.

End PublicUrls.

(* ================================================================== *)
(** * Sanitized names and the identity of keys *)
(* ================================================================== *)

Section KeyIdentity.
Import Facts R2Upload.
Local Open Scope string_scope.

Lemma inKeyClass_not_slash (c : ascii) :
  inKeyClass c = true -> Ascii.eqb c "/"%char = false.
Proof.
  destruct c as [[] [] [] [] [] [] [] []]; vm_compute; congruence.
Qed.

Lemma hasChar_slash_sanitize (name : string) :
  hasChar "/" (sanitizeFilename name) = false.
Proof.
  induction name as [|c name IH]; cbn [sanitizeFilename]; [reflexivity|].
  destruct (inKeyClass c) eqn:Hk.
  - simpl. rewrite (inKeyClass_not_slash c Hk), IH. reflexivity.
  - destruct (Js.isContinuation c); [exact IH|].
    destruct (Js.beginsFour c); simpl; rewrite IH; reflexivity.
Qed.

(** X2. Sanitizing a name that is already sanitized changes nothing. *)
Theorem sanitizeFilename_idempotent :
  forall name : string,
    sanitizeFilename (sanitizeFilename name) = sanitizeFilename name.
Proof.
  intros name.
  induction name as [|c name IH]; cbn [sanitizeFilename]; [reflexivity|].
  destruct (inKeyClass c) eqn:Hk.
  - cbn [sanitizeFilename]. rewrite Hk, IH. reflexivity.
  - destruct (Js.isContinuation c); [exact IH|].
    destruct (Js.beginsFour c); cbn [sanitizeFilename];
      change (inKeyClass "_") with false; change (Js.isContinuation "_") with false;
      change (Js.beginsFour "_") with false; cbv iota; rewrite IH; reflexivity.
Qed.

Lemma digit_string_no (c : ascii) (d : Decimal.uint) :
  Js.isDigit c = false -> hasChar c (NilEmpty.string_of_uint d) = false.
Proof.
  intros Hc. induction d; cbn [NilEmpty.string_of_uint hasChar];
    try reflexivity; rewrite IHd;
    match goal with
    | |- (Ascii.eqb ?k c || false)%bool = false =>
        destruct (Ascii.eqb k c) eqn:E; [|reflexivity];
        apply Ascii.eqb_eq in E; subst c; discriminate
    end.
Qed.

Lemma showNat_no (c : ascii) (n : N) :
  Js.isDigit c = false -> hasChar c (Js.showNat n) = false.
Proof. intros Hc. apply digit_string_no. exact Hc. Qed.

Lemma showNat_inj (a b : N) : Js.showNat a = Js.showNat b -> a = b.
Proof.
  unfold Js.showNat. intros H. apply DecimalN.Unsigned.to_uint_inj.
  pose proof (NilEmpty.usu (N.to_uint a)) as Ha.
  pose proof (NilEmpty.usu (N.to_uint b)) as Hb.
  rewrite H in Ha. congruence.
Qed.

(** X3. The name of the file adds no path segment to a key: without a
    folder, a key holds a slash only when the random identifier does. *)
Theorem key_slashes_come_from_folder_and_id :
  forall (ts : N) (id originalName : string),
    hasChar "/" (generateR2Key ts id originalName None) = hasChar "/" id.
Proof.
  intros ts id originalName. unfold generateR2Key.
  rewrite !hasChar_append. rewrite showNat_no by reflexivity.
  rewrite hasChar_slash_sanitize. simpl. rewrite orb_false_r. reflexivity.
Qed.

(** X4. For one file name and one folder, two keys are equal only when
    they were made at the same millisecond with the same random
    identifier. *)
Theorem generateR2Key_injective :
  forall (ts ts' : N) (id id' originalName : string) (folder : option string),
    generateR2Key ts id originalName folder = generateR2Key ts' id' originalName folder ->
    ts = ts' /\ id = id'.
Proof.
  intros ts ts' id id' originalName folder H.
  assert (Hrest : Js.showNat ts ++ "-" ++ id ++ "-" ++ sanitizeFilename originalName
                  = Js.showNat ts' ++ "-" ++ id' ++ "-" ++ sanitizeFilename originalName).
  { unfold generateR2Key in H. destruct folder as [f|]; [|exact H].
    destruct (Js.truthy f); [|exact H].
    apply append_cancel_l in H. apply (append_cancel_l "/") in H. exact H. }
  apply (split_at_first "-"%char) in Hrest; try (apply showNat_no; reflexivity).
  destruct Hrest as [Hts Hid]. split.
  - apply showNat_inj. exact Hts.
  - apply append_cancel_r in Hid. exact Hid.
Qed.

End KeyIdentity.

(* ================================================================== *)
(** * Extensions and content types *)
(* ================================================================== *)

Section Extensions.
Import Facts R2Upload.
Local Open Scope string_scope.

Lemma split_nonempty (sep : ascii) (s : string) : Js.split sep s <> [].
Proof.
  induction s as [|c s IH]; simpl; [discriminate|].
  destruct (Ascii.eqb c sep); [discriminate|].
  destruct (Js.split sep s); [contradiction IH; reflexivity | discriminate].
Qed.

Lemma split_no_sep (sep : ascii) (s : string) :
  hasChar sep s = false -> Js.split sep s = [s].
Proof.
  induction s as [|c s IH]; simpl; [reflexivity|].
  intros H. apply orb_false_iff in H. destruct H as [Hc Hs].
  rewrite Hc, (IH Hs). reflexivity.
Qed.

Lemma pop_cons (x : string) (l : list string) : l <> [] -> Js.pop (x :: l) = Js.pop l.
Proof. destruct l; [congruence | reflexivity]. Qed.

(** The last segment of a split is the last segment of what follows any
    separator. *)
Lemma pop_split_after (sep : ascii) (a b : string) :
  Js.pop (Js.split sep (a ++ String sep b)) = Js.pop (Js.split sep b).
Proof.
  induction a as [|c a IH]; simpl.
  - rewrite Ascii.eqb_refl. apply pop_cons. apply split_nonempty.
  - destruct (Ascii.eqb c sep).
    + rewrite pop_cons by apply split_nonempty. exact IH.
    + destruct (Js.split sep (a ++ String sep b)) as [|seg segs] eqn:E.
      * exfalso. exact (split_nonempty _ _ E).
      * destruct segs as [|seg' segs'].
        -- exfalso. clear IH. revert seg E.
           induction a as [|d a IHa]; intros seg E; simpl in E.
           ++ rewrite Ascii.eqb_refl in E.
              destruct (Js.split sep b) eqn:Eb; [exact (split_nonempty _ _ Eb) | discriminate].
           ++ destruct (Ascii.eqb d sep).
              ** destruct (Js.split sep (a ++ String sep b)) eqn:Ea;
                   [exact (split_nonempty _ _ Ea) | discriminate].
              ** destruct (Js.split sep (a ++ String sep b)) as [|s1 [|s2 r]] eqn:Ea.
                 --- exact (split_nonempty _ _ Ea).
                 --- exact (IHa s1 eq_refl).
                 --- discriminate.
        -- rewrite <- IH. reflexivity.
Qed.

Lemma toLowerCase_append (a b : string) :
  Js.toLowerCase (a ++ b) = Js.toLowerCase a ++ Js.toLowerCase b.
Proof.
  unfold Js.toLowerCase. induction a as [|c a IH]; simpl; [reflexivity|].
  rewrite IH. reflexivity.
Qed.

Lemma lowerChar_dot (c : ascii) :
  Ascii.eqb (Js.lowerChar c) "."%char = Ascii.eqb c "."%char.
Proof.
  destruct c as [[] [] [] [] [] [] [] []]; vm_compute; reflexivity.
Qed.

Lemma hasChar_dot_toLowerCase (s : string) :
  hasChar "." (Js.toLowerCase s) = hasChar "." s.
Proof.
  unfold Js.toLowerCase. induction s as [|c s IH]; simpl; [reflexivity|].
  rewrite lowerChar_dot, IH. reflexivity.
Qed.

Lemma orElse_empty (s : string) : Js.orElse s "" = s.
Proof. destruct s; reflexivity. Qed.

Lemma extensionOf_last_dot (base ext : string) :
  hasChar "." ext = false ->
  extensionOf (base ++ "." ++ ext) = Js.toLowerCase ext.
Proof.
  intros Hext. unfold extensionOf.
  rewrite toLowerCase_append. change (Js.toLowerCase ("." ++ ext))
    with (String "." (Js.toLowerCase ext)).
  rewrite pop_split_after.
  rewrite split_no_sep by (rewrite hasChar_dot_toLowerCase; exact Hext).
  simpl. apply orElse_empty.
Qed.

Lemma lowerChar_not_upper (c : ascii) : Js.isUpper (Js.lowerChar c) = false.
Proof.
  destruct c as [[] [] [] [] [] [] [] []]; vm_compute; reflexivity.
Qed.

Lemma toLowerCase_no_upper (s : string) : hasUpper (Js.toLowerCase s) = false.
Proof.
  unfold Js.toLowerCase. induction s as [|c s IH]; simpl; [reflexivity|].
  rewrite lowerChar_not_upper, IH. reflexivity.
Qed.

Lemma split_no_upper (sep : ascii) (s : string) :
  hasUpper s = false -> Forall (fun seg => hasUpper seg = false) (Js.split sep s).
Proof.
  induction s as [|c s IH]; simpl; intros H.
  - constructor; [reflexivity | constructor].
  - apply orb_false_iff in H. destruct H as [Hc Hs]. specialize (IH Hs).
    destruct (Ascii.eqb c sep); [constructor; [reflexivity | exact IH]|].
    destruct (Js.split sep s) as [|seg segs].
    + constructor; [simpl; rewrite Hc; reflexivity | constructor].
    + inversion IH as [|x l Hseg Hsegs]; subst.
      constructor; [simpl; rewrite Hc; exact Hseg | exact Hsegs].
Qed.

Lemma pop_In (l : list string) (x : string) : Js.pop l = Some x -> In x l.
Proof.
  induction l as [|y l IH]; simpl; [discriminate|].
  destruct l as [|z l]; [intros [= ->]; left; reflexivity|].
  intros H. right. apply IH. exact H.
Qed.

(** The extension the resolver computes holds no capital letter. *)
Lemma extensionOf_no_upper (filename : string) : hasUpper (extensionOf filename) = false.
Proof.
  unfold extensionOf.
  destruct (Js.pop (Js.split "." (Js.toLowerCase filename))) as [e|] eqn:E; [|reflexivity].
  rewrite orElse_empty. apply pop_In in E.
  pose proof (split_no_upper "." _ (toLowerCase_no_upper filename)) as H.
  rewrite Forall_forall in H. exact (H _ E).
Qed.

(** Of the names the table inherits, only [constructor] and [__proto__]
    hold no capital letter. *)
Lemma lowered_inherited (ext : string) :
  hasUpper ext = false ->
  existsb (String.eqb ext) inheritedNames = true <-> In ext inheritedExtensions.
Proof.
  intros Hup. split.
  - unfold inheritedNames. simpl existsb. intros H.
    repeat match type of H with
           | (String.eqb ext ?name || _)%bool = true =>
               let E := fresh "E" in
               destruct (String.eqb ext name) eqn:E;
               [apply String.eqb_eq in E; subst ext;
                first [ left; reflexivity
                      | right; left; reflexivity
                      | vm_compute in Hup; discriminate Hup ]
               | simpl in H]
           end.
    discriminate H.
  - intros [<- | [<- | []]]; reflexivity.
Qed.

Lemma lookupOwn_none (key : string) (table : list (string * string)) :
  ~ In key (map fst table) -> lookupOwn key table = None.
Proof.
  induction table as [|[k v] table IH]; simpl; intros H; [reflexivity|].
  destruct (String.eqb k key) eqn:E.
  - apply String.eqb_eq in E. exfalso. apply H. left. exact E.
  - apply IH. intros Hin. apply H. right. exact Hin.
Qed.

(** The three cases of the resolver, by the extension it computes. *)
Lemma guessContentType_cases (filename fallback : string) :
  (forall mime : string,
     In (extensionOf filename, mime) EXT_TO_MIME ->
     guessContentType filename fallback = Str mime)
  /\ (In (extensionOf filename) inheritedExtensions ->
      guessContentType filename fallback = Inherited (extensionOf filename))
  /\ (~ In (extensionOf filename) (map fst EXT_TO_MIME) ->
      ~ In (extensionOf filename) inheritedExtensions ->
      guessContentType filename fallback = Str fallback).
Proof.
  rewrite guessContentType_table.
  pose proof (extensionOf_no_upper filename) as Hup.
  revert Hup. generalize (extensionOf filename). intros ext Hup.
  split; [|split].
  - intros mime Hin. unfold EXT_TO_MIME in Hin. simpl in Hin.
    repeat (destruct Hin as [Hin | Hin]; [injection Hin as <- <-; reflexivity|]).
    contradiction.
  - intros [<- | [<- | []]]; reflexivity.
  - intros Hkey Hinh. unfold lookup. rewrite (lookupOwn_none _ _ Hkey).
    destruct (existsb (String.eqb ext) inheritedNames) eqn:E; [|reflexivity].
    apply (lowered_inherited ext Hup) in E. contradiction.
Qed.

(** X5. The content type guessed for a file name depends only on what
    follows its last dot, letters taken without regard to case.  It is
    the table entry of that extension when there is one.  For the
    extensions constructor and __proto__, names that the table inherits,
    it is the inherited object, which is not a string.  For every other
    extension it is the fallback. *)
Theorem guessContentType_reads_last_extension :
  forall base ext fallback : string,
    hasChar "." ext = false ->
    (forall mime : string,
       In (Js.toLowerCase ext, mime) EXT_TO_MIME ->
       guessContentType (base ++ "." ++ ext) fallback = Str mime)
    /\ (In (Js.toLowerCase ext) inheritedExtensions ->
        guessContentType (base ++ "." ++ ext) fallback = Inherited (Js.toLowerCase ext))
    /\ (~ In (Js.toLowerCase ext) (map fst EXT_TO_MIME) ->
        ~ In (Js.toLowerCase ext) inheritedExtensions ->
        guessContentType (base ++ "." ++ ext) fallback = Str fallback).
Proof.
  intros base ext fallback Hext.
  pose proof (guessContentType_cases (base ++ "." ++ ext) fallback) as H.
  rewrite (extensionOf_last_dot base ext Hext) in H. exact H.
Qed.

Lemma guessContentType_reads_last_extension_witness :
  hasChar "." "MoV" = false
  /\ guessContentType ("unit 3.final" ++ "." ++ "MoV") "application/octet-stream"
     = Str "video/mp4"
  /\ guessContentType ("a" ++ "." ++ "Constructor") "application/octet-stream"
     = Inherited "constructor"
  /\ guessContentType ("a" ++ "." ++ "txt") "application/octet-stream"
     = Str "application/octet-stream".
Proof.
  split; [reflexivity|]. split; [|split].
  - apply (proj1 (guessContentType_reads_last_extension "unit 3.final" "MoV"
                    "application/octet-stream" eq_refl)).
    simpl. tauto.
  - apply (proj1 (proj2 (guessContentType_reads_last_extension "a" "Constructor"
                           "application/octet-stream" eq_refl))).
    left. reflexivity.
  - apply (proj2 (proj2 (guessContentType_reads_last_extension "a" "txt"
                           "application/octet-stream" eq_refl))).
    + simpl. intros H.
      repeat (destruct H as [H | H]; [discriminate H|]). exact H.
    + simpl. intros H.
      repeat (destruct H as [H | H]; [discriminate H|]). exact H.
Defined.

(** X6. Whatever the file name, the guessed content type is the fallback,
    one of the types of the table, or the object the table inherits under
    constructor or __proto__; it is a string unless the extension is one
    of these two names. *)
Theorem guessContentType_range :
  forall filename fallback : string,
    (guessContentType filename fallback = Str fallback
     \/ (exists mime : string,
           In mime mimeTypes /\ guessContentType filename fallback = Str mime)
     \/ (exists name : string,
           In name inheritedExtensions
           /\ guessContentType filename fallback = Inherited name))
    /\ ((exists name : string, guessContentType filename fallback = Inherited name)
        <-> In (extensionOf filename) inheritedExtensions).
Proof.
  intros filename fallback.
  destruct (guessContentType_cases filename fallback) as (Hown & Hinh & Hnone).
  destruct (in_dec string_dec (extensionOf filename) inheritedExtensions) as [Hi | Hi].
  - split.
    + right. right. exists (extensionOf filename). split; [exact Hi | exact (Hinh Hi)].
    + split; [intros _; exact Hi | intros _; eexists; exact (Hinh Hi)].
  - destruct (in_dec string_dec (extensionOf filename) (map fst EXT_TO_MIME)) as [Hk | Hk].
    + apply in_map_iff in Hk. destruct Hk as ([k mime] & Hfst & Hin).
      simpl in Hfst. subst k. split.
      * right. left. exists mime. split; [|exact (Hown mime Hin)].
        unfold mimeTypes. apply in_map_iff. exists (extensionOf filename, mime).
        split; [reflexivity | exact Hin].
      * split; [|intros H; contradiction].
        intros [name H]. rewrite (Hown mime Hin) in H. discriminate H.
    + split.
      * left. exact (Hnone Hk Hi).
      * split; [|intros H; contradiction].
        intros [name H]. rewrite (Hnone Hk Hi) in H. discriminate H.
Qed.

End Extensions.

(* ================================================================== *)
(** * Warnings of the configuration module *)
(* ================================================================== *)

Section ConfigurationWarnings.
Import Props.
Local Open Scope string_scope.

Lemma warningFor_inj (a b : string) : warningFor a = warningFor b -> a = b.
Proof.
  unfold warningFor. intros H.
  apply append_cancel_l in H. apply append_cancel_r in H. exact H.
Qed.

Lemma warnIfMissing_In (env : R2Config.Env) (name line : string) (console : list string) :
  In line (R2Config.warnIfMissing env name console)
  <-> In line console \/ (line = warningFor name /\ Js.truthyOpt (env name) = false).
Proof.
  unfold R2Config.warnIfMissing.
  destruct (Js.truthyOpt (env name)); simpl.
  - split; [intros H; left; exact H | intros [H | [_ H]]; [exact H | discriminate]].
  - rewrite in_app_iff. simpl. split.
    + intros [H | [H | []]]; [left; exact H | right; split; [symmetry; exact H | reflexivity]].
    + intros [H | [H _]]; [left; exact H | right; left; symmetry; exact H].
Qed.

(** X7. Loading the configuration module writes the warning of a variable
    exactly when the variable is one of the five it checks and is unset or
    empty; with all five set it writes nothing. *)
Theorem loadModule_warns_exactly_missing :
  forall (env : R2Config.Env) (name : string),
    In (warningFor name) (R2Config.loadModule env)
    <-> In name warnedNames /\ Js.truthyOpt (env name) = false.
Proof.
  intros env name. unfold R2Config.loadModule. rewrite !warnIfMissing_In.
  unfold warnedNames. simpl. split.
  - intros H.
    repeat match type of H with
           | _ \/ _ => destruct H as [H | H]
           | _ /\ _ => destruct H as [Hn Hm]; apply warningFor_inj in Hn; subst name
           | False => contradiction
           end; (split; [tauto | exact Hm]).
  - intros [Hin Hm].
    repeat match type of Hin with
           | _ \/ _ => destruct Hin as [Hin | Hin]
           | False => contradiction
           | _ = _ => subst name
           end; tauto.
Qed.

End ConfigurationWarnings.

(* ================================================================== *)
(** * Further properties of upload streams *)
(* ================================================================== *)

Section MoreOnStreams.
Import UploadRoute Props StreamFacts Scenario.
Local Open Scope list_scope.

Lemma strictlyIncreasing_tail (a : Z) (l : list Z) :
  strictlyIncreasing (a :: l) -> strictlyIncreasing l.
Proof. destruct l as [|b l]; simpl; [intros _; exact I | intros [_ H]; exact H]. Qed.

Lemma strictlyIncreasing_above (a : Z) (l : list Z) :
  strictlyIncreasing (a :: l) -> Forall (fun x => a < x) l.
Proof.
  revert a. induction l as [|b l IH]; intros a H; [constructor|].
  destruct H as [Hab Hrest]. constructor; [exact Hab|].
  eapply Forall_impl; [|apply IH; exact Hrest]. simpl. intros x Hx. lia.
Qed.

(** A strictly increasing list of integers between two bounds is no
    longer than the number of integers between them. *)
Lemma strictlyIncreasing_length (lo hi : Z) (l : list Z) :
  strictlyIncreasing l ->
  Forall (fun x => lo <= x <= hi) l ->
  Z.of_nat (List.length l) <= Z.max 0 (hi - lo + 1).
Proof.
  revert lo. induction l as [|a l IH]; intros lo Hinc Hb; simpl List.length; [lia|].
  inversion Hb as [|? ? Ha Hl]; subst.
  assert (Hl' : Forall (fun x => a + 1 <= x <= hi) l).
  { pose proof (strictlyIncreasing_above a l Hinc) as Habove.
    rewrite Forall_forall in *. intros x Hx.
    specialize (Habove x Hx). specialize (Hl x Hx). simpl in *. lia. }
  specialize (IH (a + 1) (strictlyIncreasing_tail a l Hinc) Hl'). lia.
Qed.

(** X8. A stream holds at most 99 progress events, whatever the number of
    callbacks of the uploader, and so at most 100 events. *)
Theorem stream_has_at_most_99_progress_events :
  forall (env : R2Config.Env) (store : Store) (pr : Prepared),
    let c := fst (start env store pr freshController) in
    (List.length (progressValues (queue c)) <= 99)%nat
    /\ (List.length (queue c) <= 100)%nat.
Proof.
  intros env store pr c.
  destruct (start_shape env store pr) as (pre & t & Heq & Hpre & Ht & Hinc & Hbd).
  subst c. rewrite Heq. simpl fst. simpl queue.
  rewrite progressValues_terminal by exact Ht.
  pose proof (strictlyIncreasing_length 1 99 _ Hinc Hbd) as Hlen.
  assert (Hsame : List.length (progressValues pre) = List.length pre).
  { clear - Hpre. induction Hpre as [|e l He _ IH]; [reflexivity|].
    destruct e; simpl in *; try contradiction. rewrite IH. reflexivity. }
  rewrite length_app. simpl. lia.
Qed.

Lemma fire_events (fileSize : Z) (ps : list ProgressInfo) (st : Pending) (e : Event) :
  PendingInv st ->
  In e (queue (ctrl (fire fileSize ps st))) ->
  In e (queue (ctrl st))
  \/ exists p : ProgressInfo,
       In p ps
       /\ snd (reportOf fileSize p) <> 0
       /\ e = Progress (clampedPercent (fst (reportOf fileSize p)) (snd (reportOf fileSize p)))
                       (fst (reportOf fileSize p)) (snd (reportOf fileSize p)).
Proof.
  revert st. induction ps as [|p ps IH]; intros st Hinv Hin; simpl in Hin; [left; exact Hin|].
  pose proof (onProgress_inv fileSize p st Hinv) as Hinv'.
  rewrite (inv_not_thrown _ Hinv') in Hin.
  destruct (IH _ Hinv' Hin) as [Hold | (q & Hq & Hrest)].
  - destruct (onProgress_cases fileSize p st (inv_open _ Hinv))
      as [Hsame | (loaded & total & Hl & Ht & Hne & _ & Heq)].
    + rewrite Hsame in Hold. left. exact Hold.
    + rewrite Heq in Hold. simpl in Hold. apply in_app_or in Hold.
      destruct Hold as [Hold | [Hnew | []]]; [left; exact Hold|].
      right. exists p. split; [left; reflexivity|].
      unfold reportOf. simpl. subst loaded total. split; [exact Hne | symmetry; exact Hnew].
  - right. exists q. split; [right; exact Hq | exact Hrest].
Qed.

(** X9. Every progress event of a stream comes from a callback of the
    uploader: it carries the loaded and total bytes that callback
    reported, a total that is not 0, and as its percentage the ratio of
    the two, computed and rounded on doubles, kept within 0 and 99. *)
Theorem progress_event_reports_a_callback :
  forall (env : R2Config.Env) (store : Store) (pr : Prepared)
         (progress loaded total : Z),
    In (Progress progress loaded total) (queue (fst (start env store pr freshController))) ->
    total <> 0
    /\ progress = Z.max 0 (Z.min 99 (roundPercent loaded total))
    /\ exists p : ProgressInfo,
         In p (run_callbacks (store (uploadParams (R2Config.R2_BUCKET_NAME env) pr)))
         /\ reportOf (file_size (pr_file pr)) p = (loaded, total).
Proof.
  intros env store pr progress loaded total Hin.
  destruct (Js.truthy (R2Config.R2_BUCKET_NAME env)) eqn:Hb.
  - rewrite (start_with_bucket env store pr Hb) in Hin. simpl in Hin.
    apply in_app_or in Hin. destruct Hin as [Hin | [Hin | []]].
    + unfold afterCallbacks in Hin.
      apply (fire_events _ _ _ _ initial_inv) in Hin.
      destruct Hin as [[] | (p & Hp & Hne & Heq)].
      injection Heq as Hprogress Hloaded Htotal. subst progress loaded total.
      split; [exact Hne|]. split; [reflexivity|].
      exists p. split; [exact Hp | apply surjective_pairing].
    + destruct (run_outcome _); discriminate.
  - rewrite (start_without_bucket env store pr Hb) in Hin. simpl in Hin.
    destruct Hin as [Hin | []]. discriminate.
Qed.

Lemma progress_event_reports_a_callback_witness :
  In (Progress 57 23 40)
     (queue (fst (start envFull
                        (fun _ => mkUploadRun [mkProgressInfo (Some 23) (Some 40)] Resolved)
                        preparedPdf freshController)))
  /\ 40 <> 0
  /\ 57 = Z.max 0 (Z.min 99 (roundPercent 23 40)).
Proof.
  assert (Hin : In (Progress 57 23 40)
                   (queue (fst (start envFull
                                  (fun _ => mkUploadRun [mkProgressInfo (Some 23) (Some 40)]
                                                        Resolved)
                                  preparedPdf freshController))))
    by (vm_compute; left; reflexivity).
  split; [exact Hin|].
  destruct (progress_event_reports_a_callback envFull _ preparedPdf 57 23 40 Hin)
    as (Hne & Hp & _).
  split; [exact Hne | exact Hp].
Defined.

Lemma errorMessage_nonempty (m : option string) : errorMessage m <> "".
Proof.
  unfold errorMessage. destruct m as [s|]; [|discriminate].
  destruct s; simpl; discriminate.
Qed.

(** X10. A stream reports success exactly when the bucket name is set and
    the store accepted the upload; in every other case it ends with an
    error event, and the message of an error event is never empty. *)
Theorem stream_succeeds_iff_bucket_set_and_store_accepts :
  forall (env : R2Config.Env) (store : Store) (pr : Prepared),
    let c := fst (start env store pr freshController) in
    (succeeded c
     <-> Js.truthy (R2Config.R2_BUCKET_NAME env) = true
         /\ run_outcome (store (uploadParams (R2Config.R2_BUCKET_NAME env) pr)) = Resolved)
    /\ (succeeded c \/ exists message : string, last (queue c) (Error "") = Error message)
    /\ (forall message : string, In (Error message) (queue c) -> message <> "").
Proof.
  intros env store pr c. subst c.
  destruct (Js.truthy (R2Config.R2_BUCKET_NAME env)) eqn:Hb.
  - rewrite (start_with_bucket env store pr Hb). simpl fst. simpl queue.
    assert (Hpo : Forall isProgress (queue (ctrl (afterCallbacks env store pr))))
      by (apply (inv_progress_only _ (fire_inv _ _ _ initial_inv))).
    rewrite Forall_forall in Hpo.
    destruct (run_outcome (store (uploadParams (R2Config.R2_BUCKET_NAME env) pr)))
      as [|m] eqn:Ho; simpl terminalOf.
    + assert (Hs : succeeded
                {| queue := queue (ctrl (afterCallbacks env store pr))
                            ++ [Done (pr_key pr)
                                  (R2Upload.joinPublicUrl (R2Config.R2_PUBLIC_URL env) (pr_key pr))
                                  (file_name (pr_file pr)) (pr_contentType pr)
                                  (file_size (pr_file pr))];
                   closed := true |}).
      { do 5 eexists. simpl. apply in_or_app. right. left. reflexivity. }
      split; [split; [intros _; split; reflexivity | intros _; exact Hs]|].
      split; [left; exact Hs|].
      intros message Hin. apply in_app_or in Hin.
      destruct Hin as [Hin | [Hin | []]]; [exact (False_ind _ (Hpo _ Hin)) | discriminate].
    + split; [split|].
      * intros (k & u & n & ct & sz & Hin). simpl in Hin. apply in_app_or in Hin.
        destruct Hin as [Hin | [Hin | []]]; [exact (False_ind _ (Hpo _ Hin)) | discriminate].
      * intros [_ H]. discriminate.
      * split.
        -- right. exists (errorMessage m). apply last_last.
        -- intros message Hin. apply in_app_or in Hin.
           destruct Hin as [Hin | [Hin | []]]; [exact (False_ind _ (Hpo _ Hin))|].
           injection Hin as <-. apply errorMessage_nonempty.
  - rewrite (start_without_bucket env store pr Hb). simpl fst. simpl queue.
    split; [split|].
    + intros (k & u & n & ct & sz & [Hin | []]). discriminate.
    + intros [H _]. discriminate.
    + split.
      * right. eexists. reflexivity.
      * intros message [Hin | []]. injection Hin as <-. discriminate.
Qed.

End MoreOnStreams.

(* ================================================================== *)
(** * Trimming *)
(* ================================================================== *)

Section Trimming.
Import TrimFacts.
Local Open Scope string_scope.

Lemma revString_acc (s acc : string) :
  Js.revString s acc = Js.revString s "" ++ acc.
Proof.
  revert acc. induction s as [|c s IH]; intros acc; simpl; [reflexivity|].
  rewrite IH, (IH (String c "")). rewrite append_assoc. reflexivity.
Qed.

Lemma revString_snoc (s : string) (c : ascii) :
  Js.revString (s ++ String c "") "" = String c (Js.revString s "").
Proof.
  induction s as [|d s IH]; simpl; [reflexivity|].
  rewrite revString_acc, IH, (revString_acc s (String d "")). reflexivity.
Qed.

Lemma revString_involutive (s : string) : Js.revString (Js.revString s "") "" = s.
Proof.
  induction s as [|c s IH]; simpl; [reflexivity|].
  rewrite (revString_acc s (String c "")), revString_snoc, IH. reflexivity.
Qed.

Lemma revString_app (a b : string) :
  Js.revString (a ++ b) "" = Js.revString b "" ++ Js.revString a "".
Proof.
  induction a as [|c a IH]; simpl; [rewrite append_nil_r; reflexivity|].
  rewrite (revString_acc (a ++ b) (String c "")), IH,
    (revString_acc a (String c "")), append_assoc.
  reflexivity.
Qed.

Lemma stripPrefix_startsWith (p s : string) :
  Js.stripPrefix p s = None <-> Js.startsWith p s = false.
Proof.
  revert s. induction p as [|a p IH]; intros s; simpl; [split; discriminate|].
  destruct s as [|b s]; [split; reflexivity|].
  destruct (Ascii.eqb a b); simpl; [apply IH | split; reflexivity].
Qed.

Lemma stripPrefix_append (p s r : string) :
  Js.stripPrefix p s = Some r -> s = p ++ r.
Proof.
  revert s. induction p as [|a p IH]; intros s; simpl; [intros [= ->]; reflexivity|].
  destruct s as [|b s]; [discriminate|].
  destruct (Ascii.eqb a b) eqn:E; [|discriminate].
  apply Ascii.eqb_eq in E. subst b. intros H. rewrite (IH s H). reflexivity.
Qed.

Lemma stripOne_none (chars : list string) (s : string) :
  Js.stripOne chars s = None
  <-> forall w : string, In w chars -> Js.startsWith w s = false.
Proof.
  induction chars as [|c chars IH]; simpl; [split; [intros _ w [] | reflexivity]|].
  destruct (Js.stripPrefix c s) as [r|] eqn:E.
  - split; [discriminate|]. intros H. specialize (H c (or_introl eq_refl)).
    apply stripPrefix_startsWith in H. congruence.
  - rewrite IH. apply stripPrefix_startsWith in E. split.
    + intros H w [<- | Hw]; [exact E | exact (H w Hw)].
    + intros H w Hw. apply H. right. exact Hw.
Qed.

Lemma stripOne_some (chars : list string) (s r : string) :
  Js.stripOne chars s = Some r -> exists w : string, In w chars /\ s = w ++ r.
Proof.
  induction chars as [|c chars IH]; simpl; [discriminate|].
  destruct (Js.stripPrefix c s) as [r'|] eqn:E.
  - intros [= ->]. exists c. split; [left; reflexivity | exact (stripPrefix_append _ _ _ E)].
  - intros H. destruct (IH H) as (w & Hw & Heq). exists w. split; [right; exact Hw | exact Heq].
Qed.

(** Once the bound is the length of the string, nothing is left to
    strip. *)
Lemma stripAll_none (chars : list string) (n : nat) (s : string) :
  (forall w : string, In w chars -> w <> "") ->
  (String.length s <= n)%nat ->
  Js.stripOne chars (Js.stripAll chars n s) = None.
Proof.
  intros Hne. revert s. induction n as [|n IH]; intros s Hlen; simpl.
  - destruct s; [|simpl in Hlen; lia].
    apply stripOne_none. intros w Hw. specialize (Hne w Hw).
    destruct w; [congruence | reflexivity].
  - destruct (Js.stripOne chars s) as [r|] eqn:E; [|exact E].
    apply IH. destruct (stripOne_some _ _ _ E) as (w & Hw & Heq).
    specialize (Hne w Hw). subst s. rewrite append_length in Hlen.
    destruct w; [congruence | simpl in Hlen; lia].
Qed.

Lemma stripAll_suffix (chars : list string) (n : nat) (s : string) :
  exists pre : string, s = pre ++ Js.stripAll chars n s.
Proof.
  revert s. induction n as [|n IH]; intros s; simpl; [exists ""; reflexivity|].
  destruct (Js.stripOne chars s) as [r|] eqn:E; [|exists ""; reflexivity].
  destruct (stripOne_some _ _ _ E) as (w & _ & Heq).
  destruct (IH r) as (pre & Hpre). exists (w ++ pre).
  rewrite append_assoc, <- Hpre. exact Heq.
Qed.

Lemma stripAll_fixed (chars : list string) (n : nat) (s : string) :
  Js.stripOne chars s = None -> Js.stripAll chars n s = s.
Proof. intros H. destruct n; simpl; [reflexivity | rewrite H; reflexivity]. Qed.

Lemma whiteSpace_nonempty (w : string) : In w Js.whiteSpace -> w <> "".
Proof.
  intros Hw. unfold Js.whiteSpace in Hw. simpl in Hw.
  repeat (destruct Hw as [<- | Hw]; [discriminate|]). contradiction.
Qed.

Lemma whiteSpaceReversed_nonempty (w : string) : In w Js.whiteSpaceReversed -> w <> "".
Proof.
  intros Hw. unfold Js.whiteSpaceReversed, Js.whiteSpace in Hw. simpl in Hw.
  repeat (destruct Hw as [<- | Hw]; [discriminate|]). contradiction.
Qed.

Lemma startsWith_append (w a b : string) :
  Js.startsWith w a = true -> Js.startsWith w (a ++ b) = true.
Proof.
  revert a. induction w as [|c w IH]; intros a; simpl; [reflexivity|].
  destruct a as [|d a]; simpl; [discriminate|].
  destruct (Ascii.eqb c d); simpl; [apply IH | discriminate].
Qed.

Lemma trimStart_start (s w : string) :
  In w Js.whiteSpace -> Js.startsWith w (Js.trimStart s) = false.
Proof.
  intros Hw. unfold Js.trimStart.
  exact (proj1 (stripOne_none _ _)
           (stripAll_none _ _ s whiteSpace_nonempty (Nat.le_refl _)) w Hw).
Qed.

Lemma trimEnd_end (s w : string) :
  In w Js.whiteSpace -> Js.endsWith w (Js.trimEnd s) = false.
Proof.
  intros Hw. unfold Js.endsWith, Js.trimEnd. cbv zeta. rewrite revString_involutive.
  apply (proj1 (stripOne_none _ _)
           (stripAll_none _ _ (Js.revString s "") whiteSpaceReversed_nonempty
              (Nat.le_refl _))).
  exact (in_map (fun x => Js.revString x "") _ _ Hw).
Qed.

Lemma trimEnd_prefix (s : string) : exists suffix : string, s = Js.trimEnd s ++ suffix.
Proof.
  unfold Js.trimEnd. cbv zeta.
  destruct (stripAll_suffix Js.whiteSpaceReversed
              (String.length (Js.revString s "")) (Js.revString s "")) as (pre & Hpre).
  exists (Js.revString pre "").
  rewrite <- revString_app, <- Hpre. symmetry. apply revString_involutive.
Qed.

Lemma trimStart_fixed (s : string) :
  (forall w : string, In w Js.whiteSpace -> Js.startsWith w s = false) ->
  Js.trimStart s = s.
Proof.
  intros H. unfold Js.trimStart. apply stripAll_fixed. apply stripOne_none. exact H.
Qed.

Lemma trimEnd_fixed (s : string) :
  (forall w : string, In w Js.whiteSpace -> Js.endsWith w s = false) ->
  Js.trimEnd s = s.
Proof.
  intros H. unfold Js.trimEnd. cbv zeta. rewrite stripAll_fixed; [apply revString_involutive|].
  apply stripOne_none. intros w' Hw'. unfold Js.whiteSpaceReversed in Hw'.
  apply in_map_iff in Hw'. destruct Hw' as (w & <- & Hw). exact (H w Hw).
Qed.

Lemma trim_trimmed (s : string) : trimmed (Js.trim s).
Proof.
  unfold Js.trim. split.
  - intros w Hw. destruct (Js.startsWith w (Js.trimEnd (Js.trimStart s))) eqn:E; [|reflexivity].
    destruct (trimEnd_prefix (Js.trimStart s)) as (suffix & Hs).
    apply (startsWith_append w _ suffix) in E. rewrite <- Hs in E.
    rewrite (trimStart_start s w Hw) in E. discriminate E.
  - intros w Hw. apply trimEnd_end. exact Hw.
Qed.

Lemma trimmed_fixed (s : string) : trimmed s -> Js.trim s = s.
Proof.
  intros [Hf Hl]. unfold Js.trim. rewrite (trimStart_fixed s Hf). apply trimEnd_fixed. exact Hl.
Qed.

(** A string that does not start with a pattern still does not once text
    is added behind it, when the text begins with a byte that the pattern
    does not hold after its first. *)
Lemma startsWith_behind (p x : string) (c : ascii) (t : string) :
  Js.startsWith p x = false ->
  x <> "" ->
  Facts.hasChar c (afterFirst p) = false ->
  Js.startsWith p (x ++ String c t) = false.
Proof.
  assert (Hin : forall p x,
             Js.startsWith p x = false -> Facts.hasChar c p = false ->
             Js.startsWith p (x ++ String c t) = false).
  { clear p x. induction p as [|a p IH]; intros x; simpl; [discriminate|].
    intros Hs Hc. apply orb_false_iff in Hc. destruct Hc as [Ha Hp].
    destruct x as [|b x]; simpl; [rewrite Ha; reflexivity|].
    destruct (Ascii.eqb a b); simpl in *; [apply IH; assumption | reflexivity]. }
  destruct p as [|a p]; simpl; [discriminate|].
  destruct x as [|b x]; [congruence|]. simpl.
  intros Hs _ Hc. destruct (Ascii.eqb a b); simpl in *; [apply Hin; assumption | reflexivity].
Qed.

(** X12. The folder the upload route takes from the form is never empty
    and neither starts nor ends with a white space character; it is the
    trimmed text of the field, and it is absent when the field is missing,
    is a file, or holds white space only. *)
Theorem resolveFolder_is_trimmed_and_nonempty :
  forall (folder : option UploadRoute.FormEntry),
    match UploadRoute.resolveFolder folder with
    | Some f =>
        f <> "" /\ trimmed f
        /\ exists s : string, folder = Some (UploadRoute.EntryString s) /\ f = Js.trim s
    | None =>
        forall s : string, folder = Some (UploadRoute.EntryString s) -> Js.trim s = ""
    end.
Proof.
  intros folder. unfold UploadRoute.resolveFolder.
  destruct folder as [[s|f]|]; try (intros s' H; discriminate).
  destruct (Js.truthy (Js.trim s)) eqn:E.
  - split; [intros H; rewrite H in E; discriminate|].
    split; [apply trim_trimmed|]. exists s. split; reflexivity.
  - intros s' [= <-]. destruct (Js.trim s); [reflexivity | discriminate].
Qed.

End Trimming.

(* ================================================================== *)
(** * Folders of the upload component *)
(* ================================================================== *)

Section ClientFolders.
Import FileUploadClient UploadRoute.
Local Open Scope string_scope.

Lemma folderFor_cases (endpoint : Endpoint) (fileType : string) :
  In (folderFor endpoint fileType)
     ["images/courses"; "videos/chapters"; "images/attachments";
      "videos/attachments"; "documents/attachments"].
Proof.
  unfold folderFor. destruct endpoint; simpl configFolder.
  - left. reflexivity.
  - destruct (Js.startsWith "image/" fileType); [right; right; left; reflexivity|].
    destruct (Js.startsWith "video/" fileType).
    + right; right; right; left. reflexivity.
    + right; right; right; right; left. reflexivity.
  - right; left. reflexivity.
Qed.

(** X13. The key the route makes for a form posted by the upload
    component lies under the folder the component chose: one of five
    folders, and never the generic "uploads/attachments" of the
    configuration. *)
Theorem client_upload_key_lies_under_client_folder :
  forall (endpoint : Endpoint) (file : File) (ts : N) (id : string),
    R2Upload.generateR2Key ts id (file_name file) (resolveFolder (snd (formOf endpoint file)))
    = folderFor endpoint (file_type file) ++ "/" ++ Js.showNat ts ++ "-" ++ id ++ "-"
      ++ R2Upload.sanitizeFilename (file_name file)
    /\ In (folderFor endpoint (file_type file))
          ["images/courses"; "videos/chapters"; "images/attachments";
           "videos/attachments"; "documents/attachments"].
Proof.
  intros endpoint file ts id. split; [|apply folderFor_cases].
  unfold formOf. simpl snd.
  pose proof (folderFor_cases endpoint (file_type file)) as H.
  simpl in H.
  repeat (destruct H as [H | H]; [rewrite <- H; reflexivity|]).
  contradiction.
Qed.

End ClientFolders.

(* ================================================================== *)
(** * Order of the merged catalog *)
(* ================================================================== *)

Section CatalogOrder.
Import Lms Props CatalogFacts.
Local Open Scope list_scope.

Lemma insertBy_perm {A : Type} (key : A -> Z) (x : A) (l : list A) :
  Permutation (insertBy key x l) (x :: l).
Proof.
  induction l as [|y l IH]; simpl; [apply Permutation_refl|].
  destruct (key x <=? key y); [apply Permutation_refl|].
  eapply perm_trans; [apply perm_skip; exact IH | apply perm_swap].
Qed.

Lemma sortBy_perm {A : Type} (key : A -> Z) (l : list A) :
  Permutation (sortBy key l) l.
Proof.
  induction l as [|x l IH]; simpl; [apply perm_nil|].
  eapply perm_trans; [apply insertBy_perm | apply perm_skip; exact IH].
Qed.

Lemma insertBy_sorted {A : Type} (key : A -> Z) (x : A) (l : list A) :
  Sorted Z.le (map key l) -> Sorted Z.le (map key (insertBy key x l)).
Proof.
  induction l as [|y l IH]; simpl; intros Hs.
  - constructor; constructor.
  - destruct (key x <=? key y) eqn:E; simpl.
    + apply Z.leb_le in E. constructor; [exact Hs | constructor; exact E].
    + apply Z.leb_gt in E. inversion Hs as [|? ? Hl Hhd]; subst.
      constructor; [apply IH; exact Hl|].
      destruct l as [|z l']; simpl.
      * constructor. lia.
      * destruct (key x <=? key z); simpl; constructor; [lia|].
        inversion Hhd; subst. assumption.
Qed.

Lemma sortBy_sorted {A : Type} (key : A -> Z) (l : list A) :
  Sorted Z.le (map key (sortBy key l)).
Proof.
  induction l as [|x l IH]; simpl; [constructor | apply insertBy_sorted; exact IH].
Qed.

(** An insertion keeps the order of the elements of one key: the new
    element goes before the elements of its own key. *)
Lemma insertBy_atPosition {A : Type} (key : A -> Z) (k : Z) (x : A) (l : list A) :
  atPosition key k (insertBy key x l) = atPosition key k (x :: l).
Proof.
  unfold atPosition. induction l as [|y l IH]; simpl; [reflexivity|].
  destruct (key x <=? key y) eqn:E; [reflexivity|].
  apply Z.leb_gt in E. simpl. rewrite IH. simpl.
  destruct (key x =? k) eqn:Ex; [|reflexivity].
  apply Z.eqb_eq in Ex. destruct (key y =? k) eqn:Ey; [|reflexivity].
  apply Z.eqb_eq in Ey. lia.
Qed.

Lemma sortBy_atPosition {A : Type} (key : A -> Z) (k : Z) (l : list A) :
  atPosition key k (sortBy key l) = atPosition key k l.
Proof.
  induction l as [|x l IH]; simpl; [reflexivity|].
  rewrite insertBy_atPosition. unfold atPosition in *. simpl. rewrite IH. reflexivity.
Qed.

Lemma atPosition_map {A B : Type} (f : A -> B) (key : B -> Z) (k : Z) (l : list A) :
  atPosition key k (map f l) = map f (atPosition (fun x => key (f x)) k l).
Proof.
  unfold atPosition. induction l as [|x l IH]; simpl; [reflexivity|].
  destruct (key (f x) =? k); simpl; rewrite IH; reflexivity.
Qed.

(** X14. The merged catalog is in ascending order of position and holds
    the chapters and quizzes it was given, each as often as given. *)
Theorem mergeContent_sorted_permutation :
  forall (cs : list ChapterItem) (qs : list QuizItem),
    ascending (mergeContent cs qs)
    /\ Permutation (mergeContent cs qs) (map CChapter cs ++ map CQuiz qs).
Proof.
  intros cs qs. unfold ascending, mergeContent.
  split; [apply sortBy_sorted | apply sortBy_perm].
Qed.

(** X15. Where chapters and quizzes share a position, the merged catalog
    lists the chapters first and then the quizzes, each kind in the order
    it was given. *)
Theorem mergeContent_ties_chapters_first :
  forall (cs : list ChapterItem) (qs : list QuizItem) (k : Z),
    atPosition contentPosition k (mergeContent cs qs)
    = map CChapter (atPosition (fun c => ch_position (ci_chapter c)) k cs)
      ++ map CQuiz (atPosition (fun q => qz_position (qi_quiz q)) k qs).
Proof.
  intros cs qs k. unfold mergeContent. rewrite sortBy_atPosition.
  unfold atPosition at 1. rewrite filter_app.
  fold (atPosition contentPosition k (map CChapter cs)).
  fold (atPosition contentPosition k (map CQuiz qs)).
  rewrite !atPosition_map. reflexivity.
Qed.

End CatalogOrder.

(* ================================================================== *)
(** * Purchases and access *)
(* ================================================================== *)

Section PurchasesAndAccess.
Import Lms.
Local Open Scope list_scope.

Lemma course_access_by_purchase (userId : string) (c : Course) :
  (exists p : Purchase,
     In p (co_purchases c) /\ pu_userId p = userId /\ pu_status p = "ACTIVE") ->
  courseAccess userId c = true.
Proof.
  intros H. apply has_active_purchase in H. unfold courseAccess.
  destruct (co_price c); rewrite H; [apply orb_true_r | reflexivity].
Qed.

End PurchasesAndAccess.
(* ================================================================== *)
(** * What the content route lists *)
(* ================================================================== *)

Section ContentListing.
Import Lms Props CatalogFacts ContentRoute.
Local Open Scope list_scope.

Lemma map_rowOf_chapters (cs : list ChapterItem) :
  map rowOf (map CChapter cs) = map inl (map ci_chapter cs).
Proof. rewrite !map_map. reflexivity. Qed.

Lemma map_rowOf_quizzes (qs : list QuizItem) :
  map rowOf (map CQuiz qs) = map inr (map qi_quiz qs).
Proof. rewrite !map_map. reflexivity. Qed.

Lemma fetchChapters_rows (db : Db) (hasAccess : bool) (userId : option string) (courseId : string) :
  map ci_chapter (fetchChapters db hasAccess userId courseId) = publishedChapters db courseId.
Proof.
  unfold fetchChapters. rewrite map_map. simpl. apply map_id.
Qed.

Lemma fetchQuizzes_rows (db : Db) (hasAccess : bool) (userId : option string) (courseId : string) :
  map qi_quiz (fetchQuizzes db hasAccess userId courseId) = publishedQuizzes db courseId.
Proof.
  unfold fetchQuizzes. rewrite map_map. simpl. apply map_id.
Qed.

(** X16. The response of the content route lists, in ascending order of
    position, the published chapters and the published quizzes of the
    course, each once for each of its rows, and nothing else, whoever
    asks. *)
Theorem content_route_lists_published_rows_in_order :
  forall (db : Db) (userId : option string) (courseId : string),
    let items := map an_content (GET db userId courseId) in
    ascending items
    /\ Permutation (map rowOf items)
                   (map inl (publishedChapterRows db courseId)
                    ++ map inr (publishedQuizRows db courseId)).
Proof.
  intros db userId courseId items. subst items.
  unfold GET. rewrite annotateAll_contents.
  split; [unfold ascending, mergeContent; apply sortBy_sorted|].
  eapply perm_trans.
  - apply Permutation_map. unfold mergeContent. apply sortBy_perm.
  - rewrite map_app, map_rowOf_chapters, map_rowOf_quizzes.
    rewrite fetchChapters_rows, fetchQuizzes_rows.
    apply Permutation_app; apply Permutation_map; apply sortBy_perm.
Qed.

(** X17. To a caller without access the content route hands out nothing
    about quiz results: no quiz of the response carries results and no
    chapter carries its required quiz. *)
Theorem content_route_hides_results_without_access :
  forall (db : Db) (userId : option string) (courseId : string) (a : Annotated),
    hasAccessOf db userId courseId = false ->
    In a (GET db userId courseId) ->
    carriesNoResults (an_content a).
Proof.
  intros db userId courseId a Hno Hin.
  assert (Hitem : In (an_content a) (map an_content (GET db userId courseId)))
    by (apply in_map; exact Hin).
  unfold GET in Hitem. rewrite annotateAll_contents, Hno in Hitem.
  unfold mergeContent in Hitem. apply sortBy_In in Hitem.
  assert (Hq : queryUser false userId = None).
  { unfold queryUser. destruct userId; reflexivity. }
  apply in_app_or in Hitem. destruct Hitem as [Hitem | Hitem];
    apply in_map_iff in Hitem; destruct Hitem as (x & <- & Hx).
  - unfold fetchChapters in Hx. apply in_map_iff in Hx. destruct Hx as (row & <- & _).
    simpl. rewrite Hq. reflexivity.
  - unfold fetchQuizzes in Hx. apply in_map_iff in Hx. destruct Hx as (row & <- & _).
    simpl. rewrite Hq. reflexivity.
Qed.

Lemma content_route_hides_results_without_access_witness :
  hasAccessOf Scenario.db1 (Some "alice") "c2" = false
  /\ In (mkAnnotated (CQuiz (mkQuizItem Scenario.paidQuiz None)) false None)
        (GET Scenario.db1 (Some "alice") "c2")
  /\ carriesNoResults (CQuiz (mkQuizItem Scenario.paidQuiz None)).
Proof.
  assert (Hin : In (mkAnnotated (CQuiz (mkQuizItem Scenario.paidQuiz None)) false None)
                   (GET Scenario.db1 (Some "alice") "c2"))
    by (vm_compute; right; left; reflexivity).
  split; [reflexivity|]. split; [exact Hin|].
  exact (content_route_hides_results_without_access
           Scenario.db1 (Some "alice") "c2" _ eq_refl Hin).
Defined.

(** X18. When the access route reports access, the content route grants
    it too: an ACTIVE purchase opens both. *)
Theorem access_route_access_implies_content_access :
  forall (db : Db) (userId : option string) (courseId : string) (hasPurchase : bool),
    AccessRoute.GET db userId courseId = AccessRoute.AccessJson true hasPurchase ->
    hasAccessOf db userId courseId = true.
Proof.
  intros db userId courseId hasPurchase H.
  unfold AccessRoute.GET in H. unfold hasAccessOf.
  destruct userId as [u|]; [|discriminate].
  destruct (Js.truthy u); simpl in H; [|discriminate].
  destruct (findPublishedCourse db courseId) as [course|]; [|discriminate].
  injection H as Hv _. apply validPurchase_iff in Hv.
  apply course_access_by_purchase. exact Hv.
Qed.

Lemma access_route_access_implies_content_access_witness :
  AccessRoute.GET Scenario.db1 (Some "bob") "c2" = AccessRoute.AccessJson true true
  /\ hasAccessOf Scenario.db1 (Some "bob") "c2" = true.
Proof.
  split; [reflexivity|].
  exact (access_route_access_implies_content_access
           Scenario.db1 (Some "bob") "c2" true eq_refl).
Defined.

End ContentListing.

(* ================================================================== *)
(** * Passing a quiz *)
(* ================================================================== *)

Section PassingAQuiz.
Import Lms Props.
Local Open Scope list_scope.

(** X19. A quiz counts as passed exactly when one result of the learner
    is 50 or more; so the order of the results does not matter, and a
    further result never turns a passed quiz into a quiz not passed. *)
Theorem quiz_passed_iff_some_result_reaches_50 :
  forall results : list Z,
    (notPassed results = false <-> exists r : Z, In r results /\ 50 <= r)
    /\ (forall more : list Z,
          notPassed results = false -> incl results more -> notPassed more = false).
Proof.
  assert (Hchar : forall results : list Z,
             notPassed results = false <-> exists r : Z, In r results /\ 50 <= r).
  { intros results. destruct results as [|first rest]; simpl.
    - split; [discriminate | intros (r & [] & _)].
    - rewrite Z.ltb_ge.
      destruct (bestPercentage_isBest first rest) as [Hin Hall]. split.
      + intros H. exists (bestPercentage first rest). split; [exact Hin | exact H].
      + intros (r & Hr & Hle). rewrite Forall_forall in Hall.
        specialize (Hall r Hr). simpl in Hall. lia. }
  intros results. split; [apply Hchar|].
  intros more Hp Hincl. apply Hchar. apply Hchar in Hp.
  destruct Hp as (r & Hr & Hle). exists r. split; [apply Hincl; exact Hr | exact Hle].
Qed.

Lemma quiz_passed_iff_some_result_reaches_50_witness :
  notPassed [30; 80] = false
  /\ incl [30; 80] [80; 10; 30]
  /\ notPassed [80; 10; 30] = false.
Proof.
  assert (Hincl : incl [30; 80] [80; 10; 30]).
  { intros x [<- | [<- | []]]; simpl; tauto. }
  split; [reflexivity|]. split; [exact Hincl|].
  exact (proj2 (quiz_passed_iff_some_result_reaches_50 [30; 80]) [80; 10; 30] eq_refl Hincl).
Defined.

End PassingAQuiz.

(* ================================================================== *)
(** * The answer of the first-content route *)
(* ================================================================== *)

Section FirstContent.
Import Lms Props CatalogFacts FirstContentRoute.
Local Open Scope list_scope.

Lemma chapterAccessible_without_access (signedIn : bool) (userStudyType : option string)
    (all : list Content) (chapter : ChapterItem) :
  chapterAccessible false signedIn userStudyType all chapter = openPreview (CChapter chapter).
Proof.
  unfold chapterAccessible, studyTypeLocked, requiredQuizLocked, openPreview.
  destruct userStudyType as [ust|]; simpl;
    destruct (ch_requirePassingQuiz (ci_chapter chapter)
              && Js.truthyOpt (ch_requiredQuizId (ci_chapter chapter)));
    simpl; destruct (ch_isFree (ci_chapter chapter)); reflexivity.
Qed.

Lemma firstAccessible_without_access (signedIn : bool) (userStudyType : option string)
    (all rest : list Content) :
  firstAccessible false signedIn userStudyType all rest = answerFor (find openPreview rest).
Proof.
  induction rest as [|item rest IH]; simpl; [reflexivity|].
  destruct item as [ch|q].
  - rewrite chapterAccessible_without_access.
    destruct (openPreview (CChapter ch)); [reflexivity | exact IH].
  - unfold quizAccessible. simpl. exact IH.
Qed.

(** X20. For a signed-in user without access to a published course, the
    first-content route answers with the first chapter of the catalog that
    is free and has no quiz requirement, and with nothing when there is
    none; it never answers with a quiz. *)
Theorem first_content_without_access_is_first_open_preview :
  forall (db : Db) (userId courseId : string) (course : Course),
    Js.truthy userId = true ->
    findPublishedCourse db courseId = Some course ->
    courseAccess userId course = false ->
    GET db (Some userId) courseId
    = answerFor (find openPreview
                   (mergeContent (fetchChapters db false userId courseId)
                                 (fetchQuizzes db false userId courseId)))
    /\ forall id : option string, GET db (Some userId) courseId <> FirstJson id (Some "quiz").
Proof.
  intros db userId courseId course Hu Hc Hno.
  assert (Heq : GET db (Some userId) courseId
                = answerFor (find openPreview
                               (mergeContent (fetchChapters db false userId courseId)
                                             (fetchQuizzes db false userId courseId)))).
  { unfold GET. rewrite Hu, Hc, Hno. simpl. apply firstAccessible_without_access. }
  split; [exact Heq|].
  intros id. rewrite Heq.
  destruct (find openPreview _) as [[ch|q]|] eqn:E; simpl; try discriminate.
  apply find_some in E. destruct E as [_ E]. discriminate.
Qed.

Lemma first_content_without_access_is_first_open_preview_witness :
  Js.truthy "carol" = true
  /\ findPublishedCourse Scenario.db1 "c2" = Some Scenario.paidCourse
  /\ courseAccess "carol" Scenario.paidCourse = false
  /\ GET Scenario.db1 (Some "carol") "c2" = FirstJson None None.
Proof.
  split; [reflexivity|]. split; [reflexivity|]. split; [reflexivity|].
  rewrite (proj1 (first_content_without_access_is_first_open_preview
                    Scenario.db1 "carol" "c2" Scenario.paidCourse eq_refl eq_refl eq_refl)).
  reflexivity.
Defined.

Lemma findIndex_unique (all : list Content) (index : nat) (item : Content) :
  NoDup (map contentId all) ->
  nth_error all index = Some item ->
  findIndex (fun c => String.eqb (contentId c) (contentId item)) all = Some index.
Proof.
  intros Hnd Hitem. unfold findIndex.
  destruct (findIndexFrom (fun c => String.eqb (contentId c) (contentId item)) 0 all)
    as [i|] eqn:E.
  - destruct (findIndexFrom_some _ _ _ _ E) as (k & x & -> & Hk & Hp). simpl.
    apply String.eqb_eq in Hp. f_equal.
    rewrite NoDup_nth_error in Hnd. apply Hnd.
    + rewrite length_map. apply nth_error_Some. rewrite Hk. discriminate.
    + rewrite !nth_error_map, Hk, Hitem. simpl. rewrite Hp. reflexivity.
  - apply findIndexFrom_none with (x := item) in E.
    + rewrite String.eqb_refl in E. discriminate.
    + eapply nth_error_In. exact Hitem.
Qed.

Lemma accessible_iff_unlocked (all : list Content) (index : nat) (item : Content) :
  NoDup (map contentId all) ->
  nth_error all index = Some item ->
  match item with
  | CChapter ch => chapterAccessible true true None all ch
  | CQuiz q => quizAccessible true true all q
  end
  = negb (ContentRoute.an_isLocked (ContentRoute.annotate true true all item index)).
Proof.
  intros Hnd Hitem.
  pose proof (findIndex_unique all index item Hnd Hitem) as Hidx.
  destruct item as [ch|q]; simpl in Hidx.
  - unfold chapterAccessible, studyTypeLocked, requiredQuizLocked, sequentialLocked.
    rewrite Hidx. unfold ContentRoute.annotate, ContentRoute.requiredQuizStep,
      ContentRoute.sequentialStep. simpl.
    destruct (ch_requirePassingQuiz (ci_chapter ch)
              && Js.truthyOpt (ch_requiredQuizId (ci_chapter ch))); simpl.
    + destruct (ContentRoute.firstRequiredResult ch) as [pct|]; simpl; [|reflexivity].
      destruct (pct <? 50); simpl; [reflexivity|].
      destruct (scanBack all index); reflexivity.
    + destruct (scanBack all index); reflexivity.
  - unfold quizAccessible, sequentialLocked. simpl. rewrite Hidx.
    unfold ContentRoute.annotate, ContentRoute.sequentialStep. simpl.
    destruct (scanBack all index); reflexivity.
Qed.

Lemma firstAccessible_from (all pre rest : list Content) :
  NoDup (map contentId all) ->
  all = pre ++ rest ->
  firstAccessible true true None all rest
  = answerFor
      (option_map ContentRoute.an_content
         (find (fun a => negb (ContentRoute.an_isLocked a))
               (mapiFrom (ContentRoute.annotate true true all) (List.length pre) rest))).
Proof.
  intros Hnd. revert pre. induction rest as [|item rest IH]; intros pre Hall; [reflexivity|].
  assert (Hitem : nth_error all (List.length pre) = Some item).
  { rewrite Hall, nth_error_app2, Nat.sub_diag by lia. reflexivity. }
  pose proof (accessible_iff_unlocked all (List.length pre) item Hnd Hitem) as Hacc.
  assert (Hnext : firstAccessible true true None all rest
                  = answerFor
                      (option_map ContentRoute.an_content
                         (find (fun a => negb (ContentRoute.an_isLocked a))
                               (mapiFrom (ContentRoute.annotate true true all)
                                         (S (List.length pre)) rest)))).
  { specialize (IH (pre ++ [item])). rewrite length_app, Nat.add_1_r in IH.
    apply IH. rewrite <- app_assoc. exact Hall. }
  cbn [mapiFrom find].
  destruct item as [ch|q]; cbv beta iota in Hacc; cbn [firstAccessible]; rewrite Hacc;
    destruct (negb (ContentRoute.an_isLocked _)); try exact Hnext;
    cbn [option_map answerFor]; rewrite an_content_annotate; reflexivity.
Qed.

(** X21. For a signed-in learner with access and no study type, on a
    catalog whose items have distinct identifiers, the first-content route
    answers with the first item that the content route leaves unlocked,
    and with nothing when the content route locks every item. *)
Theorem first_content_is_first_unlocked_item :
  forall all : list Content,
    NoDup (map contentId all) ->
    firstAccessible true true None all all
    = answerFor
        (option_map ContentRoute.an_content
           (find (fun a => negb (ContentRoute.an_isLocked a))
                 (ContentRoute.annotateAll true true all))).
Proof.
  intros all Hnd. unfold ContentRoute.annotateAll, mapi.
  apply (firstAccessible_from all [] all Hnd). reflexivity.
Qed.

Lemma first_content_is_first_unlocked_item_witness :
  NoDup (map contentId (catalogOf Scenario.db3 (Some "alice") "c1"))
  /\ firstAccessible true true None (catalogOf Scenario.db3 (Some "alice") "c1")
       (catalogOf Scenario.db3 (Some "alice") "c1")
     = FirstJson (Some "q1") (Some "quiz").
Proof.
  assert (Hnd : NoDup (map contentId (catalogOf Scenario.db3 (Some "alice") "c1"))).
  { change (NoDup ["q1"; "ch1"; "ch2"; "q2"; "ch3"]).
    repeat (constructor; [simpl; intros H;
                          repeat (destruct H as [H | H]; [discriminate|]); exact H|]).
    constructor. }
  split; [exact Hnd|].
  rewrite (first_content_is_first_unlocked_item _ Hnd). reflexivity.
Defined.

End FirstContent.

(* ================================================================== *)
(** * The chapter route *)
(* ================================================================== *)

Section ChapterRouteFacts.
Import Lms Props ChapterRoute ChapterFacts.
Local Open Scope list_scope.

Lemma passed_iff_reaches_50 (results : list Z) :
  notPassed results = false <-> exists r : Z, In r results /\ 50 <= r.
Proof.
  destruct results as [|first rest]; simpl.
  - split; [discriminate | intros (r & [] & _)].
  - rewrite Z.ltb_ge.
    destruct (bestPercentage_isBest first rest) as [Hin Hall]. split.
    + intros H. exists (bestPercentage first rest). split; [exact Hin | exact H].
    + intros (r & Hr & Hle). rewrite Forall_forall in Hall.
      specialize (Hall r Hr). simpl in Hall. lia.
Qed.

Lemma notPassed_newest_first (db : Db) (userId quizId : string) :
  notPassed (resultsNewestFirst db userId quizId) = true <-> neverReached50 db userId quizId.
Proof.
  unfold neverReached50, resultsNewestFirst. split.
  - intros Hnp r Hr.
    destruct (Z.lt_ge_cases (qr_percentage r) 50) as [Hlt | Hge]; [exact Hlt|].
    exfalso.
    assert (Hp : notPassed (map qr_percentage
                    (sortBy (fun r0 => - qr_submittedAt r0) (resultsOf db userId quizId)))
                 = false).
    { apply passed_iff_reaches_50. exists (qr_percentage r). split; [|exact Hge].
      apply in_map. apply sortBy_In. exact Hr. }
    congruence.
  - intros Hall.
    destruct (notPassed (map qr_percentage
                (sortBy (fun r0 => - qr_submittedAt r0) (resultsOf db userId quizId))))
      eqn:E; [reflexivity|].
    apply passed_iff_reaches_50 in E. destruct E as (p & Hp & Hle).
    apply in_map_iff in Hp. destruct Hp as (r & <- & Hr).
    apply sortBy_In in Hr. specialize (Hall r Hr). lia.
Qed.

Lemma nearestQuizBefore_quiz (sorted : list Entry) (i j : nat) (e e' : Entry) :
  nth_error sorted i = Some e -> en_type e = KQuiz ->
  nearestQuizBefore sorted (S i) j e' -> j = i /\ e' = e.
Proof.
  intros Hi Hq (Hlt & Hj & _ & Hbetween).
  destruct (Nat.eq_dec j i) as [->|Hne].
  - split; [reflexivity | congruence].
  - exfalso. assert (Hk : en_type e = KChapter) by (apply (Hbetween i e); [lia | exact Hi]).
    congruence.
Qed.

Lemma nearestQuizBefore_skip (sorted : list Entry) (i j : nat) (e : Entry) :
  (forall x, nth_error sorted i = Some x -> en_type x = KChapter) ->
  nearestQuizBefore sorted (S i) j e <-> nearestQuizBefore sorted i j e.
Proof.
  intros Hi. split; intros (Hlt & Hj & Hq & Hbetween).
  - assert (j <> i).
    { intros ->. specialize (Hi e Hj). congruence. }
    split; [lia|]. split; [exact Hj|]. split; [exact Hq|].
    intros k e' Hk. apply Hbetween. lia.
  - split; [lia|]. split; [exact Hj|]. split; [exact Hq|].
    intros k e' Hk Hke. destruct (Nat.eq_dec k i) as [->|Hne]; [apply Hi; exact Hke|].
    apply (Hbetween k e'); [lia | exact Hke].
Qed.

Lemma refusedFrom_spec (db : Db) (userId : string) (sorted : list Entry) (count : nat) :
  refusedFrom db userId sorted count = true
  <-> exists (j : nat) (e : Entry),
        nearestQuizBefore sorted count j e /\ neverReached50 db userId (en_id e).
Proof.
  induction count as [|i IH]; simpl.
  - split; [discriminate | intros (j & e & (Hlt & _) & _); lia].
  - destruct (nth_error sorted i) as [prev|] eqn:Hi.
    + destruct (en_type prev) eqn:Hk.
      * rewrite IH. split; intros (j & e & Hn & Hr); exists j, e; (split; [|exact Hr]);
          apply (nearestQuizBefore_skip sorted i j e); try exact Hn;
          intros x Hx; rewrite Hi in Hx; injection Hx as <-; exact Hk.
      * rewrite notPassed_newest_first. split.
        -- intros Hr. exists i, prev. split; [|exact Hr].
           split; [lia|]. split; [exact Hi|]. split; [exact Hk|]. intros k e' Hlt. lia.
        -- intros (j & e & Hn & Hr).
           destruct (nearestQuizBefore_quiz sorted i j prev e Hi Hk Hn) as [_ ->]. exact Hr.
    + rewrite IH. split; intros (j & e & Hn & Hr); exists j, e; (split; [|exact Hr]);
        apply (nearestQuizBefore_skip sorted i j e); try exact Hn;
        intros x Hx; rewrite Hi in Hx; discriminate.
Qed.

(** X22. The chapter route answers 403 exactly when the signed-in user
    has access to the course, the chapter is a published chapter of the
    course, and no result of the user reaches 50 on the nearest quiz
    before it; in particular it never answers 403 for want of access, for
    a chapter that no quiz precedes, or for an unpublished chapter. *)
Theorem chapter_route_refuses_iff_nearest_quiz_not_passed :
  forall (db : Db) (userId courseId chapterId : string),
    (exists (code : Z) (error : string) (isLocked : bool),
       GET db (Some userId) courseId chapterId = Locked code error isLocked)
    <-> Js.truthy userId = true
        /\ findChapter db courseId chapterId <> None
        /\ hasAccessOf db userId courseId = true
        /\ exists (index j : nat) (e : Entry),
             currentIndexOf (sortedContent db courseId) chapterId = Some index
             /\ nearestQuizBefore (sortedContent db courseId) index j e
             /\ neverReached50 db userId (en_id e).
Proof.
  intros db userId courseId chapterId. unfold GET.
  destruct (Js.truthy userId) eqn:Hu; simpl.
  2:{ split; [intros (c & e & l & H); discriminate | intros [H _]; discriminate]. }
  destruct (findChapter db courseId chapterId) as [chapter|] eqn:Hch.
  2:{ split; [intros (c & e & l & H); discriminate | intros (_ & H & _); congruence]. }
  assert (Href : refused db userId courseId chapterId = true
                 <-> hasAccessOf db userId courseId = true
                     /\ exists (index j : nat) (e : Entry),
                          currentIndexOf (sortedContent db courseId) chapterId = Some index
                          /\ nearestQuizBefore (sortedContent db courseId) index j e
                          /\ neverReached50 db userId (en_id e)).
  { unfold refused. rewrite Hu. destruct (hasAccessOf db userId courseId); simpl.
    - destruct (currentIndexOf (sortedContent db courseId) chapterId) as [idx|].
      + rewrite refusedFrom_spec. split.
        * intros (j & e & Hn & Hr). split; [reflexivity|]. exists idx, j, e. auto.
        * intros (_ & idx' & j & e & [= <-] & Hn & Hr). exists j, e. auto.
      + split; [discriminate | intros (_ & idx & j & e & H & _); discriminate].
    - split; [discriminate | intros [H _]; discriminate]. }
  destruct (refused db userId courseId chapterId).
  - split.
    + intros _. split; [reflexivity|]. split; [discriminate|]. apply Href. reflexivity.
    + intros _. do 3 eexists. reflexivity.
  - split.
    + intros (c & e & l & H). discriminate.
    + intros (_ & _ & H). apply Href in H. discriminate.
Qed.

Lemma currentIndexOf_some (sorted : list Entry) (chapterId : string) (i : nat) :
  currentIndexOf sorted chapterId = Some i ->
  exists e : Entry, nth_error sorted i = Some e /\ en_id e = chapterId /\ en_type e = KChapter.
Proof.
  unfold currentIndexOf, findIndex. intros H.
  destruct (findIndexFrom_some _ _ _ _ H) as (k & x & -> & Hk & Hp). simpl.
  apply andb_true_iff in Hp. destruct Hp as [Hid Hkind].
  exists x. split; [exact Hk|]. split; [apply String.eqb_eq; exact Hid|].
  destruct (en_type x); [reflexivity | discriminate].
Qed.

Lemma currentIndexOf_unique (sorted : list Entry) (i : nat) (e : Entry) :
  NoDup (map entryKey sorted) ->
  nth_error sorted i = Some e -> en_type e = KChapter ->
  currentIndexOf sorted (en_id e) = Some i.
Proof.
  intros Hnd Hi Hk. unfold currentIndexOf, findIndex.
  destruct (findIndexFrom (fun x => String.eqb (en_id x) (en_id e) && kindEqb (en_type x) KChapter)
              0 sorted) as [k|] eqn:E.
  - destruct (findIndexFrom_some _ _ _ _ E) as (k' & x & -> & Hk' & Hp). simpl. f_equal.
    apply andb_true_iff in Hp. destruct Hp as [Hid Hkind].
    apply String.eqb_eq in Hid.
    assert (Hx : en_type x = KChapter) by (destruct (en_type x); [reflexivity | discriminate]).
    rewrite NoDup_nth_error in Hnd. apply Hnd.
    + rewrite length_map. apply nth_error_Some. rewrite Hk'. discriminate.
    + rewrite !nth_error_map, Hk', Hi. simpl. unfold entryKey. rewrite Hid, Hx, Hk. reflexivity.
  - apply findIndexFrom_none with (x := e) in E.
    + rewrite String.eqb_refl, Hk in E. discriminate.
    + eapply nth_error_In. exact Hi.
Qed.

(** X23. Navigation is coherent: when the response for chapter [a] names
    chapter [b] as the next content, every response for chapter [b] names
    chapter [a] as the previous content, provided the entries of the
    course are told apart by identifier and kind. *)
Theorem chapter_route_next_then_previous :
  forall (db : Db) (userA userB courseId a b : string)
         (chapterA chapterB : Chapter)
         (previousOfA nextOfB previousOfB : option string)
         (previousKindOfA nextKindOfB previousKindOfB : option Kind),
    NoDup (map entryKey (sortedContent db courseId)) ->
    a <> "" ->
    GET db (Some userA) courseId a
    = ChapterJson chapterA (Some b) previousOfA (Some KChapter) previousKindOfA ->
    GET db (Some userB) courseId b
    = ChapterJson chapterB nextOfB previousOfB nextKindOfB previousKindOfB ->
    previousOfB = Some a /\ previousKindOfB = Some KChapter.
Proof.
  intros db userA userB courseId a b chapterA chapterB previousOfA nextOfB previousOfB
         previousKindOfA nextKindOfB previousKindOfB Hnd Ha HA HB.
  unfold GET in HA, HB.
  destruct (Js.truthy userA); simpl in HA; [|discriminate].
  destruct (Js.truthy userB); simpl in HB; [|discriminate].
  destruct (findChapter db courseId a); [|discriminate].
  destruct (findChapter db courseId b); [|discriminate].
  destruct (refused db userA courseId a); [discriminate|].
  destruct (refused db userB courseId b); [discriminate|].
  injection HA as _ Hnext _ Hnextkind _.
  injection HB as _ _ Hprev _ Hprevkind.
  destruct (currentIndexOf (sortedContent db courseId) a) as [i|] eqn:Hia;
    [|discriminate Hnext].
  destruct (currentIndexOf_some _ _ _ Hia) as (ea & Hea & Hida & Hkinda).
  unfold nextContentOf in Hnext, Hnextkind.
  destruct (Z.of_nat i <? Z.of_nat (List.length (sortedContent db courseId)) - 1);
    [|discriminate Hnext].
  destruct (nth_error (sortedContent db courseId) (S i)) as [eb|] eqn:Heb;
    [|discriminate Hnext].
  simpl in Hnext, Hnextkind.
  destruct (Js.truthy (en_id eb)); [|discriminate Hnext].
  injection Hnext as Hidb. injection Hnextkind as Hkindb.
  pose proof (currentIndexOf_unique _ _ _ Hnd Heb Hkindb) as Hib.
  rewrite Hidb in Hib. rewrite Hib in Hprev, Hprevkind.
  simpl in Hprev, Hprevkind. rewrite Hea in Hprev, Hprevkind. simpl in Hprev, Hprevkind.
  rewrite Hida in Hprev. rewrite Hkinda in Hprevkind.
  assert (Hta : Js.truthy a = true) by (destruct a; [congruence | reflexivity]).
  rewrite Hta in Hprev. split; symmetry; assumption.
Qed.

Lemma deleteChapter_gone (db : Db) (courseId chapterId : string) :
  chapterGone (deleteChapter db courseId chapterId) courseId chapterId.
Proof.
  intros c Hin [Hid Hco]. simpl in Hin. apply filter_In in Hin. destruct Hin as [_ Hp].
  rewrite Hid, Hco, !String.eqb_refl in Hp. discriminate.
Qed.

Lemma chapterGone_not_found (db : Db) (courseId chapterId : string) :
  chapterGone db courseId chapterId -> findChapter db courseId chapterId = None.
Proof.
  intros Hgone. unfold findChapter.
  destruct (find _ (chapters db)) as [c|] eqn:E; [|reflexivity].
  apply find_some in E. destruct E as [Hin Hp].
  apply andb_true_iff in Hp. destruct Hp as [Hid Hco].
  exfalso. apply (Hgone c Hin). split; apply String.eqb_eq; assumption.
Qed.

(** X24. A chapter is deleted only for a signed-in teacher or
    administrator and only when it exists; every other request leaves the
    tables as they were.  After a deletion the chapter is gone, so that the
    chapter route answers 404 for it, every other chapter is kept, and no
    other table has changed. *)
Theorem delete_chapter_effect :
  forall (db : Db) (userId role : option string) (courseId chapterId : string),
    let response := fst (DELETE db userId role courseId chapterId) in
    let db' := snd (DELETE db userId role courseId chapterId) in
    (response = Status 200 "Chapter deleted successfully"
     <-> Js.truthyOpt userId = true /\ isStaff role = true
         /\ findChapter db courseId chapterId <> None)
    /\ (response <> Status 200 "Chapter deleted successfully" -> db' = db)
    /\ (response = Status 200 "Chapter deleted successfully" ->
        (forall viewer : string,
           Js.truthy viewer = true ->
           GET db' (Some viewer) courseId chapterId = Status 404 "Chapter not found")
        /\ (forall c : Chapter,
              In c (chapters db')
              <-> In c (chapters db) /\ ~ (ch_id c = chapterId /\ ch_courseId c = courseId))
        /\ courses db' = courses db /\ quizzes db' = quizzes db
        /\ quizResults db' = quizResults db /\ users db' = users db).
Proof.
  intros db userId role courseId chapterId. unfold DELETE.
  destruct (Js.truthyOpt userId); simpl.
  2:{ split; [split; [discriminate | intros [H _]; discriminate]|].
      split; [reflexivity | discriminate]. }
  destruct (isStaff role); simpl.
  2:{ split; [split; [discriminate | intros (_ & H & _); discriminate]|].
      split; [reflexivity | discriminate]. }
  destruct (findChapter db courseId chapterId) as [chapter|] eqn:Hch; simpl.
  2:{ split; [split; [discriminate | intros (_ & _ & H); congruence]|].
      split; [reflexivity | discriminate]. }
  split; [split; [intros _; repeat split; discriminate | reflexivity]|].
  split; [congruence|].
  intros _. split; [|split].
  - intros viewer Hv. unfold GET. rewrite Hv. simpl.
    rewrite (chapterGone_not_found _ _ _ (deleteChapter_gone db courseId chapterId)).
    reflexivity.
  - intros c. rewrite filter_In. split.
    + intros [Hin Hp]. split; [exact Hin|]. intros [Hid Hco].
      rewrite Hid, Hco, !String.eqb_refl in Hp. discriminate.
    + intros [Hin Hne]. split; [exact Hin|].
      destruct (String.eqb (ch_id c) chapterId) eqn:E1; [|reflexivity].
      destruct (String.eqb (ch_courseId c) courseId) eqn:E2; [|reflexivity].
      exfalso. apply Hne. split; apply String.eqb_eq; assumption.
  - repeat split.
Qed.

End ChapterRouteFacts.

(* ================================================================== *)
(** * The migration script *)
(* ================================================================== *)

Section MigrationScript.
Import Facts UploadScript ScriptFacts.
Local Open Scope list_scope.

Lemma joinPublicUrl_nonempty (base key : string) :
  Js.truthy base = true ->
  R2Upload.joinPublicUrl base key = (dropTrailingSlash base ++ "/" ++ key)%string.
Proof.
  intros Ht. unfold R2Upload.joinPublicUrl, dropTrailingSlash. rewrite Ht. simpl negb. cbv iota.
  destruct (Js.endsWithChar "/" base) eqn:E; [|reflexivity].
  rewrite (endsWithChar_dropLast _ _ E) at 1. apply append_assoc.
Qed.

(** X25. The script writes a report only when the bucket name, the public
    base URL and the directory of the local files are all set and the
    export lists at least one row; without a bucket name, and then without
    a public base URL, it stops with the message naming the variable. *)
Theorem script_runs_only_when_configured :
  forall w : World,
    ((exists report : Report, main w = Written report)
     <-> Js.truthyOpt (w_env w "R2_BUCKET_NAME") = true
         /\ Js.truthyOpt (w_env w "R2_PUBLIC_URL") = true
         /\ Js.truthyOpt (w_env w "LOCAL_FILES_DIR") = true
         /\ rowsOf w <> [])
    /\ (Js.truthyOpt (w_env w "R2_BUCKET_NAME") = false ->
        main w = Thrown "R2_BUCKET_NAME is not set")
    /\ (Js.truthyOpt (w_env w "R2_BUCKET_NAME") = true ->
        Js.truthyOpt (w_env w "R2_PUBLIC_URL") = false ->
        main w = Thrown "R2_PUBLIC_URL is not set").
Proof.
  intros w. unfold main, rowsOf, R2Config.R2_BUCKET_NAME, R2Config.R2_PUBLIC_URL.
  rewrite !truthy_orEmpty.
  destruct (Js.truthyOpt (w_env w "R2_BUCKET_NAME")); simpl.
  2:{ split; [split; [intros [r H]; discriminate | intros [H _]; discriminate]|].
      split; [reflexivity | discriminate]. }
  destruct (Js.truthyOpt (w_env w "R2_PUBLIC_URL")); simpl.
  2:{ split; [split; [intros [r H]; discriminate | intros (_ & H & _); discriminate]|].
      split; [discriminate | reflexivity]. }
  split; [|split; [discriminate | discriminate]].
  destruct (w_env w "LOCAL_FILES_DIR") as [localDir|]; simpl.
  2:{ split; [intros [r H]; discriminate | intros (_ & _ & H & _); discriminate]. }
  destruct (Js.truthy localDir); simpl.
  2:{ split; [intros [r H]; discriminate | intros (_ & _ & H & _); discriminate]. }
  destruct (readRows w (jsonFilesOf (w_env w))) as [|row rows].
  - split; [intros [r H]; discriminate | intros (_ & _ & _ & H); congruence].
  - split; [intros _; repeat split; discriminate | intros _; eexists; reflexivity].
Qed.

Lemma script_runs_only_when_configured_witness :
  Js.truthyOpt (w_env (mkWorld Scenario.envNoPublicUrl "" (fun a b => a) (fun p => p)
                         (fun _ => true) (fun _ => []) (fun _ => Sent)
                         (fun _ => (0%N, "")) "") "R2_BUCKET_NAME") = true
  /\ main (mkWorld Scenario.envNoPublicUrl "" (fun a b => a) (fun p => p)
             (fun _ => true) (fun _ => []) (fun _ => Sent) (fun _ => (0%N, "")) "")
     = Thrown "R2_PUBLIC_URL is not set".
Proof.
  split; [reflexivity|].
  apply (proj2 (proj2 (script_runs_only_when_configured
                         (mkWorld Scenario.envNoPublicUrl "" (fun a b => a) (fun p => p)
                            (fun _ => true) (fun _ => []) (fun _ => Sent)
                            (fun _ => (0%N, "")) "")))); reflexivity.
Defined.

(** The loop handles the rows one by one: each row adds one result, and
    either one success with one mapping entry or one failure. *)
Lemma handleRow_step (w : World) (localDir : string) (i : nat) (row : UploadThingRow)
    (st : Progress) :
  exists result : Result,
    pg_results (handleRow w localDir i row st) = pg_results st ++ [result]
    /\ res_oldUrl result = row_url row
    /\ ((res_success result = true
         /\ (exists folder : string,
               inferFolderFromName (row_name row) = Some folder
               /\ res_newUrl result
                  = Some (R2Upload.joinPublicUrl (R2Config.R2_PUBLIC_URL (w_env w))
                            (keyOf w i row folder))
               /\ pg_mapping (handleRow w localDir i row st)
                  = (row_url row,
                     R2Upload.joinPublicUrl (R2Config.R2_PUBLIC_URL (w_env w))
                       (keyOf w i row folder))
                    :: pg_mapping st)
         /\ pg_ok (handleRow w localDir i row st) = S (pg_ok st)
         /\ pg_fail (handleRow w localDir i row st) = pg_fail st)
        \/ (res_success result = false
            /\ res_newUrl result = None
            /\ pg_mapping (handleRow w localDir i row st) = pg_mapping st
            /\ pg_ok (handleRow w localDir i row st) = pg_ok st
            /\ pg_fail (handleRow w localDir i row st) = S (pg_fail st))).
Proof.
  unfold handleRow.
  destruct (negb (w_exists w (w_join w localDir (row_name row)))).
  - eexists. split; [reflexivity|]. split; [reflexivity|]. right. repeat split.
  - destruct (inferFolderFromName (row_name row)) as [folder|].
    + fold (keyOf w i row folder). unfold uploadFileToR2.
      destruct (w_send w _).
      * eexists. split; [reflexivity|]. split; [reflexivity|]. left.
        split; [reflexivity|]. split; [|split; reflexivity].
        exists folder. repeat split.
      * eexists. split; [reflexivity|]. split; [reflexivity|]. right. repeat split.
    + eexists. split; [reflexivity|]. split; [reflexivity|]. right. repeat split.
Qed.

Lemma successes_snoc (results : list Result) (r : Result) :
  successes (results ++ [r])
  = (successes results + if res_success r then 1 else 0)%nat.
Proof.
  unfold successes. rewrite filter_app, length_app. simpl.
  destruct (res_success r); reflexivity.
Qed.

Lemma handleRows_counts (w : World) (localDir : string) (rows : list UploadThingRow)
    (i : nat) (st : Progress) :
  let st' := handleRows w localDir i rows st in
  map res_oldUrl (pg_results st') = map res_oldUrl (pg_results st) ++ map row_url rows
  /\ (pg_ok st' + pg_fail st' = pg_ok st + pg_fail st + List.length rows)%nat
  /\ (pg_ok st' - pg_ok st = successes (pg_results st') - successes (pg_results st))%nat
  /\ (pg_ok st <= pg_ok st')%nat
  /\ (successes (pg_results st) <= successes (pg_results st'))%nat
  /\ (List.length (pg_mapping st') - List.length (pg_mapping st) = pg_ok st' - pg_ok st)%nat
  /\ (List.length (pg_mapping st) <= List.length (pg_mapping st'))%nat
  /\ (pg_fail st <= pg_fail st')%nat.
Proof.
  revert i st. induction rows as [|row rows IH]; intros i st; simpl.
  - rewrite app_nil_r. repeat split; lia.
  - specialize (IH (S i) (handleRow w localDir i row st)). simpl in IH.
    destruct IH as (Hurls & Hsum & Hok & Hokle & Hsucle & Hmap & Hmaple & Hfail).
    destruct (handleRow_step w localDir i row st)
      as (result & Hres & Hold
          & [(Hs & (folder & _ & _ & Hm) & Ho & Hf) | (Hs & _ & Hm & Ho & Hf)]);
      rewrite Hres in Hurls, Hok, Hsucle; rewrite successes_snoc, Hs in Hok, Hsucle;
      rewrite Hm in Hmap, Hmaple; rewrite Ho in Hsum, Hok, Hokle, Hmap;
      rewrite Hf in Hsum, Hfail; rewrite map_app in Hurls; simpl in *;
      rewrite Hold, <- app_assoc in Hurls; simpl in Hurls;
      (split; [exact Hurls|]); repeat split; lia.
Qed.

(** X26. In the report of the script the successes and the failures add
    up to the number of rows; the results follow the rows one for one, in
    order; the number of successful results and the number of mapping
    entries written are the number of successes; and the process exits
    with 0 exactly when nothing failed. *)
Theorem script_report_counts :
  forall (w : World) (report : Report),
    main w = Written report ->
    rp_total report = List.length (rowsOf w)
    /\ (rp_ok report + rp_fail report = rp_total report)%nat
    /\ map res_oldUrl (rp_results report) = map row_url (rowsOf w)
    /\ successes (rp_results report) = rp_ok report
    /\ List.length (rp_mapping report) = rp_ok report
    /\ (rp_exitCode report = 0 <-> rp_fail report = 0%nat).
Proof.
  intros w report H. unfold main in H. fold (rowsOf w) in H.
  destruct (negb (Js.truthy (R2Config.R2_BUCKET_NAME (w_env w)))); [discriminate|].
  destruct (negb (Js.truthy (R2Config.R2_PUBLIC_URL (w_env w)))); [discriminate|].
  destruct (w_env w "LOCAL_FILES_DIR") as [localDir|]; [|discriminate].
  destruct (negb (Js.truthy localDir)); [discriminate|].
  destruct (rowsOf w) as [|row rows] eqn:Hrows; [discriminate|].
  injection H as <-. simpl.
  pose proof (handleRows_counts w localDir (row :: rows) 0 (mkProgress [] [] 0 0)) as Hc.
  simpl in Hc. destruct Hc as (Hurls & Hsum & Hok & _ & _ & Hmap & _ & _).
  unfold successes in Hok at 2. simpl in Hok.
  split; [reflexivity|]. split; [lia|]. split; [exact Hurls|].
  split; [lia|]. split; [lia|].
  destruct (pg_fail _) as [|n]; simpl; split; try reflexivity; try discriminate.
Qed.

Lemma script_report_counts_witness :
  exists report : Report,
    main sampleWorld = Written report
    /\ rp_total report = 2%nat
    /\ (rp_ok report + rp_fail report = rp_total report)%nat.
Proof.
  destruct (main sampleWorld) as [message|report] eqn:E; [vm_compute in E; discriminate|].
  exists report. split; [reflexivity|].
  destruct (script_report_counts sampleWorld report E) as (Htotal & Hsum & _).
  split; [rewrite Htotal; reflexivity | exact Hsum].
Defined.

End MigrationScript.

Section MigrationScriptUrls.
Import Facts UploadScript ScriptFacts.
Local Open Scope list_scope.

Lemma inferFolder_cases (name folder : string) :
  inferFolderFromName name = Some folder ->
  In folder ["images"; "videos"; "documents"].
Proof.
  unfold inferFolderFromName.
  destruct (R2Upload.guessContentType name "") as [ct|inherited]; [|discriminate].
  destruct (Js.startsWith "image/" ct); [intros [= <-]; left; reflexivity|].
  destruct (Js.startsWith "video/" ct); [intros [= <-]; right; left; reflexivity|].
  intros [= <-]. right; right; left; reflexivity.
Qed.

Lemma keyOf_shape (w : World) (i : nat) (row : UploadThingRow) (folder : string) :
  inferFolderFromName (row_name row) = Some folder ->
  keyOf w i row folder
  = (folder ++ "/" ++ Js.showNat (fst (w_fresh w i)) ++ "-"
     ++ snd (w_fresh w i) ++ "-" ++ R2Upload.sanitizeFilename (row_name row))%string.
Proof.
  intros Hf. unfold keyOf, R2Upload.generateR2Key.
  pose proof (inferFolder_cases _ _ Hf) as H. simpl in H.
  repeat (destruct H as [H | H]; [rewrite <- H; reflexivity|]). contradiction.
Qed.

Lemma handleRows_mapping (w : World) (localDir : string) (rows : list UploadThingRow)
    (i : nat) (st : Progress) (old new : string) :
  In (old, new) (pg_mapping (handleRows w localDir i rows st)) ->
  In (old, new) (pg_mapping st)
  \/ exists (k : nat) (row : UploadThingRow) (folder : string),
       nth_error rows k = Some row
       /\ old = row_url row
       /\ inferFolderFromName (row_name row) = Some folder
       /\ new = R2Upload.joinPublicUrl (R2Config.R2_PUBLIC_URL (w_env w))
                  (keyOf w (i + k) row folder).
Proof.
  revert i st. induction rows as [|row rows IH]; intros i st Hin; simpl in Hin;
    [left; exact Hin|].
  destruct (IH _ _ Hin) as [Hst | (k & r & folder & Hk & Ho & Hf & Hn)].
  - destruct (handleRow_step w localDir i row st)
      as (result & _ & _ & [(_ & (folder & Hf & _ & Hm) & _) | (_ & _ & Hm & _)]);
      rewrite Hm in Hst.
    + destruct Hst as [Heq | Hst]; [|left; exact Hst].
      injection Heq as <- <-. right. exists 0%nat, row, folder.
      rewrite Nat.add_0_r. repeat split. exact Hf.
    + left. exact Hst.
  - right. exists (S k), r, folder. split; [exact Hk|]. split; [exact Ho|].
    split; [exact Hf|]. rewrite Nat.add_succ_r. exact Hn.
Qed.

(** X27. Every new URL the script records is the public base URL, made
    to end with one slash, followed by the key of a row of the export; that
    key lies in the folder inferred for the row, which is "images",
    "videos" or "documents".  The script never records a bare key. *)
Theorem script_urls_lie_under_public_base :
  forall (w : World) (report : Report) (old new : string),
    main w = Written report ->
    In (old, new) (rp_mapping report) ->
    R2Config.R2_PUBLIC_URL (w_env w) <> ""
    /\ exists (k : nat) (row : UploadThingRow) (folder : string),
         nth_error (rowsOf w) k = Some row
         /\ old = row_url row
         /\ inferFolderFromName (row_name row) = Some folder
         /\ In folder ["images"; "videos"; "documents"]
         /\ new = (dropTrailingSlash (R2Config.R2_PUBLIC_URL (w_env w)) ++ "/"
                   ++ folder ++ "/"
                   ++ Js.showNat (fst (w_fresh w k)) ++ "-" ++ snd (w_fresh w k) ++ "-"
                   ++ R2Upload.sanitizeFilename (row_name row))%string.
Proof.
  intros w report old new H Hin. unfold main in H. fold (rowsOf w) in H.
  destruct (negb (Js.truthy (R2Config.R2_BUCKET_NAME (w_env w)))); [discriminate|].
  destruct (Js.truthy (R2Config.R2_PUBLIC_URL (w_env w))) eqn:Hu; simpl in H; [|discriminate].
  destruct (w_env w "LOCAL_FILES_DIR") as [localDir|]; [|discriminate].
  destruct (negb (Js.truthy localDir)); [discriminate|].
  destruct (rowsOf w) as [|row rows] eqn:Hrows; [discriminate|].
  injection H as <-. simpl in Hin.
  split; [intros E; rewrite E in Hu; discriminate|].
  apply (handleRows_mapping w localDir (row :: rows) 0 (mkProgress [] [] 0 0)) in Hin.
  destruct Hin as [[] | (k & r & folder & Hk & Ho & Hf & Hn)].
  exists k, r, folder. split; [exact Hk|]. split; [exact Ho|]. split; [exact Hf|].
  split; [exact (inferFolder_cases _ _ Hf)|].
  rewrite Hn. simpl. rewrite joinPublicUrl_nonempty by exact Hu.
  rewrite (keyOf_shape _ _ _ _ Hf). reflexivity.
Qed.

Lemma script_urls_lie_under_public_base_witness :
  exists report : Report,
    main sampleWorld = Written report
    /\ In ("https://old/a", "https://cdn.example.org/images/1700000000000-id-a.png")
          (rp_mapping report)
    /\ R2Config.R2_PUBLIC_URL (w_env sampleWorld) <> "".
Proof.
  destruct (main sampleWorld) as [message|report] eqn:E; [vm_compute in E; discriminate|].
  assert (Hin : In ("https://old/a", "https://cdn.example.org/images/1700000000000-id-a.png")
                   (rp_mapping report)).
  { vm_compute in E. injection E as <-. left. reflexivity. }
  exists report. split; [reflexivity|]. split; [exact Hin|].
  exact (proj1 (script_urls_lie_under_public_base sampleWorld report _ _ E Hin)).
Defined.

Ltac solve_folder_case :=
  vm_compute;
  repeat split; intros;
  repeat match goal with
         | H : _ \/ _ |- _ => destruct H
         | H : False |- _ => contradiction
         | H : _ = _ |- _ => discriminate H
         end; tauto.

Ltac table_case ext :=
  match goal with
  | |- context [String.eqb ?k ext] =>
      let E := fresh "E" in
      destruct (String.eqb k ext) eqn:E;
      [apply String.eqb_eq in E; subst ext; solve_folder_case
      | apply String.eqb_neq in E]
  end.

(** X28. The script files a row under "images" exactly when the lowered
    last extension of its name is png, jpg, jpeg, gif or webp, and under
    "videos" exactly when it is mp4, webm, ogg or mov.  When the extension
    is constructor or __proto__ the guessed type is not a string and the
    inference throws.  In every other case, audio and PDF files included,
    the row is filed under "documents". *)
Theorem inferFolderFromName_by_extension :
  forall name : string,
    (inferFolderFromName name = Some "images"
     <-> In (R2Upload.extensionOf name) imageExtensions)
    /\ (inferFolderFromName name = Some "videos"
        <-> In (R2Upload.extensionOf name) videoExtensions)
    /\ (inferFolderFromName name = None
        <-> In (R2Upload.extensionOf name) inheritedExtensions)
    /\ (inferFolderFromName name = Some "documents"
        <-> ~ In (R2Upload.extensionOf name)
                 (imageExtensions ++ videoExtensions ++ inheritedExtensions)).
Proof.
  intros name. unfold inferFolderFromName. rewrite guessContentType_table.
  pose proof (extensionOf_no_upper name) as Hup.
  revert Hup. generalize (R2Upload.extensionOf name). intros ext Hup.
  unfold R2Upload.lookup, R2Upload.EXT_TO_MIME, R2Upload.lookupOwn,
    imageExtensions, videoExtensions, inheritedExtensions.
  repeat table_case ext.
  destruct (String.eqb ext "constructor") eqn:Ec;
    [apply String.eqb_eq in Ec; subst ext; solve_folder_case|].
  destruct (String.eqb ext "__proto__") eqn:Ep;
    [apply String.eqb_eq in Ep; subst ext; solve_folder_case|].
  apply String.eqb_neq in Ec. apply String.eqb_neq in Ep.
  assert (Ec' : "constructor" <> ext) by congruence.
  assert (Ep' : "__proto__" <> ext) by congruence.
  destruct (existsb (String.eqb ext) R2Upload.inheritedNames) eqn:Ei.
  - apply (lowered_inherited ext Hup) in Ei. simpl in Ei.
    destruct Ei as [Ei | [Ei | []]]; congruence.
  - simpl. repeat split; intros; try discriminate; try tauto;
      repeat match goal with
             | H : _ \/ _ |- _ => destruct H
             | H : False |- _ => contradiction
             | H : ?a = ext, N : ?a <> ext |- _ => exact (False_ind _ (N H))
             end.
Qed.

Lemma inferFolder_examples :
  inferFolderFromName "x.PNG" = Some "images"
  /\ inferFolderFromName "x.mov" = Some "videos"
  /\ inferFolderFromName "x.pdf" = Some "documents"
  /\ inferFolderFromName "x.constructor" = None.
Proof. repeat split. Qed.

(** A row whose folder cannot be inferred fails, and nothing is sent. *)
Lemma row_with_inherited_extension_fails :
  handleRow sampleWorld "files" 0
    (mkRow "x.constructor" "k3" None "https://old/x" 30 "2024") (mkProgress [] [] 0 0)
  = mkProgress []
      [mkResult "https://old/x" None false (Some "ct.startsWith is not a function")]
      0 1.
Proof. reflexivity. Qed.

End MigrationScriptUrls.

Section ChapterRouteWitnesses.
Import Lms ChapterRoute ChapterFacts Scenario.
Local Open Scope list_scope.

Lemma chapter_route_next_then_previous_witness :
  NoDup (map entryKey (sortedContent db1 "c1"))
  /\ GET db1 (Some "alice") "c1" "ch1"
     = ChapterJson lesson1 (Some "ch2") None (Some KChapter) None
  /\ GET db1 (Some "bob") "c1" "ch2"
     = ChapterJson lesson2 (Some "q2") (Some "ch1") (Some KQuiz) (Some KChapter)
  /\ (Some "ch1" = Some "ch1" /\ Some KChapter = Some KChapter).
Proof.
  assert (Hnd : NoDup (map entryKey (sortedContent db1 "c1"))).
  { change (NoDup [("ch1", KChapter); ("ch2", KChapter); ("q2", KQuiz)]).
    repeat (constructor; [simpl; intros H;
                          repeat (destruct H as [H | H]; [discriminate|]); exact H|]).
    constructor. }
  assert (HA : GET db1 (Some "alice") "c1" "ch1"
               = ChapterJson lesson1 (Some "ch2") None (Some KChapter) None)
    by (vm_compute; reflexivity).
  assert (HB : GET db1 (Some "bob") "c1" "ch2"
               = ChapterJson lesson2 (Some "q2") (Some "ch1") (Some KQuiz) (Some KChapter))
    by (vm_compute; reflexivity).
  pose proof (chapter_route_next_then_previous db1 "alice" "bob" "c1" "ch1" "ch2"
                lesson1 lesson2 None (Some "q2") (Some "ch1") None (Some KQuiz)
                (Some KChapter) Hnd ltac:(discriminate) HA HB) as Hnav.
  split; [exact Hnd|]. split; [exact HA|]. split; [exact HB | exact Hnav].
Defined.

Lemma delete_chapter_effect_witness :
  fst (DELETE db1 (Some "tina") (Some "TEACHER") "c1" "ch1")
  = Status 200 "Chapter deleted successfully"
  /\ GET (snd (DELETE db1 (Some "tina") (Some "TEACHER") "c1" "ch1")) (Some "alice") "c1" "ch1"
     = Status 404 "Chapter not found"
  /\ (fst (DELETE db1 (Some "alice") (Some "USER") "c1" "ch1")
      <> Status 200 "Chapter deleted successfully"
      /\ snd (DELETE db1 (Some "alice") (Some "USER") "c1" "ch1") = db1).
Proof.
  assert (Hok : fst (DELETE db1 (Some "tina") (Some "TEACHER") "c1" "ch1")
                = Status 200 "Chapter deleted successfully") by reflexivity.
  assert (Hno : fst (DELETE db1 (Some "alice") (Some "USER") "c1" "ch1")
                <> Status 200 "Chapter deleted successfully") by (vm_compute; discriminate).
  split; [exact Hok|]. split.
  - exact (proj1 (proj2 (proj2 (delete_chapter_effect db1 (Some "tina") (Some "TEACHER")
                                   "c1" "ch1")) Hok) "alice" eq_refl).
  - split; [exact Hno|].
    exact (proj1 (proj2 (delete_chapter_effect db1 (Some "alice") (Some "USER") "c1" "ch1"))
             Hno).
Defined.

End ChapterRouteWitnesses.

(* ================================================================== *)
(** * Reading the event stream *)
(* ================================================================== *)

Section ReadingTheStream.
Import Facts TrimFacts UploadStreamClient StreamClientFacts.
Local Open Scope list_scope.

(** The two equations of [splitBlank] on a string of two or more
    characters. *)
Lemma splitBlank_blank (s : string) :
  splitBlank (String lf (String lf s)) = EmptyString :: splitBlank s.
Proof. reflexivity. Qed.

Lemma splitBlank_char (c d : ascii) (s : string) :
  Ascii.eqb c lf && Ascii.eqb d lf = false ->
  splitBlank (String c (String d s)) = consHead c (splitBlank (String d s)).
Proof.
  intros H.
  change (splitBlank (String c (String d s)))
    with (if Ascii.eqb c lf && Ascii.eqb d lf
          then EmptyString :: splitBlank s
          else consHead c (splitBlank (String d s))).
  rewrite H. reflexivity.
Qed.

Lemma blank_cases (c d : ascii) :
  {c = lf /\ d = lf} + {Ascii.eqb c lf && Ascii.eqb d lf = false}.
Proof.
  destruct (Ascii.eqb c lf) eqn:Ec; [|right; reflexivity].
  destruct (Ascii.eqb d lf) eqn:Ed; [|right; reflexivity].
  left. split; apply Ascii.eqb_eq; assumption.
Qed.

Lemma splitBlank_nonempty (s : string) : splitBlank s <> [].
Proof.
  destruct s as [|c [|d s']]; try discriminate.
  destruct (blank_cases c d) as [[-> ->] | Hnb].
  - rewrite splitBlank_blank. discriminate.
  - rewrite (splitBlank_char c d s' Hnb). unfold consHead.
    destruct (splitBlank (String d s')); discriminate.
Qed.

(** Induction on a string two characters at a time. *)
Lemma string_ind2 (P : string -> Prop) :
  P EmptyString ->
  (forall c, P (String c EmptyString)) ->
  (forall c d s, P s -> P (String d s) -> P (String c (String d s))) ->
  forall s, P s.
Proof.
  intros H0 H1 H2 s.
  assert (H : P s /\ forall c, P (String c s)).
  { induction s as [|d s [IHs IHc]]; [split; [exact H0 | exact H1]|].
    split; [apply IHc|]. intros c. apply H2; [exact IHs | apply IHc]. }
  exact (proj1 H).
Qed.

Lemma splitBlank_singleton (s x : string) : splitBlank s = [x] -> x = s.
Proof.
  revert x. induction s as [| c | c d s IHs IHd] using string_ind2; intros x H.
  - injection H as <-. reflexivity.
  - injection H as <-. reflexivity.
  - destruct (blank_cases c d) as [[-> ->] | Hnb].
    + rewrite splitBlank_blank in H. injection H as _ H.
      exfalso. exact (splitBlank_nonempty s H).
    + rewrite (splitBlank_char c d s Hnb) in H. unfold consHead in H.
      destruct (splitBlank (String d s)) as [|seg segs] eqn:E;
        [exfalso; exact (splitBlank_nonempty _ E)|].
      injection H as <- ->. rewrite (IHd seg eq_refl). reflexivity.
Qed.

Lemma cons_is_snoc {A : Type} (x : A) (l init : list A) (lst : A) :
  l <> [] -> x :: l = init ++ [lst] ->
  exists init', init = x :: init' /\ l = init' ++ [lst].
Proof.
  intros Hne H. destruct init as [|y init'].
  - simpl in H. injection H as _ H. congruence.
  - simpl in H. injection H as <- H. exists init'. split; [reflexivity | exact H].
Qed.

(** Splitting is done from left to right: the segments closed in a text
    stay as they are when more text follows, and only the last, open
    segment is split again with what follows. *)
Lemma splitBlank_online (a b : string) (init : list string) (lst : string) :
  splitBlank a = init ++ [lst] ->
  splitBlank (a ++ b)%string = init ++ splitBlank (lst ++ b)%string.
Proof.
  revert init lst. induction a as [| c | c d s IHs IHd] using string_ind2; intros init lst H.
  - destruct init as [|x [|y r]]; try discriminate. injection H as <-. reflexivity.
  - destruct init as [|x [|y r]]; try discriminate. injection H as <-. reflexivity.
  - destruct (blank_cases c d) as [[-> ->] | Hnb].
    + rewrite splitBlank_blank in H.
      destruct (cons_is_snoc _ _ _ _ (splitBlank_nonempty s) H) as (init' & -> & Hs).
      change (String lf (String lf s) ++ b)%string with (String lf (String lf (s ++ b)%string)).
      rewrite splitBlank_blank, (IHs _ _ Hs). reflexivity.
    + rewrite (splitBlank_char c d s Hnb) in H.
      change (String c (String d s) ++ b)%string with (String c (String d (s ++ b)%string)).
      rewrite (splitBlank_char c d _ Hnb).
      change (String d (s ++ b)%string) with (String d s ++ b)%string.
      destruct (splitBlank (String d s)) as [|seg [|seg' segs]] eqn:E.
      * exfalso. exact (splitBlank_nonempty _ E).
      * apply splitBlank_singleton in E. subst seg. simpl in H.
        destruct init as [|x [|y r]]; try discriminate. injection H as <-.
        rewrite app_nil_l.
        change (String c (String d s) ++ b)%string with (String c (String d (s ++ b)%string)).
        rewrite (splitBlank_char c d _ Hnb). reflexivity.
      * simpl in H.
        destruct (cons_is_snoc (String c seg) (seg' :: segs) init lst ltac:(discriminate) H)
          as (init' & -> & Hs).
        assert (Hd : seg :: seg' :: segs = (seg :: init') ++ [lst])
          by (simpl; rewrite Hs; reflexivity).
        rewrite (IHd _ _ Hd). reflexivity.
Qed.

Lemma pop_snoc (l : list string) (x : string) : Js.pop (l ++ [x]) = Some x.
Proof.
  induction l as [|y l IH]; [reflexivity|].
  simpl. destruct (l ++ [x]) eqn:E; [destruct l; discriminate | exact IH].
Qed.

Lemma snoc_decompose (l : list string) :
  l <> [] -> exists init lst, l = init ++ [lst].
Proof.
  intros H. destruct (exists_last H) as (init & lst & ->). exists init, lst. reflexivity.
Qed.

(** The open segment left after splitting holds no blank line. *)
Lemma splitBlank_last (s : string) (init : list string) (lst : string) :
  splitBlank s = init ++ [lst] -> splitBlank lst = [lst].
Proof.
  revert init lst. induction s as [| c | c d s IHs IHd] using string_ind2; intros init lst H.
  - destruct init as [|x [|y r]]; try discriminate. injection H as <-. reflexivity.
  - destruct init as [|x [|y r]]; try discriminate. injection H as <-. reflexivity.
  - destruct (blank_cases c d) as [[-> ->] | Hnb].
    + rewrite splitBlank_blank in H.
      destruct (cons_is_snoc _ _ _ _ (splitBlank_nonempty s) H) as (init' & -> & Hs).
      exact (IHs _ _ Hs).
    + pose proof (splitBlank_char c d s Hnb) as Hc. rewrite Hc in H.
      destruct (splitBlank (String d s)) as [|seg [|seg' segs]] eqn:E.
      * exfalso. exact (splitBlank_nonempty _ E).
      * apply splitBlank_singleton in E. subst seg. simpl in H.
        destruct init as [|x [|y r]]; try discriminate. injection H as <-.
        rewrite Hc. reflexivity.
      * simpl in H.
        destruct (cons_is_snoc (String c seg) (seg' :: segs) init lst ltac:(discriminate) H)
          as (init' & -> & Hs).
        apply (IHd (seg :: init') lst). simpl. rewrite Hs. reflexivity.
Qed.

Lemma processChunks_app (parse : Parser) (fileName : string) (a b : list string) (seen : Seen) :
  ending seen = None ->
  processChunks parse fileName (a ++ b) seen
  = match ending (processChunks parse fileName a seen) with
    | Some _ => processChunks parse fileName a seen
    | None => processChunks parse fileName b (processChunks parse fileName a seen)
    end.
Proof.
  revert seen. induction a as [|chunk a IH]; intros seen Hnone; simpl.
  - rewrite Hnone. reflexivity.
  - destruct (ending (react (reactToChunk parse fileName chunk) seen)) eqn:E.
    + rewrite E. reflexivity.
    + apply IH. exact E.
Qed.

Lemma concat_assoc (a b c : string) : ((a ++ b) ++ c = a ++ b ++ c)%string.
Proof. apply append_assoc. Qed.

(** What the loop shows is what the whole text shows: the chunks closed
    by a blank line in the text kept so far and the text still to come. *)
Lemma readLoop_whole (parse : Parser) (fileName : string) (reads : list string)
    (buffer : string) (seen : Seen) :
  ending seen = None ->
  splitBlank buffer = [buffer] ->
  readLoop parse fileName buffer reads seen
  = finish (processChunks parse fileName
              (removelast (splitBlank (buffer ++ concatReads reads)%string)) seen).
Proof.
  revert buffer seen. induction reads as [|value rest IH]; intros buffer seen Hnone Hbuf.
  - simpl. rewrite append_nil_r, Hbuf. simpl. unfold finish. rewrite Hnone. reflexivity.
  - cbn [readLoop concatReads].
    destruct (snoc_decompose _ (splitBlank_nonempty (buffer ++ value)%string))
      as (init & lst & Hsplit).
    rewrite <- concat_assoc.
    rewrite (splitBlank_online _ (concatReads rest) _ _ Hsplit).
    rewrite Hsplit, pop_snoc, removelast_last.
    assert (Hlst : Js.orElse lst "" = lst) by (destruct lst; reflexivity).
    rewrite Hlst.
    destruct (snoc_decompose _ (splitBlank_nonempty (lst ++ concatReads rest)%string))
      as (init2 & lst2 & Hsplit2).
    rewrite Hsplit2, app_assoc, removelast_last.
    rewrite processChunks_app by exact Hnone.
    destruct (ending (processChunks parse fileName init seen)) eqn:E.
    + unfold finish. rewrite E. reflexivity.
    + rewrite (IH lst _ E (splitBlank_last _ _ _ Hsplit)).
      rewrite Hsplit2, removelast_last. reflexivity.
Qed.

(** X29. What the upload component shows and how it ends depend on the
    text of the stream only, not on how the network cuts that text into
    reads. *)
Theorem stream_reading_ignores_read_boundaries :
  forall (parse : Parser) (fileName : string) (reads reads' : list string),
    concatReads reads = concatReads reads' ->
    readStream parse fileName reads = readStream parse fileName reads'.
Proof.
  intros parse fileName reads reads' H. unfold readStream.
  rewrite !readLoop_whole by reflexivity. simpl. rewrite H. reflexivity.
Qed.

End ReadingTheStream.

Section FramesOfTheStream.
Import Facts TrimFacts UploadStreamClient StreamClientFacts.
Local Open Scope list_scope.

Lemma stream_reading_ignores_read_boundaries_witness :
  concatReads ["data: {}"; String lf ""; String lf "da"; "ta: {}"; blankLine]
  = concatReads [frame "{}"; frame "{}"]
  /\ readStream (fun _ => inl (mkData (Some 7) false "" "" "")) "f"
       ["data: {}"; String lf ""; String lf "da"; "ta: {}"; blankLine]
     = readStream (fun _ => inl (mkData (Some 7) false "" "" "")) "f"
         [frame "{}"; frame "{}"].
Proof.
  split; [reflexivity|].
  apply stream_reading_ignores_read_boundaries. reflexivity.
Defined.

(** A line without a line feed, closed by a blank line, is the first
    segment of the split. *)
Lemma splitBlank_line (x rest : string) :
  hasChar lf x = false ->
  splitBlank (x ++ blankLine ++ rest)%string = x :: splitBlank rest.
Proof.
  induction x as [|c x IH]; intros Hx; [reflexivity|].
  simpl in Hx. apply orb_false_iff in Hx. destruct Hx as [Hc Hx].
  specialize (IH Hx).
  destruct x as [|d x'].
  - change (String c "" ++ blankLine ++ rest)%string
      with (String c (String lf (String lf rest))).
    rewrite splitBlank_char by (rewrite Hc; reflexivity).
    rewrite splitBlank_blank. reflexivity.
  - change (String c (String d x') ++ blankLine ++ rest)%string
      with (String c (String d (x' ++ blankLine ++ rest)%string)).
    rewrite splitBlank_char by (rewrite Hc; reflexivity).
    change (String d (x' ++ blankLine ++ rest)%string)
      with (String d x' ++ blankLine ++ rest)%string.
    rewrite IH. reflexivity.
Qed.

Lemma splitBlank_frames (payloads : list string) :
  Forall compact payloads ->
  splitBlank (concatFrames payloads)
  = map (fun json => ("data: " ++ json)%string) payloads ++ [""%string].
Proof.
  induction 1 as [|json rest (Hne & Hlf & Htrim) _ IH]; [reflexivity|].
  cbn [concatFrames map app]. unfold frame.
  rewrite <- (append_assoc "data: " json blankLine).
  rewrite (append_assoc ("data: " ++ json) blankLine (concatFrames rest)).
  rewrite splitBlank_line, IH; [reflexivity|].
  rewrite hasChar_append, Hlf. reflexivity.
Qed.

Lemma revString_nonempty (s : string) : s <> ""%string -> Js.revString s "" <> ""%string.
Proof.
  intros Hs E. apply Hs. rewrite <- (revString_involutive s), E. reflexivity.
Qed.

Lemma reactToChunk_frame (parse : Parser) (fileName json : string) :
  compact json ->
  reactToChunk parse fileName ("data: " ++ json)
  = match parse json with
    | inl data => reactToData fileName data
    | inr message => End_ (Failed (toastMessage message))
    end.
Proof.
  intros (Hne & _ & Hfirst & Hlast). unfold reactToChunk.
  assert (Htrim : Js.trim ("data: " ++ json) = ("data: " ++ json)%string).
  { apply trimmed_fixed. split.
    - intros w Hw. unfold Js.whiteSpace in Hw. simpl in Hw.
      repeat (destruct Hw as [<- | Hw]; [reflexivity|]). contradiction.
    - intros w Hw. specialize (Hlast w Hw). unfold Js.endsWith in *.
      rewrite revString_app.
      change (Js.revString "data: " "") with (String " " ":atad").
      apply startsWith_behind; [exact Hlast | exact (revString_nonempty _ Hne)|].
      unfold Js.whiteSpace in Hw. simpl in Hw.
      repeat (destruct Hw as [<- | Hw]; [reflexivity|]). contradiction. }
  rewrite Htrim.
  change (Js.startsWith "data:" ("data: " ++ json)) with true. cbn [negb].
  assert (Hstrip : stripData ("data: " ++ json) = json).
  { unfold stripData. change (Js.startsWith "data:" ("data: " ++ json)) with true.
    change (dropChars 5 ("data: " ++ json)) with (String " " json).
    unfold Js.trimStart. cbn [String.length Js.stripAll].
    change (Js.stripOne Js.whiteSpace (String " " json)) with (Some json).
    apply stripAll_fixed. apply stripOne_none. exact Hfirst. }
  rewrite Hstrip.
  destruct json; [congruence | reflexivity].
Qed.

Lemma processChunks_frames (parse : Parser) (fileName : string) (payloads : list string)
    (seen : Seen) :
  Forall compact payloads ->
  processChunks parse fileName (map (fun json => ("data: " ++ json)%string) payloads) seen
  = processPayloads parse fileName payloads seen.
Proof.
  intros H. revert seen. induction H as [|json rest Hc _ IH]; intros seen; [reflexivity|].
  cbn [map processChunks processPayloads].
  rewrite (reactToChunk_frame parse fileName json Hc).
  destruct (ending _); [reflexivity | apply IH].
Qed.

(** X30. When the text of the stream is made of the lines the route
    writes, one per JSON text, the component handles exactly those JSON
    texts, in order, up to the first that ends the upload, however the
    text is cut into reads; when none ends it, the upload fails with
    "Upload stream ended unexpectedly". *)
Theorem stream_reading_recovers_payloads :
  forall (parse : Parser) (fileName : string) (payloads reads : list string),
    Forall compact payloads ->
    concatReads reads = concatFrames payloads ->
    readStream parse fileName reads
    = finish (processPayloads parse fileName payloads (mkSeen [] None)).
Proof.
  intros parse fileName payloads reads Hc Htext. unfold readStream.
  rewrite readLoop_whole by reflexivity. simpl. rewrite Htext.
  rewrite (splitBlank_frames payloads Hc), removelast_last.
  rewrite processChunks_frames by exact Hc. reflexivity.
Qed.

End FramesOfTheStream.

Section FramesWitness.
Import Facts TrimFacts UploadStreamClient StreamClientFacts.
Local Open Scope list_scope.

Lemma compact_braces (inner : string) :
  hasChar lf inner = false -> compact ("{" ++ inner ++ "}").
Proof.
  intros H. split; [discriminate|]. split.
  - simpl. rewrite hasChar_append, H. reflexivity.
  - split.
    + intros w Hw. unfold Js.whiteSpace in Hw. simpl in Hw.
      repeat (destruct Hw as [<- | Hw]; [reflexivity|]). contradiction.
    + intros w Hw. unfold Js.endsWith.
      change ("{" ++ inner ++ "}")%string with (("{" ++ inner) ++ "}")%string.
      rewrite revString_snoc.
      unfold Js.whiteSpace in Hw. simpl in Hw.
      repeat (destruct Hw as [<- | Hw]; [reflexivity|]). contradiction.
Qed.

Lemma stream_reading_recovers_payloads_witness :
  Forall compact ["{p}"%string; "{d}"%string]
  /\ concatReads ["data: {p"; "}" ++ String lf ""; String lf "data: {d}" ++ blankLine]%string
     = concatFrames ["{p}"%string; "{d}"%string]
  /\ readStream
       (fun json => if String.eqb json "{p}"
                    then inl (mkData (Some 40) false "" "" "")
                    else inl (mkData None true "u" "" ""))
       "f.pdf"
       ["data: {p"; "}" ++ String lf ""; String lf "data: {d}" ++ blankLine]%string
     = mkSeen [40; 100] (Some (Uploaded "u" "f.pdf")).
Proof.
  assert (Hc : Forall compact ["{p}"%string; "{d}"%string]).
  { constructor; [apply (compact_braces "p"); reflexivity|].
    constructor; [apply (compact_braces "d"); reflexivity | constructor]. }
  split; [exact Hc|]. split; [reflexivity|].
  assert (Htext : concatReads
                    ["data: {p"; "}" ++ String lf ""; String lf "data: {d}" ++ blankLine]%string
                  = concatFrames ["{p}"%string; "{d}"%string]) by reflexivity.
  rewrite (stream_reading_recovers_payloads _ "f.pdf" _ _ Hc Htext).
  reflexivity.
Defined.

End FramesWitness.

Section MoreWitnesses.
Import UploadRoute Props StreamFacts Scenario.
Local Open Scope list_scope.

Lemma generateR2Key_injective_witness :
  R2Upload.generateR2Key 1700000000123 "u-1" "a b.pdf" (Some "docs")
  = R2Upload.generateR2Key 1700000000123 "u-1" "a b.pdf" (Some "docs")
  /\ (1700000000123%N = 1700000000123%N /\ "u-1"%string = "u-1"%string).
Proof.
  split; [reflexivity|].
  exact (generateR2Key_injective 1700000000123 1700000000123 "u-1" "u-1" "a b.pdf"
           (Some "docs"%string) eq_refl).
Defined.

Lemma stream_succeeds_iff_bucket_set_and_store_accepts_witness :
  In (Error "Access Denied") (queue (fst (start envFull storeFails preparedPdf freshController)))
  /\ "Access Denied"%string <> ""%string
  /\ ~ succeeded (fst (start envFull storeFails preparedPdf freshController)).
Proof.
  assert (Hin : In (Error "Access Denied")
                   (queue (fst (start envFull storeFails preparedPdf freshController))))
    by (vm_compute; right; left; reflexivity).
  destruct (stream_succeeds_iff_bucket_set_and_store_accepts envFull storeFails preparedPdf)
    as (Hiff & _ & Hmsg).
  split; [exact Hin|]. split; [exact (Hmsg _ Hin)|].
  intros Hs. apply Hiff in Hs. destruct Hs as [_ Hs]. discriminate Hs.
Defined.

End MoreWitnesses.
